(** * LETUS assignment checker: a shallow embedding of [letus_checker_secure.py]

    The development follows the layout of the script: helpers
    ([get_secret], [parse_due_date], [notify]), then the [LetusChecker]
    class ([login], [fetch_upcoming], [is_submitted], [run]).

    Python's [str] is a sequence of Unicode code points, modelled as a
    list of integers.  The regular expressions of [parse_due_date] are kept
    as syntax trees and run by a backtracking matcher with capture groups
    that follows the priorities of Python's [re] module (leftmost start,
    greedy or lazy repetition, ordered alternation). *)

From Stdlib Require Import String Ascii ZArith List Bool Lia.
Import ListNotations.
Local Open Scope Z_scope.

Set Implicit Arguments.

(* ================================================================== *)
(** * Python strings *)
(* ================================================================== *)

Definition pystr := list Z.

(** Source literals are written as UTF-8 text and decoded to code points. *)
Fixpoint utf8_decode (s : string) (need : nat) (acc : Z) : pystr :=
  match s with
  | EmptyString => []
  | String a s' =>
      let b := Z.of_N (N_of_ascii a) in
      match need with
      | O =>
          if b <? 128 then b :: utf8_decode s' 0 0
          else if b <? 224 then utf8_decode s' 1 (b - 192)
          else if b <? 240 then utf8_decode s' 2 (b - 224)
          else utf8_decode s' 3 (b - 240)
      | S O => (acc * 64 + (b - 128)) :: utf8_decode s' 0 0
      | S n => utf8_decode s' n (acc * 64 + (b - 128))
      end
  end.

Definition py (s : string) : pystr := utf8_decode s 0 0.

Fixpoint str_eqb (a b : pystr) : bool :=
  match a, b with
  | [], [] => true
  | x :: a', y :: b' => (x =? y) && str_eqb a' b'
  | _, _ => false
  end.

Fixpoint starts_with (p s : pystr) : bool :=
  match p, s with
  | [], _ => true
  | x :: p', y :: s' => (x =? y) && starts_with p' s'
  | _ :: _, [] => false
  end.

(** [needle in hay] *)
Fixpoint contains (needle hay : pystr) : bool :=
  starts_with needle hay ||
  match hay with
  | [] => false
  | _ :: hay' => contains needle hay'
  end.

(** ["\n".join(parts)] and friends *)
Fixpoint join (sep : pystr) (parts : list pystr) : pystr :=
  match parts with
  | [] => []
  | [p] => p
  | p :: rest => p ++ sep ++ join sep rest
  end.

(** Decimal rendering of an integer, as [str(n)] and f-strings do. *)
Fixpoint digits_fuel (fuel : nat) (n : Z) (acc : pystr) : pystr :=
  match fuel with
  | O => acc
  | S f =>
      let acc' := (48 + n mod 10) :: acc in
      if n <? 10 then acc' else digits_fuel f (n / 10) acc'
  end.

Definition str_of_nonneg (n : Z) : pystr :=
  digits_fuel (S (Z.to_nat (Z.log2 n))) n [].

Definition str_of_int (n : Z) : pystr :=
  if n <? 0 then 45 :: str_of_nonneg (- n) else str_of_nonneg n.

(* ================================================================== *)
(** * Exceptions and results *)
(* ================================================================== *)

(** The exception classes that can leave the modelled functions.  The
    script itself raises only [RuntimeError]; the others come from the
    libraries it calls ([datetime], [int], Playwright, [requests],
    [rich]). *)
Inductive exn_class : Type :=
| RuntimeError
| ValueError
| TypeError
| OverflowError
| PlaywrightError
| PlaywrightTimeoutError
| RequestException
| MarkupError.

Record exn : Type := Exn { exn_cls : exn_class; exn_msg : string }.

Definition exn_class_eqb (a b : exn_class) : bool :=
  match a, b with
  | RuntimeError, RuntimeError
  | ValueError, ValueError
  | TypeError, TypeError
  | OverflowError, OverflowError
  | PlaywrightError, PlaywrightError
  | PlaywrightTimeoutError, PlaywrightTimeoutError
  | RequestException, RequestException
  | MarkupError, MarkupError => true
  | _, _ => false
  end.

Inductive result (A : Type) : Type :=
| Ok (a : A)
| Raise (e : exn).

Arguments Ok {A} a.
Arguments Raise {A} e.

Definition rbind {A B} (r : result A) (f : A -> result B) : result B :=
  match r with
  | Ok a => f a
  | Raise e => Raise e
  end.

Declare Scope res_scope.
Delimit Scope res_scope with res.
Notation "x <-- c ;; k" := (rbind c (fun x => k))
  (at level 61, c at next level, right associativity) : res_scope.

(* ================================================================== *)
(** * Unicode character data

    [\d], [\s], [re.I], [int] and [str.lower] consult the Unicode
    character database of the interpreter.  The database is a parameter of
    the development; what is assumed of it is its restriction to ASCII and
    to the kana and CJK ideograph blocks, where its content is fixed. *)
(* ================================================================== *)

Record UnicodeData : Type := {
  decimal_value : Z -> option Z;   (* digit value of a decimal digit (Nd) *)
  isspace : Z -> bool;             (* whitespace, as [\s] and [str.strip] *)
  ignorecase_eq : Z -> Z -> bool;  (* cased pattern literal vs subject, re.I *)
  lower : pystr -> pystr           (* [str.lower] *)
}.

Definition ascii_decimal (c : Z) : option Z :=
  if (48 <=? c) && (c <=? 57) then Some (c - 48) else None.

Definition ascii_isspace (c : Z) : bool :=
  ((9 <=? c) && (c <=? 13)) || ((28 <=? c) && (c <=? 32)).

Definition ascii_lower_char (c : Z) : Z :=
  if (65 <=? c) && (c <=? 90) then c + 32 else c.

Definition ascii_ignorecase_eq (p c : Z) : bool :=
  ascii_lower_char p =? ascii_lower_char c.

Definition is_ascii (c : Z) : bool := (0 <=? c) && (c <? 128).

Definition is_ascii_letter (c : Z) : bool :=
  ((65 <=? c) && (c <=? 90)) || ((97 <=? c) && (c <=? 122)).

(** ASCII, Hiragana and Katakana (U+3040..U+30FF), CJK unified ideographs
    (U+4E00..U+9FFF): outside ASCII these hold no digit, no whitespace and
    no cased letter. *)
Definition basic (c : Z) : bool :=
  is_ascii c || ((12352 <=? c) && (c <=? 12543))
             || ((19968 <=? c) && (c <=? 40959)).

(** The database restricted to [basic] characters. *)
Definition ascii_ucd : UnicodeData := {|
  decimal_value := ascii_decimal;
  isspace := ascii_isspace;
  ignorecase_eq := ascii_ignorecase_eq;
  lower := map ascii_lower_char
|}.

Record ucd_ok (U : UnicodeData) : Prop := {
  ok_decimal : forall c, basic c = true -> decimal_value U c = ascii_decimal c;
  ok_decimal_range :
    forall c v, decimal_value U c = Some v -> 0 <= v <= 9;
  ok_space : forall c, basic c = true -> isspace U c = ascii_isspace c;
  ok_ignorecase :
    forall p c, is_ascii_letter p = true -> basic c = true ->
                ignorecase_eq U p c = ascii_ignorecase_eq p c;
  (* no character outside ASCII folds to a, m or p *)
  ok_ignorecase_amp :
    forall p c, In p [65; 77; 80] -> ignorecase_eq U p c = true ->
                c = p \/ c = p + 32;
  ok_lower :
    forall s, forallb basic s = true -> lower U s = map ascii_lower_char s
}.

(* ================================================================== *)
(** * Regular expressions, as [re] runs them *)
(* ================================================================== *)

Inductive cset : Type :=
| CDigit   (* \d *)
| CSpace   (* \s *)
| CDot.    (* .  (no DOTALL: anything but a newline) *)

(** Every quantifier of the two patterns applies to a one-character
    item, which is what [RRepeat] covers: [lo] to [hi] copies ([None] for
    no upper bound), greedy or lazy. *)
Inductive regex : Type :=
| REmpty
| RLit (c : Z)
| RSet (cs : cset)
| RSeq (r1 r2 : regex)
| RAlt (r1 r2 : regex)
| RRepeat (cs : cset) (lo : nat) (hi : option nat) (greedy : bool)
| RGroup (n : nat) (r : regex).

Definition groups := nat -> option pystr.

Definition no_groups : groups := fun _ => None.

Definition set_group (n : nat) (v : pystr) (g : groups) : groups :=
  fun i => if Nat.eqb i n then Some v else g i.

(** Ordered choice: the second branch runs only when the first fails. *)
Notation "a 'orelse' b" :=
  (match a with
   | Some x => Some x
   | None => b
   end) (at level 50, left associativity, only parsing).

(** How many further copies a repetition may take: [None] when the bound
    is reached, [Some m'] with the remaining allowance otherwise. *)
Definition more_left (m : option nat) : option (option nat) :=
  match m with
  | None => Some None
  | Some O => None
  | Some (S n) => Some (Some n)
  end.

Section Matcher.

Variable U : UnicodeData.
Variable ignorecase : bool.   (* the re.I flag *)

Definition in_cset (cs : cset) (c : Z) : bool :=
  match cs with
  | CDigit => match decimal_value U c with Some _ => true | None => false end
  | CSpace => isspace U c
  | CDot => negb (c =? 10)
  end.

(** Under [re.I] a cased literal is compared through case folding; the
    uncased literals of the patterns (the colon) are compared exactly. *)
Definition lit_match (p c : Z) : bool :=
  if ignorecase && is_ascii_letter p then ignorecase_eq U p c else p =? c.

Fixpoint rep_min (cs : cset) (n : nat) (s : pystr)
         (k : pystr -> option groups) : option groups :=
  match n with
  | O => k s
  | S n' =>
      match s with
      | c :: s' => if in_cset cs c then rep_min cs n' s' k else None
      | [] => None
      end
  end.

(** Greedy: take one more copy first, fall back to stopping here. *)
Fixpoint rep_greedy (cs : cset) (m : option nat) (s : pystr)
         (k : pystr -> option groups) : option groups :=
  match s, more_left m with
  | c :: s', Some m' =>
      if in_cset cs c then rep_greedy cs m' s' k orelse k s else k s
  | _, _ => k s
  end.

(** Lazy: stop here first, take one more copy on failure. *)
Fixpoint rep_lazy (cs : cset) (m : option nat) (s : pystr)
         (k : pystr -> option groups) : option groups :=
  match k s with
  | Some r => Some r
  | None =>
      match s, more_left m with
      | c :: s', Some m' =>
          if in_cset cs c then rep_lazy cs m' s' k else None
      | _, _ => None
      end
  end.

Definition allowance (lo : nat) (hi : option nat) : option nat :=
  match hi with
  | None => None
  | Some h => Some (h - lo)%nat
  end.

(** [consumed s s'] is the part of [s] read before the rest [s']. *)
Definition consumed (s s' : pystr) : pystr :=
  firstn (length s - length s') s.

(** Backtracking matcher in continuation-passing style: [k] is the rest
    of the pattern, applied to the rest of the subject. *)
Fixpoint matchk (r : regex) (s : pystr) (g : groups)
         (k : pystr -> groups -> option groups) : option groups :=
  match r with
  | REmpty => k s g
  | RLit p =>
      match s with
      | c :: s' => if lit_match p c then k s' g else None
      | [] => None
      end
  | RSet cs =>
      match s with
      | c :: s' => if in_cset cs c then k s' g else None
      | [] => None
      end
  | RSeq r1 r2 => matchk r1 s g (fun s' g' => matchk r2 s' g' k)
  | RAlt r1 r2 => matchk r1 s g k orelse matchk r2 s g k
  | RRepeat cs lo hi greedy =>
      rep_min cs lo s (fun s1 =>
        (if greedy then rep_greedy else rep_lazy)
          cs (allowance lo hi) s1 (fun s2 => k s2 g))
  | RGroup n r =>
      matchk r s g (fun s' g' => k s' (set_group n (consumed s s') g'))
  end.

Definition match_here (r : regex) (s : pystr) : option groups :=
  matchk r s no_groups (fun _ g => Some g).

(** [re.search]: the first start position, left to right, at which the
    pattern matches. *)
Fixpoint search (r : regex) (s : pystr) : option groups :=
  match match_here r s with
  | Some g => Some g
  | None =>
      match s with
      | [] => None
      | _ :: s' => search r s'
      end
  end.

End Matcher.

Definition rcat (rs : list regex) : regex := fold_right RSeq REmpty rs.

Fixpoint ralt (rs : list regex) : regex :=
  match rs with
  | [] => REmpty
  | [r] => r
  | r :: rest => RAlt r (ralt rest)
  end.

Definition rstr (s : pystr) : regex := rcat (map RLit s).

Definition digits (lo hi : nat) : regex := RRepeat CDigit lo (Some hi) true.

Definition month_names : list pystr :=
  map py ["January"; "February"; "March"; "April"; "May"; "June"; "July";
          "August"; "September"; "October"; "November"; "December"]%string.

(** [(\d{4})年(\d{1,2})月(\d{1,2})日\s*(\d{1,2}):(\d{2})] *)
Definition jp_pattern : regex :=
  rcat [RGroup 1 (digits 4 4); RLit 24180;
        RGroup 2 (digits 1 2); RLit 26376;
        RGroup 3 (digits 1 2); RLit 26085;
        RRepeat CSpace 0 None true;
        RGroup 4 (digits 1 2); RLit 58; RGroup 5 (digits 2 2)].

(** [(\d{1,2})\s+(January|...|December)\s+(\d{4}).*?(\d{1,2}):(\d{2})\s*(AM|PM)],
    compiled with [re.I] *)
Definition en_pattern : regex :=
  rcat [RGroup 1 (digits 1 2);
        RRepeat CSpace 1 None true;
        RGroup 2 (ralt (map rstr month_names));
        RRepeat CSpace 1 None true;
        RGroup 3 (digits 4 4);
        RRepeat CDot 0 None false;
        RGroup 4 (digits 1 2); RLit 58; RGroup 5 (digits 2 2);
        RRepeat CSpace 0 None true;
        RGroup 6 (RAlt (rstr (py "AM")) (rstr (py "PM")))].

(* ================================================================== *)
(** * Timestamps: [datetime.datetime] with [tzinfo=JST] *)
(* ================================================================== *)

Inductive tzinfo : Type := JST.   (* ZoneInfo("Asia/Tokyo") *)

Record datetime : Type := {
  year : Z; month : Z; day : Z;
  hour : Z; minute : Z; second : Z; microsecond : Z;
  tz : tzinfo
}.

Definition MINYEAR : Z := 1.
Definition MAXYEAR : Z := 9999.
Definition MAXORDINAL : Z := 3652059.   (* date.max.toordinal() *)

Definition is_leap (y : Z) : bool :=
  (y mod 4 =? 0) && (negb (y mod 100 =? 0) || (y mod 400 =? 0)).

Definition DAYS_IN_MONTH : list Z :=
  [-1; 31; 28; 31; 30; 31; 30; 31; 31; 30; 31; 30; 31].

Definition DAYS_BEFORE_MONTH : list Z :=
  [-1; 0; 31; 59; 90; 120; 151; 181; 212; 243; 273; 304; 334].

Definition days_in_month (y m : Z) : Z :=
  if (m =? 2) && is_leap y then 29 else nth (Z.to_nat m) DAYS_IN_MONTH 0.

Definition days_before_year (y : Z) : Z :=
  let y1 := y - 1 in y1 * 365 + y1 / 4 - y1 / 100 + y1 / 400.

Definition days_before_month (y m : Z) : Z :=
  nth (Z.to_nat m) DAYS_BEFORE_MONTH 0
  + (if (2 <? m) && is_leap y then 1 else 0).

Definition ymd2ord (y m d : Z) : Z :=
  days_before_year y + days_before_month y m + d.

Definition DI400Y : Z := 146097.
Definition DI100Y : Z := 36524.
Definition DI4Y : Z := 1461.

Definition ord2ymd (n : Z) : Z * Z * Z :=
  let n := n - 1 in
  let n400 := n / DI400Y in
  let n := n mod DI400Y in
  let y := n400 * 400 + 1 in
  let n100 := n / DI100Y in
  let n := n mod DI100Y in
  let n4 := n / DI4Y in
  let n := n mod DI4Y in
  let n1 := n / 365 in
  let n := n mod 365 in
  let y := y + n100 * 100 + n4 * 4 + n1 in
  if (n1 =? 4) || (n100 =? 4) then (y - 1, 12, 31)
  else
    let leapyear := (n1 =? 3) && (negb (n4 =? 24) || (n100 =? 3)) in
    let m := Z.shiftr (n + 50) 5 in
    let preceding :=
      nth (Z.to_nat m) DAYS_BEFORE_MONTH 0
      + (if (2 <? m) && leapyear then 1 else 0) in
    if n <? preceding then
      let m' := m - 1 in
      let preceding' :=
        preceding - (nth (Z.to_nat m') DAYS_IN_MONTH 0
                     + (if (m' =? 2) && leapyear then 1 else 0)) in
      (y, m', n - preceding' + 1)
    else (y, m, n - preceding + 1).

Definition library_error (c : exn_class) : exn := Exn c "".

Definition between (lo x hi : Z) : bool := (lo <=? x) && (x <=? hi).

(** The field checks of the [datetime] constructor. *)
Definition valid_fields (y m d hh mm ss us : Z) : bool :=
  between MINYEAR y MAXYEAR && between 1 m 12
  && between 1 d (days_in_month y m)
  && between 0 hh 23 && between 0 mm 59 && between 0 ss 59
  && between 0 us 999999.

Definition new_datetime (y m d hh mm ss us : Z) : result datetime :=
  if valid_fields y m d hh mm ss us
  then Ok {| year := y; month := m; day := d; hour := hh; minute := mm;
             second := ss; microsecond := us; tz := JST |}
  else Raise (library_error ValueError).

(** Two timestamps that carry the same [tzinfo] object are compared field
    by field, most significant first. *)
Definition thenc (c1 c2 : comparison) : comparison :=
  match c1 with
  | Eq => c2
  | _ => c1
  end.

Definition datetime_compare (a b : datetime) : comparison :=
  thenc (year a ?= year b)
  (thenc (month a ?= month b)
  (thenc (day a ?= day b)
  (thenc (hour a ?= hour b)
  (thenc (minute a ?= minute b)
  (thenc (second a ?= second b)
         (microsecond a ?= microsecond b)))))).

Definition datetime_le (a b : datetime) : bool :=
  match datetime_compare a b with
  | Gt => false
  | _ => true
  end.

Definition datetime_lt (a b : datetime) : bool :=
  match datetime_compare a b with
  | Lt => true
  | _ => false
  end.

Definition US_PER_SECOND : Z := 1000000.
Definition US_PER_HOUR : Z := 3600 * US_PER_SECOND.
Definition US_PER_DAY : Z := 24 * US_PER_HOUR.
Definition MAX_DELTA_DAYS : Z := 999999999.

(** Wall-clock microseconds since the start of day 0 of the proleptic
    calendar. *)
Definition to_microseconds (t : datetime) : Z :=
  ymd2ord (year t) (month t) (day t) * US_PER_DAY
  + hour t * US_PER_HOUR + minute t * (60 * US_PER_SECOND)
  + second t * US_PER_SECOND + microsecond t.

(** A [timedelta] is kept as its total number of microseconds; its
    constructor refuses more than 999999999 days either way. *)
Definition timedelta (us : Z) : result Z :=
  if between (- MAX_DELTA_DAYS) (us / US_PER_DAY) MAX_DELTA_DAYS
  then Ok us
  else Raise (library_error OverflowError).

Definition timedelta_hours (h : Z) : result Z := timedelta (h * US_PER_HOUR).

(** [t + delta]: the sum is rebuilt from its day ordinal and the time of
    day; a day outside 1..MAXORDINAL is an OverflowError. *)
Definition datetime_add (t : datetime) (delta : Z) : result datetime :=
  let total := to_microseconds t + delta in
  let days := total / US_PER_DAY in
  let rest := total mod US_PER_DAY in
  if (0 <? days) && (days <=? MAXORDINAL) then
    let '(y, m, d) := ord2ymd days in
    Ok {| year := y; month := m; day := d;
          hour := rest / US_PER_HOUR;
          minute := rest mod US_PER_HOUR / (60 * US_PER_SECOND);
          second := rest mod (60 * US_PER_SECOND) / US_PER_SECOND;
          microsecond := rest mod US_PER_SECOND;
          tz := tz t |}
  else Raise (library_error OverflowError).

(** [a - b] for two timestamps with the same [tzinfo]. *)
Definition datetime_sub (a b : datetime) : Z :=
  to_microseconds a - to_microseconds b.

(* ================================================================== *)
(** * [parse_due_date] *)
(* ================================================================== *)

Definition month_abbrs : list pystr :=
  map py ["jan"; "feb"; "mar"; "apr"; "may"; "jun"; "jul"; "aug"; "sep";
          "oct"; "nov"; "dec"]%string.

Fixpoint index_from (i : Z) (x : pystr) (l : list pystr) : option Z :=
  match l with
  | [] => None
  | y :: l' => if str_eqb x y then Some i else index_from (i + 1) x l'
  end.

Section DateParser.

Variable U : UnicodeData.

(** [int(s)] on the text of a [\d] group: a non-empty run of decimal
    digits, each read through its Unicode digit value. *)
Fixpoint int_digits (acc : Z) (s : pystr) : result Z :=
  match s with
  | [] => Ok acc
  | c :: s' =>
      match decimal_value U c with
      | Some v => int_digits (acc * 10 + v) s'
      | None => Raise (library_error ValueError)
      end
  end.

Definition int_of (s : pystr) : result Z :=
  match s with
  | [] => Raise (library_error ValueError)
  | _ => int_digits 0 s
  end.

(** [dt.datetime.strptime(s, "%b").month]: the abbreviated month names of
    the C locale, found through the lowercased text. *)
Definition strptime_b_month (s : pystr) : result Z :=
  match index_from 1 (lower U s) month_abbrs with
  | Some i => Ok i
  | None => Raise (library_error ValueError)
  end.

(** [m.groups()[n-1]]; every group of the two patterns takes part in
    every match (see [jp_groups_present], [en_groups_present]). *)
Definition group (g : groups) (n : nat) : pystr :=
  match g n with
  | Some s => s
  | None => []
  end.

Definition parse_due_date (text : pystr) : result (option datetime) :=
  match search U false jp_pattern text with
  | Some jp =>
      (y <-- int_of (group jp 1) ;;
       m <-- int_of (group jp 2) ;;
       d <-- int_of (group jp 3) ;;
       hh <-- int_of (group jp 4) ;;
       mm <-- int_of (group jp 5) ;;
       t <-- new_datetime y m d hh mm 0 0 ;;
       Ok (Some t))%res
  | None =>
      match search U true en_pattern text with
      | Some en =>
          let mon := group en 2 in
          let ampm := group en 6 in
          (month_idx <-- strptime_b_month (firstn 3 mon) ;;
           h <-- int_of (group en 4) ;;
           let hh := h mod 12
                     + (if str_eqb (lower U ampm) (py "pm") then 12 else 0) in
           y <-- int_of (group en 3) ;;
           d <-- int_of (group en 1) ;;
           mm <-- int_of (group en 5) ;;
           t <-- new_datetime y month_idx d hh mm 0 0 ;;
           Ok (Some t))%res
      | None => Ok None
      end
  end.

End DateParser.

(* ================================================================== *)
(** * The outside world: browser, key-ring, environment, clock, LINE *)
(* ================================================================== *)

Definition page := nat.   (* a Playwright page handle *)
Definition item := nat.   (* one locator of [.all()] *)

(** The selectors the script passes to Playwright. *)
Inductive selector : Type :=
| SelTimeline        (* [data-region="timeline"] *)
| SelTimelineItem    (* [data-region="timeline-item"] *)
| SelLoginLink       (* text=Log in *)
| SelUsername        (* input[name="j_username"], input[name="username"] *)
| SelPassword.       (* input[name="j_password"], input[name="password"] *)

Inductive load_state : Type := NetworkIdle | DomContentLoaded.

(** Outcome of a Playwright call: a value, or one of Playwright's two
    exceptions. *)
Inductive outcome (A : Type) : Type :=
| Done (a : A)
| Failed       (* playwright Error *)
| TimedOut.    (* playwright TimeoutError *)

Arguments Done {A} a.
Arguments Failed {A}.
Arguments TimedOut {A}.

(** The part of the Playwright API the script uses.  [B] is the state of
    the browser together with the site behind it; nothing is assumed of
    how it answers. *)
Class Browser (B : Type) : Type := {
  br_new_page : B -> outcome page * B;
  br_goto : page -> pystr -> B -> outcome unit * B;
  br_count : page -> selector -> B -> outcome Z * B;
  br_click_first : page -> selector -> B -> outcome unit * B;
  br_wait_for_load_state : page -> load_state -> B -> outcome unit * B;
  br_fill : page -> selector -> pystr -> B -> outcome unit * B;
  br_press : page -> string -> B -> outcome unit * B;
  br_content : page -> B -> outcome pystr * B;
  br_wait_for_selector : page -> selector -> B -> outcome unit * B;
  br_all : page -> selector -> B -> outcome (list item) * B;
  br_inner_text : page -> item -> B -> outcome pystr * B;
  br_href : page -> item -> B -> outcome (option pystr) * B;
  br_close : page -> B -> outcome unit * B
}.

(** One timeline entry: the dict with keys [label], [link], [due]. *)
Record task : Type := {
  label : pystr;
  link : option pystr;
  due : option datetime
}.

(** What the properties observe of a run. *)
Inductive event : Type :=
| EvNewPage (p : page)                  (* ctx.new_page() returned p *)
| EvGoto (p : page) (url : option pystr) (loaded : bool)  (* page.goto(url) *)
| EvClose (p : page)                    (* page.close() *)
| EvNotify (alerts : list task)         (* notify(alerts) was called *)
| EvPost (token msg : pystr)            (* requests.post to LINE Notify *)
| EvConsole (text : pystr).             (* console.print(text) was called *)

Record World (B : Type) : Type := {
  browser : B;
  keyring : string -> string -> option pystr;   (* service, key *)
  environ : string -> option pystr;             (* os.getenv *)
  clock : nat -> datetime;                      (* successive now() readings *)
  ticks : nat;
  line_api : pystr -> pystr -> result (Z * pystr);  (* token, message *)
  console_api : pystr -> result unit;           (* rich, on text with data *)
  log : list event
}.

Arguments browser {B} w.
Arguments keyring {B} w.
Arguments environ {B} w.
Arguments clock {B} w.
Arguments ticks {B} w.
Arguments line_api {B} w.
Arguments console_api {B} w.
Arguments log {B} w.

Definition SERVICE : string := "LETUS_CHECKER".
Definition DASHBOARD_URL : pystr := py "https://letus.ed.tus.ac.jp/my/".

Definition CREDENTIALS_NOT_STORED : exn :=
  Exn RuntimeError "Credentials not stored; run with --configure first.".

Definition LOGIN_FAILED : exn :=
  Exn RuntimeError "Login failed – check credentials/MFA.".

(** Truth value of an [Optional[str]]. *)
Definition truthy (o : option pystr) : bool :=
  match o with
  | Some (_ :: _) => true
  | _ => false
  end.

Definition value (o : option pystr) : pystr :=
  match o with
  | Some s => s
  | None => []
  end.

Definition nonempty {A} (l : list A) : bool :=
  match l with
  | [] => false
  | _ => true
  end.

(** ** The hours left, through a float

    [int((t["due"] - now).total_seconds() // 3600)]: [total_seconds] is
    the true division of the microseconds by 10**6, that is the double
    nearest to the quotient, and [//] then floors the quotient of that
    double by 3600.  A double is kept as a pair [(m, e)] standing for
    [m * 2^e], with [m] on 53 bits.  The difference of two timestamps is
    below 2^59 microseconds, far inside the exponent range of a double,
    and the multiple of 3600 next to such a double is itself a double, so
    that the floor division is exact. *)

(** [a / b] rounded to the nearest integer, ties to even; [0 < b]. *)
Definition div_round_even (a b : Z) : Z :=
  let q := a / b in
  let r := a mod b in
  if 2 * r <? b then q
  else if b <? 2 * r then q + 1
  else if Z.even q then q else q + 1.

(** [n / d] for two integers, [0 < d]: the nearest double. *)
Definition true_divide (n d : Z) : Z * Z :=
  if n =? 0 then (0, 0)
  else
    let a := Z.abs n in
    let l := Z.log2 a - Z.log2 d in
    let below := if 0 <=? l then a <? d * 2 ^ l else a * 2 ^ (- l) <? d in
    let e := (if below then l - 1 else l) - 52 in
    let m := if 0 <=? e then div_round_even a (d * 2 ^ e)
             else div_round_even (a * 2 ^ (- e)) d in
    (if 0 <? n then m else - m, e).

(** [x // k] for a double [x] and an integer [0 < k], as an integer. *)
Definition float_floordiv (x : Z * Z) (k : Z) : Z :=
  let (m, e) := x in
  if 0 <=? e then m * 2 ^ e / k else m / (k * 2 ^ (- e)).

(** [delta.total_seconds()] *)
Definition total_seconds (delta : Z) : Z * Z :=
  true_divide delta US_PER_SECOND.

Definition hours_left (d t0 : datetime) : Z :=
  float_floordiv (total_seconds (datetime_sub d t0)) 3600.

Fixpoint alert_lines (t0 : datetime) (alerts : list task)
  : result (list pystr) :=
  match alerts with
  | [] => Ok []
  | t :: rest =>
      match due t with
      | None => Raise (library_error TypeError)
      | Some d =>
          (lines <-- alert_lines t0 rest ;;
           Ok ((py "• " ++ label t ++ py " (あと "
                ++ str_of_int (hours_left d t0) ++ py "h)") :: lines))%res
      end
  end.

Definition header (alerts : list task) : pystr :=
  py "⚠ LETUS: 未提出課題 " ++ str_of_int (Z.of_nat (length alerts))
  ++ py " 件" ++ [10].

(** [task["due"] and task["due"] <= threshold] *)
Definition in_window (threshold : datetime) (t : task) : bool :=
  match due t with
  | Some d => datetime_le d threshold
  | None => false
  end.

Definition of_outcome {A} (o : outcome A) : result A :=
  match o with
  | Done a => Ok a
  | Failed => Raise (library_error PlaywrightError)
  | TimedOut => Raise (library_error PlaywrightTimeoutError)
  end.

Definition add_event {B} (e : event) (w : World B) : World B :=
  {| browser := browser w; keyring := keyring w; environ := environ w;
     clock := clock w; ticks := ticks w; line_api := line_api w;
     console_api := console_api w; log := log w ++ [e] |}.

Definition set_browser {B} (b : B) (w : World B) : World B :=
  {| browser := b; keyring := keyring w; environ := environ w;
     clock := clock w; ticks := ticks w; line_api := line_api w;
     console_api := console_api w; log := log w |}.

Definition tick {B} (w : World B) : World B :=
  {| browser := browser w; keyring := keyring w; environ := environ w;
     clock := clock w; ticks := S (ticks w); line_api := line_api w;
     console_api := console_api w; log := log w |}.

Section Program.

Context {B : Type} {BR : Browser B}.
Variable U : UnicodeData.

(** ** State and exception monad *)

Definition M (A : Type) : Type := World B -> result A * World B.

Definition ret {A} (a : A) : M A := fun w => (Ok a, w).

Definition raise {A} (e : exn) : M A := fun w => (Raise e, w).

Definition bind {A C} (c : M A) (f : A -> M C) : M C :=
  fun w =>
    match c w with
    | (Ok a, w') => f a w'
    | (Raise e, w') => (Raise e, w')
    end.

Notation "x <- c ;; k" := (bind c (fun x => k))
  (at level 61, c at next level, right associativity).
Notation "c ;;; k" := (bind c (fun _ => k))
  (at level 61, right associativity).

Definition lift {A} (r : result A) : M A := fun w => (r, w).

Definition emit (e : event) : M unit := fun w => (Ok tt, add_event e w).

(** Run one Playwright call against the browser state. *)
Definition call {A} (op : B -> outcome A * B) : M A :=
  fun w =>
    let '(o, b') := op (browser w) in (of_outcome o, set_browser b' w).

(** [dt.datetime.now(JST)] *)
Definition now : M datetime := fun w => (Ok (clock w (ticks w)), tick w).

Definition getenv (name : string) : M (option pystr) :=
  fun w => (Ok (environ w name), w).

Definition requests_post (token msg : pystr) : M (Z * pystr) :=
  emit (EvPost token msg) ;;;
  (fun w => (line_api w token msg, w)).

(** [console.print(text)].  [rich] reads its argument as markup: square
    brackets in it are tags, some of which it drops from what it prints,
    and a closing tag that closes nothing is a MarkupError.  For a text
    that carries data (a scraped label, the body of an answer) the outcome
    is the library's, given by [console_api]; the log keeps the argument
    of the call, not what reaches the terminal. *)
Definition console_print (text : pystr) : M unit :=
  emit (EvConsole text) ;;;
  (fun w => (console_api w text, w)).

(** [console.print] of one of the script's own texts: each is plain text
    or one tag, text without brackets and the closing tag of that tag,
    which [rich] renders without error. *)
Definition console_print_fixed (text : pystr) : M unit :=
  emit (EvConsole text).

(** ** Page operations *)

Definition new_page : M page :=
  p <- call br_new_page ;;
  emit (EvNewPage p) ;;;
  ret p.

(** [page.goto(url)].  A [None] url never reaches the site: Playwright
    rejects the call with its Error. *)
Definition page_goto (p : page) (url : option pystr) : M unit :=
  match url with
  | None =>
      emit (EvGoto p None false) ;;;
      raise (library_error PlaywrightError)
  | Some u =>
      fun w =>
        match call (br_goto p u) w with
        | (Ok _, w') => emit (EvGoto p url true) w'
        | (Raise e, w') => (emit (EvGoto p url false) ;;; raise e) w'
        end
  end.

(** [page.close()]; the API offers it, see [run]. *)
Definition page_close (p : page) : M unit :=
  call (br_close p) ;;;
  emit (EvClose p).

(** ** Helpers *)

Definition get_secret (key : string) : M (option pystr) :=
  fun w => (Ok (keyring w SERVICE key), w).

Definition notify (alerts : list task) : M unit :=
  emit (EvNotify alerts) ;;;
  e <- getenv "LINE_NOTIFY_TOKEN" ;;
  token <- (if truthy e then ret e else get_secret "LINE_TOKEN") ;;
  t0 <- now ;;
  lines <- lift (alert_lines t0 alerts) ;;
  let msg := join [10] (header alerts :: lines) in
  if truthy token then
    resp <- requests_post (value token) msg ;;
    if fst resp =? 200 then ret tt
    else console_print
           (py "[bold red]LINE Notify failed:[/bold red] " ++ snd resp)
  else console_print msg.

(** ** [LetusChecker] *)

Definition login : M page :=
  p <- new_page ;;
  page_goto p (Some DASHBOARD_URL) ;;;
  n <- call (br_count p SelTimeline) ;;
  if negb (n =? 0) then ret p   (* cached session *)
  else
    call (br_click_first p SelLoginLink) ;;;
    call (br_wait_for_load_state p NetworkIdle) ;;;
    u <- get_secret "USERNAME" ;;
    pw <- get_secret "PASSWORD" ;;
    if negb (truthy u) || negb (truthy pw) then raise CREDENTIALS_NOT_STORED
    else
      call (br_fill p SelUsername (value u)) ;;;
      call (br_fill p SelPassword (value pw)) ;;;
      call (br_press p "Enter") ;;;
      call (br_wait_for_load_state p NetworkIdle) ;;;
      html <- call (br_content p) ;;
      if contains (py "ログインエラー") html then raise LOGIN_FAILED
      else ret p.

(** [s.strip()] *)
Fixpoint lstrip (s : pystr) : pystr :=
  match s with
  | c :: s' => if isspace U c then lstrip s' else s
  | [] => []
  end.

Definition strip (s : pystr) : pystr := rev (lstrip (rev (lstrip s))).

Fixpoint fetch_items (p : page) (items : list item) : M (list task) :=
  match items with
  | [] => ret []
  | itm :: rest =>
      text <- call (br_inner_text p itm) ;;
      let lbl := strip text in
      href <- call (br_href p itm) ;;
      d <- lift (parse_due_date U lbl) ;;
      tasks <- fetch_items p rest ;;
      ret ({| label := lbl; link := href; due := d |} :: tasks)
  end.

Definition fetch_upcoming (p : page) : M (list task) :=
  page_goto p (Some DASHBOARD_URL) ;;;
  call (br_wait_for_selector p SelTimeline) ;;;
  items <- call (br_all p SelTimelineItem) ;;
  fetch_items p items.

Definition is_submitted (p : page) (lnk : option pystr) : M bool :=
  page_goto p lnk ;;;
  call (br_wait_for_load_state p DomContentLoaded) ;;;
  html <- call (br_content p) ;;
  ret (contains (py "提出済") html
       || contains (py "Submitted for grading") html).

(** The [for task in upcoming] loop; [alerts] is the list built so far. *)
Fixpoint classify (p : page) (threshold : datetime) (upcoming : list task)
         (alerts : list task) : M (list task) :=
  match upcoming with
  | [] => ret alerts
  | t :: rest =>
      if in_window threshold t then
        submitted <- is_submitted p (link t) ;;
        if negb submitted then classify p threshold rest (alerts ++ [t])
        else classify p threshold rest alerts
      else classify p threshold rest alerts
  end.

Definition run (due_within_h : Z) : M Z :=
  p <- login ;;
  upcoming <- fetch_upcoming p ;;
  t0 <- now ;;
  delta <- lift (timedelta_hours due_within_h) ;;
  threshold <- lift (datetime_add t0 delta) ;;
  alerts <- classify p threshold upcoming [] ;;
  (if nonempty alerts then notify alerts else ret tt) ;;;
  ret (Z.of_nat (length alerts)).

(** The first [n] rounds of the [--watch] loop of [main_async], without
    its sleep: one scan after the other, stopping at the first exception. *)
Fixpoint watch (n : nat) (due_within_h : Z) : M (list Z) :=
  match n with
  | O => ret []
  | S n' =>
      c <- run due_within_h ;;
      cs <- watch n' due_within_h ;;
      ret (c :: cs)
  end.

End Program.

Arguments M : clear implicits.

(* ================================================================== *)
(** * A simulated site

    A small stateful stand-in for the browser and the LETUS site, in the
    manner of the mocks of [tests/test_run_closes_page.py]; it instantiates
    [Browser] for the runs on concrete inputs. *)
(* ================================================================== *)

Module Sim.

Record site : Type := {
  pages_made : nat;
  closed : list page;
  logged_in : bool;                       (* the session cookie is valid *)
  accepts_login : bool;                   (* the site accepts the form *)
  timeline : list (pystr * option pystr); (* text and href of the items *)
  detail : pystr -> option pystr;         (* pages by URL, None: no load *)
  document : pystr                        (* content of the current page *)
}.

Definition with_document (doc : pystr) (s : site) : site :=
  {| pages_made := pages_made s; closed := closed s;
     logged_in := logged_in s; accepts_login := accepts_login s;
     timeline := timeline s; detail := detail s; document := doc |}.

Definition submit_form (s : site) : site :=
  {| pages_made := pages_made s; closed := closed s;
     logged_in := accepts_login s; accepts_login := accepts_login s;
     timeline := timeline s; detail := detail s;
     document := if accepts_login s then py "timeline"
                 else py "ログインエラー" |}.

Definition open_page (s : site) : site :=
  {| pages_made := S (pages_made s); closed := closed s;
     logged_in := logged_in s; accepts_login := accepts_login s;
     timeline := timeline s; detail := detail s; document := [] |}.

Definition close_page (p : page) (s : site) : site :=
  {| pages_made := pages_made s; closed := p :: closed s;
     logged_in := logged_in s; accepts_login := accepts_login s;
     timeline := timeline s; detail := detail s; document := document s |}.

Definition goto (u : pystr) (s : site) : outcome unit * site :=
  if str_eqb u DASHBOARD_URL
  then (Done tt,
        with_document (if logged_in s then py "timeline" else py "Log in") s)
  else match detail s u with
       | Some doc => (Done tt, with_document doc s)
       | None => (Failed, s)
       end.

#[global] Instance sim_browser : Browser site := {|
  br_new_page := fun s => (Done (pages_made s), open_page s);
  br_goto := fun _ u s => goto u s;
  br_count := fun _ _ s => (Done (if logged_in s then 1 else 0), s);
  br_click_first := fun _ _ s => (Done tt, s);
  br_wait_for_load_state := fun _ _ s => (Done tt, s);
  br_fill := fun _ _ _ s => (Done tt, s);
  br_press := fun _ _ s => (Done tt, submit_form s);
  br_content := fun _ s => (Done (document s), s);
  br_wait_for_selector :=
    fun _ _ s => (if logged_in s then Done tt else TimedOut, s);
  br_all := fun _ _ s => (Done (seq 0 (length (timeline s))), s);
  br_inner_text := fun _ i s => (Done (fst (nth i (timeline s) ([], None))), s);
  br_href := fun _ i s => (Done (snd (nth i (timeline s) ([], None))), s);
  br_close := fun p s => (Done tt, close_page p s)
|}.

Definition at_time (y m d hh mm ss us : Z) : datetime :=
  {| year := y; month := m; day := d; hour := hh; minute := mm;
     second := ss; microsecond := us; tz := JST |}.

(** A site with a cached session, a timeline and detail pages. *)
Definition cached (items : list (pystr * option pystr))
           (pages : pystr -> option pystr) : site :=
  {| pages_made := 0; closed := []; logged_in := true;
     accepts_login := true; timeline := items; detail := pages;
     document := [] |}.

(** A site that asks for the login form. *)
Definition fresh (accepts : bool) : site :=
  {| pages_made := 0; closed := []; logged_in := false;
     accepts_login := accepts; timeline := []; detail := fun _ => None;
     document := [] |}.

Definition world (s : site) (secrets : string -> option pystr)
           (env : string -> option pystr) (t0 : datetime) : World site :=
  {| browser := s; keyring := fun _ key => secrets key; environ := env;
     clock := fun _ => t0; ticks := 0;
     line_api := fun _ _ => Ok (200, []);
     console_api := fun _ => Ok tt; log := [] |}.

Definition no_secrets : string -> option pystr := fun _ => None.

Definition stored (u p : string) : string -> option pystr :=
  fun key =>
    if String.eqb key "USERNAME" then Some (py u)
    else if String.eqb key "PASSWORD" then Some (py p)
    else None.

Definition one_page (u : string) (doc : string) : pystr -> option pystr :=
  fun url => if str_eqb url (py u) then Some (py doc) else None.

End Sim.


(* ================================================================== *)
(** * What a pattern matches

    The declarative reading of the patterns: [Matches U ic r x g g'] says
    that [r] matches exactly the text [x], turning the capture groups [g]
    into [g']. *)
(* ================================================================== *)

Inductive Matches (U : UnicodeData) (ic : bool)
  : regex -> pystr -> groups -> groups -> Prop :=
| MEmpty : forall g, Matches U ic REmpty [] g g
| MLit : forall p c g,
    lit_match U ic p c = true -> Matches U ic (RLit p) [c] g g
| MSet : forall cs c g,
    in_cset U cs c = true -> Matches U ic (RSet cs) [c] g g
| MSeq : forall r1 r2 x1 x2 g g1 g2,
    Matches U ic r1 x1 g g1 -> Matches U ic r2 x2 g1 g2 ->
    Matches U ic (RSeq r1 r2) (x1 ++ x2) g g2
| MAltL : forall r1 r2 x g g',
    Matches U ic r1 x g g' -> Matches U ic (RAlt r1 r2) x g g'
| MAltR : forall r1 r2 x g g',
    Matches U ic r2 x g g' -> Matches U ic (RAlt r1 r2) x g g'
| MRepeat : forall cs lo hi greedy x g,
    forallb (in_cset U cs) x = true ->
    (lo <= length x)%nat ->
    match allowance lo hi with
    | Some a => (length x <= lo + a)%nat
    | None => True
    end ->
    Matches U ic (RRepeat cs lo hi greedy) x g g
| MGroup : forall n r x g g',
    Matches U ic r x g g' ->
    Matches U ic (RGroup n r) x g (set_group n x g').

(** [n] copies fit the allowance [m] of a repetition. *)
Definition within (m : option nat) (n : nat) : Prop :=
  match m with
  | Some a => (n <= a)%nat
  | None => True
  end.

Fixpoint has_group (r : regex) : bool :=
  match r with
  | RGroup _ _ => true
  | RSeq r1 r2 | RAlt r1 r2 => has_group r1 || has_group r2
  | _ => false
  end.

(** Every captured text satisfies [P]. *)
Definition groups_within (P : Z -> bool) (g : groups) : Prop :=
  forall n y, g n = Some y -> forallb P y = true.

Definition is_digit (U : UnicodeData) (c : Z) : bool := in_cset U CDigit c.

(** A timestamp on a whole minute, in JST. *)
Definition at_minute (y m d hh mm : Z) : datetime :=
  {| year := y; month := m; day := d; hour := hh; minute := mm;
     second := 0; microsecond := 0; tz := JST |}.

Definition ascii_digit (c : Z) : bool := (48 <=? c) && (c <=? 57).

(** ** Calendar vocabulary *)

(** The checks of the [datetime] constructor, on a timestamp. *)
Definition valid_datetime (t : datetime) : bool :=
  valid_fields (year t) (month t) (day t) (hour t) (minute t) (second t)
               (microsecond t).

Definition valid_date (y m d : Z) : Prop :=
  1 <= m <= 12 /\ 1 <= d <= days_in_month y m.

(** Microseconds since midnight. *)
Definition time_of_day (t : datetime) : Z :=
  hour t * US_PER_HOUR + minute t * (60 * US_PER_SECOND)
  + second t * US_PER_SECOND + microsecond t.

(** Month and day of the [n]-th day (from 0) of a year, as the tail of
    [ord2ymd] finds them. *)
Definition month_day (leapyear : bool) (n : Z) : Z * Z :=
  let m := Z.shiftr (n + 50) 5 in
  let preceding :=
    nth (Z.to_nat m) DAYS_BEFORE_MONTH 0
    + (if (2 <? m) && leapyear then 1 else 0) in
  if n <? preceding then
    let m' := m - 1 in
    let preceding' :=
      preceding - (nth (Z.to_nat m') DAYS_IN_MONTH 0
                   + (if (m' =? 2) && leapyear then 1 else 0)) in
    (m', n - preceding' + 1)
  else (m, n - preceding + 1).

Definition month_day_ok (leapyear : bool) (n : Z) : bool :=
  let '(m, d) := month_day leapyear n in
  (1 <=? m) && (m <=? 12) && (1 <=? d)
  && (d <=? (if (m =? 2) && leapyear then 29
             else nth (Z.to_nat m) DAYS_IN_MONTH 0))
  && (nth (Z.to_nat m) DAYS_BEFORE_MONTH 0
      + (if (2 <? m) && leapyear then 1 else 0) + d =? n + 1).

(** One or two ASCII digits. *)
Definition short_field (s : pystr) : bool :=
  match s with
  | [a] => ascii_digit a
  | [a; b] => ascii_digit a && ascii_digit b
  | _ => false
  end.

(** ** Rendering of the localized numeric-calendar form *)

Definition digit_char (v : Z) : Z := 48 + v.

Definition two_digits (n : Z) : pystr :=
  [digit_char (n / 10); digit_char (n mod 10)].

Definition short_digits (n : Z) : pystr :=
  if n <? 10 then [digit_char n] else two_digits n.

Definition four_digits (n : Z) : pystr :=
  [digit_char (n / 1000); digit_char (n / 100 mod 10);
   digit_char (n / 10 mod 10); digit_char (n mod 10)].

(** One or two digits: zero-padded when [pad] is set. *)
Definition field (pad : bool) (n : Z) : pystr :=
  if pad then two_digits n else short_digits n.

(** [YYYY年M月D日 H:MM]; the year on four digits, the minute on two, the
    month, day and hour on one or two. *)
Definition render_jp (pad_m pad_d pad_h : bool) (y m d hh mm : Z) : pystr :=
  four_digits y ++ [24180] ++ field pad_m m ++ [26376] ++ field pad_d d
  ++ [26085; 32] ++ field pad_h hh ++ [58] ++ two_digits mm.

(** ** The AM/PM marker, in any letter case *)

Definition is_pm_marker (s : pystr) : bool :=
  existsb (str_eqb s) (map py ["PM"; "Pm"; "pM"; "pm"]%string).

Definition is_am_marker (s : pystr) : bool :=
  existsb (str_eqb s) (map py ["AM"; "Am"; "aM"; "am"]%string).

(* ================================================================== *)
(** * Observations on a run *)
(* ================================================================== *)

Definition is_close (e : event) : bool :=
  match e with
  | EvClose _ => true
  | _ => false
  end.

Definition is_new_page (e : event) : bool :=
  match e with
  | EvNewPage _ => true
  | _ => false
  end.

Definition is_failed_goto (e : event) : bool :=
  match e with
  | EvGoto _ _ false => true
  | _ => false
  end.

(** Events of the browsing phase: pages opened and navigations. *)
Definition is_browse (e : event) : bool :=
  match e with
  | EvNewPage _ | EvGoto _ _ _ => true
  | _ => false
  end.

(** Events by which a notification leaves the program. *)
Definition is_delivery (e : event) : bool :=
  match e with
  | EvPost _ _ | EvConsole _ => true
  | _ => false
  end.

Definition is_post (e : event) : bool :=
  match e with
  | EvPost _ _ => true
  | _ => false
  end.

(** The argument of every call of [notify], in order. *)
Fixpoint notify_calls (d : list event) : list (list task) :=
  match d with
  | [] => []
  | EvNotify a :: d' => a :: notify_calls d'
  | _ :: d' => notify_calls d'
  end.

(** The urls handed to [page.goto], in order. *)
Fixpoint gotos (d : list event) : list (option pystr) :=
  match d with
  | [] => []
  | EvGoto _ u _ :: d' => u :: gotos d'
  | _ :: d' => gotos d'
  end.

Definition opens (d : list event) : nat := length (filter is_new_page d).
Definition closes (d : list event) : nat := length (filter is_close d).

(** The exceptions of a navigation that did not load. *)
Definition nav_error (e : exn) : bool :=
  match exn_cls e with
  | PlaywrightError | PlaywrightTimeoutError => true
  | _ => false
  end.

Definition has_due (t : task) : bool :=
  match due t with
  | Some _ => true
  | None => false
  end.

Definition credentials_missing {B} (w : World B) : bool :=
  negb (truthy (keyring w SERVICE "USERNAME"))
  || negb (truthy (keyring w SERVICE "PASSWORD")).

Section TraceSpecs.

Context {B : Type} {BR : Browser B}.

(** A computation of the browsing phase: it logs only browse events,
    ends normally only if every navigation loaded, and when a
    navigation did not load it ends with that navigation's exception. *)
Definition browses {A} (c : M B A) : Prop :=
  forall w r w', c w = (r, w') ->
    exists d, log w' = log w ++ d /\
              forallb is_browse d = true /\
              match r with
              | Ok _ => existsb is_failed_goto d = false
              | Raise e => existsb is_failed_goto d = true ->
                           nav_error e = true
              end.

(** The scan up to the end of the classification loop: the timeline
    entries, the threshold and the at-risk entries. *)
Definition scan_entries (U : UnicodeData) (due_within_h : Z)
  : M B (list task * datetime * list task) :=
  bind login (fun p =>
  bind (fetch_upcoming U p) (fun upcoming =>
  bind now (fun t0 =>
  bind (lift (timedelta_hours due_within_h)) (fun delta =>
  bind (lift (datetime_add t0 delta)) (fun threshold =>
  bind (classify p threshold upcoming []) (fun alerts =>
  ret (upcoming, threshold, alerts))))))).

Definition deliver (alerts : list task) : M B Z :=
  bind (if nonempty alerts then notify alerts else ret tt)
       (fun _ => ret (Z.of_nat (length alerts))).

(** ** The at-risk entries as the contract words them

    The entries with a due date not later than the clock reading plus
    the window, times counted in elapsed microseconds, are submitted to
    the classifier in timeline order; those it answers "not submitted"
    are at risk. *)

Definition within_window (t0 : datetime) (hours : Z) (t : task) : bool :=
  match due t with
  | Some d => to_microseconds d <=? to_microseconds t0 + hours * US_PER_HOUR
  | None => false
  end.

(** [is_submitted] on each entry in turn: its answers. *)
Fixpoint submission_checks (p : page) (ts : list task) : M B (list bool) :=
  match ts with
  | [] => ret []
  | t :: rest =>
      bind (is_submitted p (link t)) (fun answer =>
      bind (submission_checks p rest) (fun answers =>
      ret (answer :: answers)))
  end.

(** The entries whose answer is "not submitted". *)
Fixpoint unsubmitted (ts : list task) (answers : list bool) : list task :=
  match ts, answers with
  | t :: ts', a :: answers' =>
      if a then unsubmitted ts' answers' else t :: unsubmitted ts' answers'
  | _, _ => []
  end.

Definition at_risk_by_contract (p : page) (t0 : datetime) (hours : Z)
           (upcoming : list task) : M B (list task) :=
  let candidates := filter (within_window t0 hours) upcoming in
  bind (submission_checks p candidates) (fun answers =>
  ret (unsubmitted candidates answers)).

End TraceSpecs.

(** The token as the notifier's contract words it: the environment
    variable wins when it holds a non-empty value, the stored secret is
    used otherwise. *)
Definition token_by_contract (env stored : option pystr) : option pystr :=
  match env with
  | Some (c :: s) => Some (c :: s)
  | _ => stored
  end.

(* ================================================================== *)
(** * Concrete scans on the simulated site *)
(* ================================================================== *)

Module Scenario.

Import Sim.

Definition t_now : datetime := at_time 2025 8 4 10 0 0 0.

Definition no_env : string -> option pystr := fun _ => None.

Definition not_submitted_page : string := "<p>Submission status: none</p>".

(** One entry due in 35 hours, not submitted (the end-to-end scenario). *)
Definition w_report : World site :=
  world (cached [(py "Report due 2025年8月5日 21:00", Some (py "a1"))]
                (one_page "a1" not_submitted_page))
        no_secrets no_env t_now.

(** The scenario of [tests/test_run_closes_page.py]: one entry due in
    one hour, link "dummy", not submitted, scanned with [run(2)]. *)
Definition w_test : World site :=
  world (cached [(py "dummy 2025年8月4日 11:00", Some (py "dummy"))]
                (one_page "dummy" ""))
        no_secrets no_env t_now.

Definition pages (url : pystr) : option pystr :=
  if str_eqb url (py "a1") then Some (py not_submitted_page)
  else if str_eqb url (py "a2") then Some (py "<p>提出済</p>")
  else if str_eqb url (py "a3") then Some (py not_submitted_page)
  else if str_eqb url (py "a4") then Some (py not_submitted_page)
  else None.

(** Two at-risk entries, one submitted, one without a date, one past
    the window. *)
Definition w_mixed : World site :=
  world (cached [(py "Essay 2025年8月5日 9:00", Some (py "a1"));
                 (py "Quiz 5 August 2025 at 9:15 PM", Some (py "a2"));
                 (py "Reading list", Some (py "a4"));
                 (py "Lab 2025年8月6日 10:00", Some (py "a3"));
                 (py "Exam 2025年8月6日 10:01", Some (py "a4"))]
                pages)
        no_secrets no_env t_now.

(** An in-window entry whose item has no href. *)
Definition w_null_link : World site :=
  world (cached [(py "Report due 2025年8月5日 21:00", None)]
                (fun _ => None))
        no_secrets no_env t_now.

(** An in-window entry whose page does not load. *)
Definition w_dead_link : World site :=
  world (cached [(py "Report due 2025年8月5日 21:00", Some (py "gone"))]
                (fun _ => None))
        no_secrets no_env t_now.

(** A timeline entry whose label names month 13. *)
Definition w_month_13 : World site :=
  world (cached [(py "Report due 2024年13月5日 15:30", Some (py "a1"))]
                (one_page "a1" not_submitted_page))
        no_secrets no_env t_now.

(** No session and nothing in the key-ring. *)
Definition w_missing : World site :=
  world (fresh false) no_secrets no_env t_now.

(** No session, stored credentials, the site rejects them. *)
Definition w_rejected : World site :=
  world (fresh false) (stored "7400000" "wrong") no_env t_now.

Definition an_alert : task :=
  {| label := py "Report"; link := Some (py "a1");
     due := Some (at_time 2025 8 5 21 0 0 0) |}.

Definition token_store (key : string) : option pystr :=
  if String.eqb key "LINE_TOKEN" then Some (py "stored-token") else None.

(** LINE_NOTIFY_TOKEN set to the empty string, a stored LINE_TOKEN. *)
Definition w_empty_env : World site :=
  world (fresh false) token_store
        (fun name => if String.eqb name "LINE_NOTIFY_TOKEN"
                     then Some [] else None)
        t_now.

(** Neither the variable nor the secret. *)
Definition w_no_token : World site :=
  world (fresh false) no_secrets no_env t_now.

End Scenario.

(* ================================================================== *)
(** * The command-line side: [save_secret], [configure], the watch loop *)
(* ================================================================== *)

(** [keyring.set_password(service, key, v)] *)
Definition set_keyring {B} (service key : string) (v : pystr) (w : World B)
  : World B :=
  {| browser := browser w;
     keyring := fun s k =>
                  if String.eqb s service && String.eqb k key then Some v
                  else keyring w s k;
     environ := environ w; clock := clock w; ticks := ticks w;
     line_api := line_api w; console_api := console_api w;
     log := log w |}.

Section CommandLine.

Context {B : Type} {BR : Browser B}.
Variable U : UnicodeData.

Definition save_secret (key : string) (v : pystr) : M B unit :=
  fun w => (Ok tt, set_keyring SERVICE key v w).

(** [configure]; [u], [p] and [token] are the three lines that [input]
    reads from the operator (its prompts go to standard output and are not
    part of the log). *)
Definition configure (u p token : pystr) : M B unit :=
  bind (console_print_fixed (py "[bold]LETUS Checker: 初期設定[/bold]"))
       (fun _ =>
  bind (save_secret "USERNAME" u) (fun _ =>
  bind (save_secret "PASSWORD" p) (fun _ =>
  bind (if nonempty token then save_secret "LINE_TOKEN" token else ret tt)
       (fun _ =>
  console_print_fixed (py "[green]保存しました。[/green]"))))).

(** The body of the [while True] loop of [main_async], [n] times; the
    sleep between two rounds changes nothing of the modelled world. *)
Fixpoint watch_rounds (n : nat) (quiet : bool) (due_within : Z) : M B unit :=
  match n with
  | O => ret tt
  | S n' =>
      bind (run U due_within) (fun count =>
      bind (if negb quiet && (count =? 0)
            then console_print_fixed (py "[dim]No deadlines soon.[/dim]")
            else ret tt) (fun _ =>
      watch_rounds n' quiet due_within))
  end.

(** The [if args.watch] branch of [main_async], cut after [n] rounds. *)
Definition main_watch (n : nat) (watch_min : Z) (quiet : bool)
           (due_within : Z) : M B unit :=
  bind (console_print_fixed (py "Watching LETUS every "
                             ++ str_of_int watch_min
                             ++ py " min… (Ctrl+C で停止)")) (fun _ =>
  watch_rounds n quiet due_within).

End CommandLine.

(* ================================================================== *)
(** * Vocabulary of the further properties *)
(* ================================================================== *)

(** [l1] is [l2] with some elements left out, the order kept. *)
Inductive subseq {A : Type} : list A -> list A -> Prop :=
| subseq_nil : subseq [] []
| subseq_skip : forall x l1 l2, subseq l1 l2 -> subseq l1 (x :: l2)
| subseq_keep : forall x l1 l2, subseq l1 l2 -> subseq (x :: l1) (x :: l2).

(** A computation that leaves the key-ring, the environment, the clock
    function and the LINE endpoint as they are, and never sets the tick
    counter back. *)
Definition frames {B A} (c : M B A) : Prop :=
  forall w r w', c w = (r, w') ->
    keyring w' = keyring w /\ environ w' = environ w /\
    clock w' = clock w /\ line_api w' = line_api w /\
    (ticks w <= ticks w')%nat.

(** A computation of the browsing phase that opens no page: it logs
    navigations only. *)
Definition is_goto (e : event) : bool :=
  match e with
  | EvGoto _ _ _ => true
  | _ => false
  end.

Definition navigates {B A} (c : M B A) : Prop :=
  forall w r w', c w = (r, w') ->
    exists d, log w' = log w ++ d /\ forallb is_goto d = true.

(** Events that neither open nor close a page. *)
Definition no_page_event (e : event) : bool :=
  negb (is_new_page e || is_close e).

(** A computation all of whose log entries satisfy [P]. *)
Definition logging {B A} (P : event -> bool) (c : M B A) : Prop :=
  forall w r w', c w = (r, w') ->
    exists d, log w' = log w ++ d /\ forallb P d = true.

(** No whitespace at either end. *)
Definition trimmed (U : UnicodeData) (s : pystr) : Prop :=
  match s with
  | [] => True
  | c :: _ => isspace U c = false
  end /\
  match rev s with
  | [] => True
  | c :: _ => isspace U c = false
  end.

(** [reads_timeline U p b items ts b']: from the browser state [b],
    reading the items in turn (inner text, then href) makes the entries
    [ts], one for every item, and leaves the browser in [b'].  The label
    of an entry is the stripped inner text, its link the href, its due
    date what [parse_due_date] makes of the label. *)
Inductive reads_timeline {B} {BR : Browser B} (U : UnicodeData) (p : page)
  : B -> list item -> list task -> B -> Prop :=
| reads_none : forall b, reads_timeline U p b [] [] b
| reads_item : forall b itm text b1 href b2 d items ts b3,
    br_inner_text p itm b = (Done text, b1) ->
    br_href p itm b1 = (Done href, b2) ->
    parse_due_date U (strip U text) = Ok d ->
    reads_timeline U p b2 items ts b3 ->
    reads_timeline U p b (itm :: items)
      ({| label := strip U text; link := href; due := d |} :: ts) b3.

(** ** Rendering of the English long form *)

Definition month_name (m : Z) : pystr :=
  nth (Z.to_nat (m - 1)) month_names [].

(** [D Month YYYY<mid>H:MM <marker>]: the day and the hour on one or two
    digits, [mid] the text between the year and the time. *)
Definition render_en (pad_d pad_h : bool) (y m d h mm : Z)
           (mid marker : pystr) : pystr :=
  field pad_d d ++ [32] ++ month_name m ++ [32] ++ four_digits y ++ mid
  ++ field pad_h h ++ [58] ++ two_digits mm ++ [32] ++ marker.

(** ** Further vocabulary of the scan *)

(** Events that keep to page [p]: navigations of [p], and everything that
    is neither a navigation nor the opening or closing of a page. *)
Definition stays_on (p : page) (e : event) : bool :=
  match e with
  | EvGoto q _ _ => Nat.eqb q p
  | EvNewPage _ | EvClose _ => false
  | _ => true
  end.

(** The world with another LINE endpoint, and with another environment. *)
Definition set_line_api {B} (api : pystr -> pystr -> result (Z * pystr))
           (w : World B) : World B :=
  {| browser := browser w; keyring := keyring w; environ := environ w;
     clock := clock w; ticks := ticks w; line_api := api;
     console_api := console_api w; log := log w |}.

Definition set_console_api {B} (api : pystr -> result unit) (w : World B)
  : World B :=
  {| browser := browser w; keyring := keyring w; environ := environ w;
     clock := clock w; ticks := ticks w; line_api := line_api w;
     console_api := api; log := log w |}.

Definition set_environ {B} (env : string -> option pystr) (w : World B)
  : World B :=
  {| browser := browser w; keyring := keyring w; environ := env;
     clock := clock w; ticks := ticks w; line_api := line_api w;
     console_api := console_api w; log := log w |}.

(** The message that [notify] builds from the alerts and the clock
    reading [t0]. *)
Definition message (alerts : list task) (lines : list pystr) : pystr :=
  join [10] (header alerts :: lines).

Definition LINE_FAILED : pystr :=
  py "[bold red]LINE Notify failed:[/bold red] ".

Module Cases.

(** LINE_NOTIFY_TOKEN is set and the endpoint answers 401. *)
Definition token_env (name : string) : option pystr :=
  if String.eqb name "LINE_NOTIFY_TOKEN" then Some (py "tok") else None.

Definition w_line_rejects : World Sim.site :=
  set_line_api (fun _ _ => Ok (401, py "Invalid access token"))
    (set_environ token_env Scenario.w_test).

(** The endpoint cannot be reached: [requests.post] raises. *)
Definition w_line_down : World Sim.site :=
  set_line_api (fun _ _ => Raise (library_error RequestException))
    (set_environ token_env Scenario.w_test).

(** A timeline entry whose text comes with blanks and a line break around
    it. *)
Definition w_padded : World Sim.site :=
  Sim.world (Sim.cached [(32 :: 32 :: py "Essay 2025年8月5日 9:00" ++ [32; 10],
                          Some (py "a1"))]
                        (Sim.one_page "a1" Scenario.not_submitted_page))
            Sim.no_secrets Scenario.no_env Scenario.t_now.

Definition essay : task :=
  {| label := py "Essay 2025年8月5日 9:00"; link := Some (py "a1");
     due := Some (at_minute 2025 8 5 9 0) |}.

(** The timeline of [Scenario.w_mixed] as [fetch_upcoming] returns it. *)
Definition mixed_upcoming : list task :=
  [ {| label := py "Essay 2025年8月5日 9:00"; link := Some (py "a1");
       due := Some (at_minute 2025 8 5 9 0) |};
    {| label := py "Quiz 5 August 2025 at 9:15 PM"; link := Some (py "a2");
       due := Some (at_minute 2025 8 5 21 15) |};
    {| label := py "Reading list"; link := Some (py "a4"); due := None |};
    {| label := py "Lab 2025年8月6日 10:00"; link := Some (py "a3");
       due := Some (at_minute 2025 8 6 10 0) |};
    {| label := py "Exam 2025年8月6日 10:01"; link := Some (py "a4");
       due := Some (at_minute 2025 8 6 10 1) |} ].

(** The entry of [Scenario.w_test] as [fetch_upcoming] returns it. *)
Definition dummy : task :=
  {| label := py "dummy 2025年8月4日 11:00"; link := Some (py "dummy");
     due := Some (at_minute 2025 8 4 11 0) |}.

(** An entry whose page says that the work is not submitted, in words
    that hold the marker. *)
Definition w_not_yet : World Sim.site :=
  Sim.world (Sim.cached [(py "Essay 2025年8月5日 9:00", Some (py "a5"))]
                        (Sim.one_page "a5"
                           "<p>Not Submitted for grading</p>"))
            Sim.no_secrets Scenario.no_env Scenario.t_now.

(** The endpoint answers 401 with a body that holds a closing tag, on
    which [rich] raises. *)
Definition w_line_markup : World Sim.site :=
  set_console_api (fun _ => Raise (library_error MarkupError))
    (set_line_api (fun _ _ => Ok (401, py "[/b] Invalid access token"))
       (set_environ token_env Scenario.w_test)).

(** The stored token, no variable; the endpoint answers 401. *)
Definition w_stored_rejects : World Sim.site :=
  set_line_api (fun _ _ => Ok (401, py "Invalid access token"))
    (set_keyring SERVICE "LINE_TOKEN" (py "tok") Scenario.w_test).

(** A timeline with an entry long overdue and one due in 35 hours. *)
Definition w_overdue : World Sim.site :=
  Sim.world (Sim.cached [(py "Old report 2019年4月1日 9:00", Some (py "a1"));
                         (py "Report due 2025年8月5日 21:00", Some (py "a3"))]
                        Scenario.pages)
            Sim.no_secrets Scenario.no_env Scenario.t_now.

Definition overdue_upcoming : list task :=
  [ {| label := py "Old report 2019年4月1日 9:00"; link := Some (py "a1");
       due := Some (at_minute 2019 4 1 9 0) |};
    {| label := py "Report due 2025年8月5日 21:00"; link := Some (py "a3");
       due := Some (at_minute 2025 8 5 21 0) |} ].

(** The world of a scenario after the login and the reading of the
    timeline, and after the at-risk evaluation. *)
Definition fetched (w : World Sim.site) : World Sim.site :=
  snd (fetch_upcoming ascii_ucd 0%nat (snd (login w))).

Definition evaluated (h : Z) (ups : list task) (w : World Sim.site)
  : World Sim.site :=
  snd (at_risk_by_contract 0%nat Scenario.t_now h ups (tick (fetched w))).

Definition no_date : task :=
  {| label := py "Reading list"; link := Some (py "a4"); due := None |}.

End Cases.

(* ================================================================== *)
(** * The matcher against the declarative reading *)
(* ================================================================== *)

Lemma ascii_ucd_ok : ucd_ok ascii_ucd.
Proof.
constructor; simpl.
- reflexivity.
- intros c v. unfold ascii_decimal.
  destruct ((48 <=? c) && (c <=? 57)) eqn:E; [| discriminate].
  intros H. inversion H; subst. lia.
- reflexivity.
- reflexivity.
- intros p c Hp H. unfold ascii_ignorecase_eq in H. apply Z.eqb_eq in H.
  destruct Hp as [<- | [<- | [<- | []]]];
    [change (ascii_lower_char 65) with 97 in H
    | change (ascii_lower_char 77) with 109 in H
    | change (ascii_lower_char 80) with 112 in H];
    unfold ascii_lower_char in H;
    destruct ((65 <=? c) && (c <=? 90)); lia.
- reflexivity.
Qed.

Section MatcherSound.

Variable U : UnicodeData.
Variable ic : bool.

Lemma consumed_app (x s' : pystr) : consumed (x ++ s') s' = x.
Proof.
unfold consumed. rewrite length_app.
replace (length x + length s' - length s')%nat with (length x) by lia.
rewrite firstn_app, Nat.sub_diag, firstn_all. simpl. apply app_nil_r.
Qed.

Lemma rep_min_sound cs n : forall s k res,
  rep_min U cs n s k = Some res ->
  exists x s', s = x ++ s' /\ length x = n /\
               forallb (in_cset U cs) x = true /\ k s' = Some res.
Proof.
induction n as [| n IH]; intros s k res H; simpl in H.
- exists [], s. auto.
- destruct s as [| c s]; [discriminate |].
  destruct (in_cset U cs c) eqn:E; [| discriminate].
  apply IH in H. destruct H as [x [s' [-> [L [F K]]]]].
  exists (c :: x), s'. simpl. rewrite E, F, L. auto.
Qed.

Lemma within_more m m' n : more_left m = Some m' -> within m' n -> within m (S n).
Proof.
destruct m as [[| a] |]; simpl; intros H; inversion H; subst; simpl; lia.
Qed.

Lemma within_zero m : within m 0.
Proof. destruct m; simpl; lia. Qed.

Lemma rep_greedy_sound cs : forall s m k res,
  rep_greedy U cs m s k = Some res ->
  exists x s', s = x ++ s' /\ within m (length x) /\
               forallb (in_cset U cs) x = true /\ k s' = Some res.
Proof.
induction s as [| c s IH]; intros m k res H; simpl in H.
- exists [], []. split; [reflexivity |]. split; [apply within_zero |].
  split; [reflexivity |]. destruct (more_left m); exact H.
- destruct (more_left m) as [m' |] eqn:Em;
    [| exists [], (c :: s); repeat split; [apply within_zero | exact H]].
  destruct (in_cset U cs c) eqn:E;
    [| exists [], (c :: s); repeat split; [apply within_zero | exact H]].
  destruct (rep_greedy U cs m' s k) as [r1 |] eqn:Eg.
  + inversion H; subst. apply IH in Eg.
    destruct Eg as [x [s' [-> [W [F K]]]]].
    exists (c :: x), s'. simpl. rewrite E, F.
    repeat split; [eapply within_more; eassumption | exact K].
  + exists [], (c :: s). repeat split; [apply within_zero | exact H].
Qed.

Lemma rep_lazy_sound cs : forall s m k res,
  rep_lazy U cs m s k = Some res ->
  exists x s', s = x ++ s' /\ within m (length x) /\
               forallb (in_cset U cs) x = true /\ k s' = Some res.
Proof.
induction s as [| c s IH]; intros m k res H; simpl in H.
- exists [], []. split; [reflexivity |]. split; [apply within_zero |].
  split; [reflexivity |]. destruct (k []); [exact H | discriminate].
- destruct (k (c :: s)) as [r1 |] eqn:Ek.
  + inversion H; subst. exists [], (c :: s).
    repeat split; [apply within_zero | exact Ek].
  + destruct (more_left m) as [m' |] eqn:Em; [| discriminate].
    destruct (in_cset U cs c) eqn:E; [| discriminate].
    apply IH in H. destruct H as [x [s' [-> [W [F K]]]]].
    exists (c :: x), s'. simpl. rewrite E, F.
    repeat split; [eapply within_more; eassumption | exact K].
Qed.

(** A successful run of the matcher splits the subject into the text the
    pattern matched and the rest handed to the continuation. *)
Lemma matchk_sound r : forall s g k res,
  matchk U ic r s g k = Some res ->
  exists x s' g', s = x ++ s' /\ Matches U ic r x g g' /\
                  k s' g' = Some res.
Proof.
induction r as [| p | cs | r1 IH1 r2 IH2 | r1 IH1 r2 IH2
                | cs lo hi gr | n r IH]; intros s g k res H; simpl in H.
- exists [], s, g. repeat split; [constructor | exact H].
- destruct s as [| c s]; [discriminate |].
  destruct (lit_match U ic p c) eqn:E; [| discriminate].
  exists [c], s, g. repeat split; [constructor; exact E | exact H].
- destruct s as [| c s]; [discriminate |].
  destruct (in_cset U cs c) eqn:E; [| discriminate].
  exists [c], s, g. repeat split; [constructor; exact E | exact H].
- apply IH1 in H. destruct H as [x1 [s1 [g1 [-> [M1 H]]]]].
  apply IH2 in H. destruct H as [x2 [s2 [g2 [-> [M2 H]]]]].
  exists (x1 ++ x2), s2, g2. rewrite app_assoc.
  repeat split; [econstructor; eassumption | exact H].
- destruct (matchk U ic r1 s g k) as [r' |] eqn:E1.
  + inversion H; subst. apply IH1 in E1.
    destruct E1 as [x [s' [g' [-> [M K]]]]].
    exists x, s', g'. repeat split; [apply MAltL; exact M | exact K].
  + apply IH2 in H. destruct H as [x [s' [g' [-> [M K]]]]].
    exists x, s', g'. repeat split; [apply MAltR; exact M | exact K].
- apply rep_min_sound in H. destruct H as [x1 [s1 [-> [L1 [F1 H]]]]].
  assert (X : exists x s', s1 = x ++ s' /\ within (allowance lo hi) (length x)
                           /\ forallb (in_cset U cs) x = true
                           /\ k s' g = Some res)
    by (destruct gr; [apply rep_greedy_sound in H | apply rep_lazy_sound in H];
        exact H).
  destruct X as [x2 [s2 [-> [W [F2 K]]]]].
  exists (x1 ++ x2), s2, g. rewrite app_assoc.
  repeat split; [| exact K].
  constructor.
  + rewrite forallb_app, F1, F2. reflexivity.
  + rewrite length_app. lia.
  + rewrite length_app. unfold within in W.
    destruct (allowance lo hi); [lia | exact I].
- apply IH in H. destruct H as [x [s' [g' [-> [M K]]]]].
  rewrite consumed_app in K.
  exists x, s', (set_group n x g'). repeat split; [constructor; exact M | exact K].
Qed.

Lemma match_here_sound r s res :
  match_here U ic r s = Some res ->
  exists x s', s = x ++ s' /\ Matches U ic r x no_groups res.
Proof.
unfold match_here. intros H. apply matchk_sound in H.
destruct H as [x [s' [g' [-> [M K]]]]]. inversion K; subst. eauto.
Qed.

Lemma search_sound r : forall s res,
  search U ic r s = Some res ->
  exists pre x suf, s = pre ++ x ++ suf /\ Matches U ic r x no_groups res.
Proof.
induction s as [| c s IH]; intros res H; simpl in H.
- destruct (match_here U ic r []) as [g |] eqn:E; [| discriminate].
  inversion H; subst. apply match_here_sound in E.
  destruct E as [x [s' [-> M]]]. exists [], x, s'. auto.
- destruct (match_here U ic r (c :: s)) as [g |] eqn:E.
  + inversion H; subst. apply match_here_sound in E.
    destruct E as [x [s' [-> M]]]. exists [], x, s'. auto.
  + apply IH in H. destruct H as [pre [x [suf [-> M]]]].
    exists (c :: pre), x, suf. auto.
Qed.

(** The captures are pieces of the matched text. *)
Lemma Matches_groups_within P r x g g' :
  Matches U ic r x g g' ->
  forallb P x = true -> groups_within P g -> groups_within P g'.
Proof.
induction 1; intros Hx Hg; auto.
- rewrite forallb_app in Hx. apply andb_true_iff in Hx.
  destruct Hx as [Hx1 Hx2]. auto.
- intros i y. unfold set_group. destruct (Nat.eqb i n).
  + intros E. inversion E; subst. exact Hx.
  + apply IHMatches; assumption.
Qed.

Lemma Matches_no_group r x g g' :
  Matches U ic r x g g' -> has_group r = false -> g' = g.
Proof.
induction 1; simpl; intros Hn; auto; try discriminate.
- apply orb_false_iff in Hn. destruct Hn as [H1 H2].
  rewrite IHMatches2, IHMatches1; auto.
- apply orb_false_iff in Hn. destruct Hn as [H1 H2]. auto.
- apply orb_false_iff in Hn. destruct Hn as [H1 H2]. auto.
Qed.

Lemma search_groups_within P r s res :
  search U ic r s = Some res -> forallb P s = true -> groups_within P res.
Proof.
intros H Hs. apply search_sound in H.
destruct H as [pre [x [suf [-> M]]]].
rewrite !forallb_app in Hs. apply andb_true_iff in Hs.
destruct Hs as [_ Hs]. apply andb_true_iff in Hs. destruct Hs as [Hx _].
eapply Matches_groups_within; [exact M | exact Hx |].
intros n y E. discriminate.
Qed.

(** Inversions, one pattern constructor at a time. *)
Lemma Matches_seq_inv r1 r2 x g g2 :
  Matches U ic (RSeq r1 r2) x g g2 ->
  exists x1 x2 g1, x = x1 ++ x2 /\ Matches U ic r1 x1 g g1 /\
                   Matches U ic r2 x2 g1 g2.
Proof. intros H. inversion H; subst. eauto 7. Qed.

Lemma Matches_group_inv n r x g g' :
  Matches U ic (RGroup n r) x g g' ->
  exists g1, Matches U ic r x g g1 /\ g' = set_group n x g1.
Proof. intros H. inversion H; subst. eauto. Qed.

Lemma Matches_digits_inv lo hi x g g' :
  Matches U ic (digits lo hi) x g g' ->
  g' = g /\ forallb (is_digit U) x = true /\
  (lo <= length x <= lo + (hi - lo))%nat.
Proof.
unfold digits. intros H. inversion H; subst. simpl in *.
repeat split; auto; lia.
Qed.

Lemma Matches_repeat_inv cs lo hi gr x g g' :
  Matches U ic (RRepeat cs lo hi gr) x g g' -> g' = g.
Proof. intros H. inversion H; subst. reflexivity. Qed.

Lemma Matches_lit_inv p x g g' :
  Matches U ic (RLit p) x g g' ->
  g' = g /\ exists c, x = [c] /\ lit_match U ic p c = true.
Proof. intros H. inversion H; subst. eauto. Qed.

Lemma Matches_empty_inv x g g' :
  Matches U ic REmpty x g g' -> g' = g /\ x = [].
Proof. intros H. inversion H; subst. auto. Qed.

End MatcherSound.

(* ================================================================== *)
(** * Independence from the character database on basic text *)
(* ================================================================== *)

Section Agreement.

Variable U : UnicodeData.
Hypothesis HU : ucd_ok U.

Lemma in_cset_agree cs c :
  basic c = true -> in_cset U cs c = in_cset ascii_ucd cs c.
Proof.
intros Hc. destruct cs; simpl.
- rewrite (ok_decimal HU _ Hc). reflexivity.
- apply (ok_space HU _ Hc).
- reflexivity.
Qed.

Lemma lit_match_agree ic p c :
  basic c = true -> lit_match U ic p c = lit_match ascii_ucd ic p c.
Proof.
intros Hc. unfold lit_match.
destruct (ic && is_ascii_letter p) eqn:E; [| reflexivity].
apply andb_true_iff in E. destruct E as [_ Hp].
apply (ok_ignorecase HU _ _ Hp Hc).
Qed.

Lemma rep_min_agree cs n : forall s k1 k2,
  forallb basic s = true ->
  (forall s', forallb basic s' = true -> k1 s' = k2 s') ->
  rep_min U cs n s k1 = rep_min ascii_ucd cs n s k2.
Proof.
induction n as [| n IH]; intros s k1 k2 Hs Hk; simpl; [auto |].
destruct s as [| c s]; [reflexivity |].
simpl in Hs. apply andb_true_iff in Hs. destruct Hs as [Hc Hs].
rewrite (in_cset_agree cs _ Hc).
destruct (in_cset ascii_ucd cs c); [apply IH; assumption | reflexivity].
Qed.

Lemma rep_greedy_agree cs : forall s m k1 k2,
  forallb basic s = true ->
  (forall s', forallb basic s' = true -> k1 s' = k2 s') ->
  rep_greedy U cs m s k1 = rep_greedy ascii_ucd cs m s k2.
Proof.
induction s as [| c s IH]; intros m k1 k2 Hs Hk; simpl.
- destruct (more_left m); apply Hk; reflexivity.
- pose proof Hs as Hcs. simpl in Hs. apply andb_true_iff in Hs.
  destruct Hs as [Hc Hs].
  destruct (more_left m) as [m' |]; [| apply Hk; exact Hcs].
  rewrite (in_cset_agree cs _ Hc).
  destruct (in_cset ascii_ucd cs c); [| apply Hk; exact Hcs].
  rewrite (IH m' k1 k2 Hs Hk), (Hk _ Hcs). reflexivity.
Qed.

Lemma rep_lazy_agree cs : forall s m k1 k2,
  forallb basic s = true ->
  (forall s', forallb basic s' = true -> k1 s' = k2 s') ->
  rep_lazy U cs m s k1 = rep_lazy ascii_ucd cs m s k2.
Proof.
induction s as [| c s IH]; intros m k1 k2 Hs Hk; simpl.
- rewrite (Hk [] eq_refl). reflexivity.
- pose proof Hs as Hcs. simpl in Hs. apply andb_true_iff in Hs.
  destruct Hs as [Hc Hs].
  rewrite (Hk _ Hcs). destruct (k2 (c :: s)); [reflexivity |].
  destruct (more_left m) as [m' |]; [| reflexivity].
  rewrite (in_cset_agree cs _ Hc).
  destruct (in_cset ascii_ucd cs c); [apply IH; assumption | reflexivity].
Qed.

Lemma matchk_agree ic r : forall s g k1 k2,
  forallb basic s = true ->
  (forall s' g', forallb basic s' = true -> k1 s' g' = k2 s' g') ->
  matchk U ic r s g k1 = matchk ascii_ucd ic r s g k2.
Proof.
induction r as [| p | cs | r1 IH1 r2 IH2 | r1 IH1 r2 IH2
                | cs lo hi gr | n r IH]; intros s g k1 k2 Hs Hk; simpl.
- apply Hk. exact Hs.
- destruct s as [| c s]; [reflexivity |].
  simpl in Hs. apply andb_true_iff in Hs. destruct Hs as [Hc Hs].
  rewrite (lit_match_agree ic p _ Hc).
  destruct (lit_match ascii_ucd ic p c); [apply Hk; exact Hs | reflexivity].
- destruct s as [| c s]; [reflexivity |].
  simpl in Hs. apply andb_true_iff in Hs. destruct Hs as [Hc Hs].
  rewrite (in_cset_agree cs _ Hc).
  destruct (in_cset ascii_ucd cs c); [apply Hk; exact Hs | reflexivity].
- apply IH1; [exact Hs |]. intros s' g' Hs'. apply IH2; assumption.
- rewrite (IH1 s g k1 k2 Hs Hk), (IH2 s g k1 k2 Hs Hk). reflexivity.
- apply rep_min_agree; [exact Hs |]. intros s1 Hs1.
  destruct gr; [apply rep_greedy_agree | apply rep_lazy_agree];
    try exact Hs1; intros s2 Hs2; apply Hk; exact Hs2.
- apply IH; [exact Hs |]. intros s' g' Hs'. apply Hk. exact Hs'.
Qed.

Lemma match_here_agree ic r s :
  forallb basic s = true -> match_here U ic r s = match_here ascii_ucd ic r s.
Proof. intros Hs. unfold match_here. apply matchk_agree; auto. Qed.

Lemma search_agree ic r : forall s,
  forallb basic s = true -> search U ic r s = search ascii_ucd ic r s.
Proof.
induction s as [| c s IH]; intros Hs; simpl.
- rewrite (match_here_agree ic r [] Hs). reflexivity.
- rewrite (match_here_agree ic r (c :: s) Hs).
  simpl in Hs. apply andb_true_iff in Hs. destruct Hs as [_ Hs].
  rewrite (IH Hs). reflexivity.
Qed.

Lemma int_digits_agree : forall s acc,
  forallb basic s = true -> int_digits U acc s = int_digits ascii_ucd acc s.
Proof.
induction s as [| c s IH]; intros acc Hs; simpl; [reflexivity |].
simpl in Hs. apply andb_true_iff in Hs. destruct Hs as [Hc Hs].
rewrite (ok_decimal HU _ Hc). destruct (ascii_decimal c); [apply IH; exact Hs |].
reflexivity.
Qed.

Lemma int_of_agree s :
  forallb basic s = true -> int_of U s = int_of ascii_ucd s.
Proof.
intros Hs. unfold int_of. destruct s; [reflexivity |].
apply int_digits_agree. exact Hs.
Qed.

Lemma group_within P g n : groups_within P g -> forallb P (group g n) = true.
Proof.
intros Hg. unfold group. destruct (g n) as [y |] eqn:E; [| reflexivity].
eapply Hg. exact E.
Qed.

Lemma forallb_firstn {A} (P : A -> bool) n : forall l,
  forallb P l = true -> forallb P (firstn n l) = true.
Proof.
induction n as [| n IH]; intros [| a l]; simpl; auto.
intros H. apply andb_true_iff in H. destruct H as [Ha Hl].
rewrite Ha. apply IH. exact Hl.
Qed.

(** On text made of ASCII, kana and CJK ideographs the result of
    [parse_due_date] is the same for every database. *)
Lemma parse_due_date_agree text :
  forallb basic text = true ->
  parse_due_date U text = parse_due_date ascii_ucd text.
Proof.
intros Ht. unfold parse_due_date.
rewrite !(search_agree _ _ _ Ht).
destruct (search ascii_ucd false jp_pattern text) as [jp |] eqn:Ej.
- assert (Hg : groups_within basic jp)
    by (eapply search_groups_within; eassumption).
  rewrite !int_of_agree by (apply group_within; exact Hg). reflexivity.
- destruct (search ascii_ucd true en_pattern text) as [en |] eqn:Ee;
    [| reflexivity].
  assert (Hg : groups_within basic en)
    by (eapply search_groups_within; eassumption).
  rewrite !int_of_agree by (apply group_within; exact Hg).
  unfold strptime_b_month.
  rewrite !(ok_lower HU) by
    (try apply forallb_firstn; apply group_within; exact Hg).
  reflexivity.
Qed.

End Agreement.

(* ================================================================== *)
(** * The two patterns of [parse_due_date] *)
(* ================================================================== *)

Section Shapes.

Variable U : UnicodeData.
Hypothesis HU : ucd_ok U.

Lemma int_digits_bounds : forall s acc,
  forallb (is_digit U) s = true -> 0 <= acc ->
  exists v, int_digits U acc s = Ok v /\
            acc * 10 ^ Z.of_nat (length s) <= v
            < (acc + 1) * 10 ^ Z.of_nat (length s).
Proof.
induction s as [| c s IH]; intros acc Hs Ha.
- exists acc. simpl. split; [reflexivity | lia].
- simpl in Hs. apply andb_true_iff in Hs. destruct Hs as [Hc Hs].
  unfold is_digit, in_cset in Hc. simpl int_digits.
  destruct (decimal_value U c) as [v |] eqn:Ev; [| discriminate].
  pose proof (ok_decimal_range HU _ Ev) as Hv.
  destruct (IH (acc * 10 + v) Hs ltac:(lia)) as [r [Er Hr]].
  exists r. split; [exact Er |].
  replace (Z.of_nat (length (c :: s))) with (Z.succ (Z.of_nat (length s)))
    by (simpl length; lia).
  rewrite Z.pow_succ_r by lia.
  assert (0 < 10 ^ Z.of_nat (length s)) by (apply Z.pow_pos_nonneg; lia).
  nia.
Qed.

Lemma int_of_digit_string s :
  forallb (is_digit U) s = true -> (1 <= length s)%nat ->
  exists v, int_of U s = Ok v /\ 0 <= v < 10 ^ Z.of_nat (length s).
Proof.
intros Hs Hl. unfold int_of. destruct s as [| c s]; [simpl in Hl; lia |].
destruct (@int_digits_bounds (c :: s) 0 Hs) as [v [E B]]; [lia |].
exists v. split; [exact E | lia].
Qed.

(** What a match of the localized pattern captures. *)
Lemma jp_match_shape x g :
  Matches U false jp_pattern x no_groups g ->
  exists y m d hh mm,
    g = set_group 5 mm (set_group 4 hh (set_group 3 d
          (set_group 2 m (set_group 1 y no_groups)))) /\
    (forallb (is_digit U) y = true /\ length y = 4%nat) /\
    (forallb (is_digit U) m = true /\ (1 <= length m <= 2)%nat) /\
    (forallb (is_digit U) d = true /\ (1 <= length d <= 2)%nat) /\
    (forallb (is_digit U) hh = true /\ (1 <= length hh <= 2)%nat) /\
    (forallb (is_digit U) mm = true /\ length mm = 2%nat).
Proof.
unfold jp_pattern, rcat. simpl fold_right. intros H.
repeat match goal with
       | H : Matches _ _ (RSeq _ _) _ _ _ |- _ =>
           apply Matches_seq_inv in H;
           destruct H as [? [? [? [? [? H]]]]]
       end.
repeat match goal with
       | H : Matches _ _ (RGroup _ _) _ _ _ |- _ =>
           apply Matches_group_inv in H; destruct H as [? [H ?]]
       | H : Matches _ _ (digits _ _) _ _ _ |- _ =>
           apply Matches_digits_inv in H; destruct H as [? [? ?]]
       | H : Matches _ _ (RLit _) _ _ _ |- _ =>
           apply Matches_lit_inv in H; destruct H as [? _]
       | H : Matches _ _ (RRepeat _ _ _ _) _ _ _ |- _ =>
           apply Matches_repeat_inv in H
       | H : Matches _ _ REmpty _ _ _ |- _ =>
           apply Matches_empty_inv in H; destruct H as [? _]
       end.
subst. do 5 eexists. split; [reflexivity |].
repeat split; try assumption; simpl in *; lia.
Qed.

Lemma marker_shape x g g' :
  Matches U true (RGroup 6 (RAlt (rstr (py "AM")) (rstr (py "PM")))) x g g' ->
  exists a b, x = [a; b] /\ g' = set_group 6 [a; b] g /\
              (ignorecase_eq U 65 a = true \/ ignorecase_eq U 80 a = true) /\
              ignorecase_eq U 77 b = true.
Proof.
intros H. apply Matches_group_inv in H. destruct H as [g1 [H ->]].
inversion H as [| | | | ? ? ? ? ? H' | ? ? ? ? ? H' | |]; subst; clear H;
  unfold rstr, rcat in H'; simpl in H';
  apply Matches_seq_inv in H'; destruct H' as [x1 [x2 [g2 [-> [Ha H']]]]];
  apply Matches_seq_inv in H'; destruct H' as [x3 [x4 [g3 [-> [Hb H']]]]];
  apply Matches_empty_inv in H'; destruct H' as [-> ->];
  apply Matches_lit_inv in Ha; destruct Ha as [-> [a [-> Ha]]];
  apply Matches_lit_inv in Hb; destruct Hb as [-> [b [-> Hb]]];
  exists a, b; unfold lit_match in Ha, Hb; simpl in Ha, Hb; auto.
Qed.

(** What a match of the English pattern captures; the marker is two
    characters that fold to "am" or to "pm". *)
Lemma en_match_shape x g :
  Matches U true en_pattern x no_groups g ->
  exists d mon y hh mm a b,
    g = set_group 6 [a; b] (set_group 5 mm (set_group 4 hh (set_group 3 y
          (set_group 2 mon (set_group 1 d no_groups))))) /\
    (forallb (is_digit U) d = true /\ (1 <= length d <= 2)%nat) /\
    (forallb (is_digit U) y = true /\ length y = 4%nat) /\
    (forallb (is_digit U) hh = true /\ (1 <= length hh <= 2)%nat) /\
    (forallb (is_digit U) mm = true /\ length mm = 2%nat) /\
    (ignorecase_eq U 65 a = true \/ ignorecase_eq U 80 a = true) /\
    ignorecase_eq U 77 b = true.
Proof.
unfold en_pattern, rcat. simpl fold_right. intros H.
repeat match goal with
       | H : Matches _ _ (RSeq _ _) _ _ _ |- _ =>
           apply Matches_seq_inv in H;
           destruct H as [? [? [? [? [? H]]]]]
       end.
repeat match goal with
       | H : Matches _ _ (RGroup _ (digits _ _)) _ _ _ |- _ =>
           apply Matches_group_inv in H; destruct H as [? [H ?]]
       | H : Matches _ _ (digits _ _) _ _ _ |- _ =>
           apply Matches_digits_inv in H; destruct H as [? [? ?]]
       | H : Matches _ _ (RLit _) _ _ _ |- _ =>
           apply Matches_lit_inv in H; destruct H as [? _]
       | H : Matches _ _ (RRepeat _ _ _ _) _ _ _ |- _ =>
           apply Matches_repeat_inv in H
       | H : Matches _ _ REmpty _ _ _ |- _ =>
           apply Matches_empty_inv in H; destruct H as [? _]
       | H : Matches _ _ (RGroup 2 _) _ _ _ |- _ =>
           apply Matches_group_inv in H; destruct H as [? [H ?]];
           apply Matches_no_group in H; [| reflexivity]
       | H : Matches _ _ (RGroup 6 _) _ _ _ |- _ =>
           apply marker_shape in H; destruct H as [? [? [? [? [? ?]]]]]
       end.
subst. do 7 eexists. split; [reflexivity |].
repeat split; try assumption; simpl in *; lia.
Qed.

End Shapes.

(* ================================================================== *)
(** * Results of [parse_due_date] *)
(* ================================================================== *)

Section ParseLemmas.

Variable U : UnicodeData.

Lemma int_digits_raises : forall s acc e,
  int_digits U acc s = Raise e -> e = library_error ValueError.
Proof.
induction s as [| c s IH]; intros acc e H; simpl in H; [discriminate |].
destruct (decimal_value U c); [eapply IH; exact H | congruence].
Qed.

Lemma int_of_raises s e :
  int_of U s = Raise e -> e = library_error ValueError.
Proof.
unfold int_of. destruct s; [congruence | apply int_digits_raises].
Qed.

Lemma strptime_b_month_raises s e :
  strptime_b_month U s = Raise e -> e = library_error ValueError.
Proof.
unfold strptime_b_month.
destruct (index_from 1 (lower U s) month_abbrs); congruence.
Qed.

Lemma new_datetime_raises y m d hh mm ss us e :
  new_datetime y m d hh mm ss us = Raise e -> e = library_error ValueError.
Proof.
unfold new_datetime. destruct (valid_fields y m d hh mm ss us); congruence.
Qed.

Lemma new_datetime_ok y m d hh mm ss us t :
  new_datetime y m d hh mm ss us = Ok t ->
  valid_fields y m d hh mm ss us = true /\
  t = {| year := y; month := m; day := d; hour := hh; minute := mm;
         second := ss; microsecond := us; tz := JST |}.
Proof.
unfold new_datetime. destruct (valid_fields y m d hh mm ss us);
  [| discriminate].
intros H. inversion H. auto.
Qed.

Ltac raise_cases H :=
  repeat match type of H with
         | rbind ?r _ = Raise _ =>
             let E := fresh "E" in
             destruct r eqn:E; simpl in H;
             [| inversion H; subst;
                first [ eapply int_of_raises; eassumption
                      | eapply strptime_b_month_raises; eassumption
                      | eapply new_datetime_raises; eassumption ] ]
         end.

(** The only exception [parse_due_date] can raise is a ValueError. *)
Lemma parse_due_date_raises text e :
  parse_due_date U text = Raise e -> e = library_error ValueError.
Proof.
unfold parse_due_date.
destruct (search U false jp_pattern text) as [jp |].
- intros H. raise_cases H. discriminate.
- destruct (search U true en_pattern text) as [en |]; [| discriminate].
  intros H. raise_cases H. discriminate.
Qed.

Lemma parse_due_date_no_match text :
  search U false jp_pattern text = None ->
  search U true en_pattern text = None ->
  parse_due_date U text = Ok None.
Proof. intros Hj He. unfold parse_due_date. rewrite Hj, He. reflexivity. Qed.

Hypothesis HU : ucd_ok U.

(** The eight spellings of the marker, and how the source tells them
    apart. *)
Lemma marker_cases a b :
  ignorecase_eq U 65 a = true \/ ignorecase_eq U 80 a = true ->
  ignorecase_eq U 77 b = true ->
  (is_pm_marker [a; b] = negb (is_am_marker [a; b])) /\
  (is_pm_marker [a; b] = true \/ is_am_marker [a; b] = true) /\
  str_eqb (lower U [a; b]) (py "pm") = is_pm_marker [a; b].
Proof.
intros Ha Hb.
assert (Hb' : b = 77 \/ b = 77 + 32)
  by (apply (ok_ignorecase_amp HU (p:=77) b); simpl; auto).
assert (Ha' : (a = 65 \/ a = 65 + 32) \/ (a = 80 \/ a = 80 + 32)).
{ destruct Ha as [Ha | Ha]; [left | right];
    [apply (ok_ignorecase_amp HU (p:=65) a)
    | apply (ok_ignorecase_amp HU (p:=80) a)];
    simpl; auto. }
destruct Ha' as [[-> | ->] | [-> | ->]]; destruct Hb' as [-> | ->];
  rewrite (ok_lower HU) by reflexivity; vm_compute; auto.
Qed.

End ParseLemmas.

(* ================================================================== *)
(** * The localized pattern on a rendered date *)
(* ================================================================== *)

Section Roundtrip.

Variable U : UnicodeData.
Hypothesis HU : ucd_ok U.

Lemma ascii_digit_basic c : ascii_digit c = true -> basic c = true.
Proof.
unfold ascii_digit, basic, is_ascii. intros H.
apply andb_true_iff in H. destruct H as [H1 H2].
apply Z.leb_le in H1. apply Z.leb_le in H2.
apply orb_true_iff. left. apply orb_true_iff. left.
apply andb_true_iff. split; [apply Z.leb_le | apply Z.ltb_lt]; lia.
Qed.

Lemma digit_value c :
  ascii_digit c = true -> decimal_value U c = Some (c - 48).
Proof.
intros H. rewrite (ok_decimal HU _ (ascii_digit_basic _ H)).
unfold ascii_decimal. unfold ascii_digit in H. rewrite H. reflexivity.
Qed.

Lemma digit_in c : ascii_digit c = true -> in_cset U CDigit c = true.
Proof. intros H. simpl. rewrite (digit_value _ H). reflexivity. Qed.

Lemma digit_not_space c :
  ascii_digit c = true -> in_cset U CSpace c = false.
Proof.
intros H. simpl. rewrite (ok_space HU _ (ascii_digit_basic _ H)).
unfold ascii_digit in H. apply andb_true_iff in H. destruct H as [H1 H2].
apply Z.leb_le in H1. apply Z.leb_le in H2. unfold ascii_isspace.
apply orb_false_iff. split; apply andb_false_iff.
- right. apply Z.leb_gt. lia.
- right. apply Z.leb_gt. lia.
Qed.

Lemma separator_not_digit c :
  In c [24180; 26376; 26085; 32; 58] -> in_cset U CDigit c = false.
Proof.
intros H. simpl.
assert (Hb : basic c = true)
  by (destruct H as [<- | [<- | [<- | [<- | [<- | []]]]]]; reflexivity).
rewrite (ok_decimal HU _ Hb).
destruct H as [<- | [<- | [<- | [<- | [<- | []]]]]]; reflexivity.
Qed.

Lemma blank_is_space : in_cset U CSpace 32 = true.
Proof. simpl. rewrite (ok_space HU) by reflexivity. reflexivity. Qed.

Lemma consumed_1 (a : Z) s : consumed (a :: s) s = [a].
Proof. apply (consumed_app [a] s). Qed.

Lemma consumed_2 (a b : Z) s : consumed (a :: b :: s) s = [a; b].
Proof. apply (consumed_app [a; b] s). Qed.

Lemma consumed_4 (a b c d : Z) s :
  consumed (a :: b :: c :: d :: s) s = [a; b; c; d].
Proof. apply (consumed_app [a; b; c; d] s). Qed.

#[local] Arguments in_cset : simpl never.
#[local] Arguments consumed : simpl never.
#[local] Arguments lit_match : simpl never.

Lemma lit_exact p : lit_match U false p p = true.
Proof. unfold lit_match. simpl. apply Z.eqb_refl. Qed.

Lemma rep_greedy_zero cs s k : rep_greedy U cs (Some 0%nat) s k = k s.
Proof. destruct s; reflexivity. Qed.

Lemma jp_match_here_fields y1 y2 y3 y4 ms ds hs n1 n2 suf :
  ascii_digit y1 = true -> ascii_digit y2 = true ->
  ascii_digit y3 = true -> ascii_digit y4 = true ->
  short_field ms = true -> short_field ds = true -> short_field hs = true ->
  ascii_digit n1 = true -> ascii_digit n2 = true ->
  match_here U false jp_pattern
    ([y1; y2; y3; y4] ++ [24180] ++ ms ++ [26376] ++ ds ++ [26085; 32]
     ++ hs ++ [58] ++ [n1; n2] ++ suf)
  = Some (set_group 5 [n1; n2] (set_group 4 hs (set_group 3 ds
            (set_group 2 ms (set_group 1 [y1; y2; y3; y4] no_groups))))).
Proof.
intros Y1 Y2 Y3 Y4 Hm Hd Hh N1 N2.
assert (S1 : in_cset U CDigit 24180 = false)
  by (apply separator_not_digit; simpl; tauto).
assert (S2 : in_cset U CDigit 26376 = false)
  by (apply separator_not_digit; simpl; tauto).
assert (S3 : in_cset U CDigit 26085 = false)
  by (apply separator_not_digit; simpl; tauto).
assert (S4 : in_cset U CDigit 32 = false)
  by (apply separator_not_digit; simpl; tauto).
assert (S5 : in_cset U CDigit 58 = false)
  by (apply separator_not_digit; simpl; tauto).
pose proof blank_is_space as S6.
destruct ms as [| m1 [| m2 [| ? ?]]]; try discriminate;
destruct ds as [| d1 [| d2 [| ? ?]]]; try discriminate;
destruct hs as [| h1 [| h2 [| ? ?]]]; try discriminate;
simpl in Hm, Hd, Hh;
repeat match goal with
       | H : _ && _ = true |- _ => apply andb_true_iff in H; destruct H
       end;
unfold match_here, jp_pattern, rcat, digits; simpl;
repeat match goal with
       | H : ascii_digit ?c = true |- context [in_cset U CDigit ?c] =>
           rewrite (digit_in c H); simpl
       | H : ascii_digit ?c = true |- context [in_cset U CSpace ?c] =>
           rewrite (digit_not_space c H); simpl
       | |- context [lit_match U false ?p ?p] =>
           rewrite (lit_exact p); simpl
       | |- _ => rewrite S1; simpl
       | |- _ => rewrite S2; simpl
       | |- _ => rewrite S3; simpl
       | |- _ => rewrite S4; simpl
       | |- _ => rewrite S5; simpl
       | |- _ => rewrite S6; simpl
       end;
rewrite ?rep_greedy_zero, ?consumed_4, ?consumed_2, ?consumed_1; reflexivity.
Qed.

Lemma jp_no_match_at_non_digit c s :
  is_digit U c = false -> match_here U false jp_pattern (c :: s) = None.
Proof.
intros H. unfold match_here, jp_pattern, rcat, digits. simpl.
unfold is_digit in H. rewrite H. reflexivity.
Qed.

(** [re.search] walks over a prefix that holds no digit. *)
Lemma jp_search_skips pre s g :
  forallb (fun c => negb (is_digit U c)) pre = true ->
  match_here U false jp_pattern s = Some g ->
  search U false jp_pattern (pre ++ s) = Some g.
Proof.
intros Hp Hs. induction pre as [| c pre IH]; simpl app.
- destruct s; cbn [search]; rewrite Hs; reflexivity.
- simpl in Hp. apply andb_true_iff in Hp. destruct Hp as [Hc Hp].
  apply negb_true_iff in Hc.
  cbn [search]. rewrite jp_no_match_at_non_digit by exact Hc. apply IH. exact Hp.
Qed.

Lemma digit_char_ascii v : 0 <= v <= 9 -> ascii_digit (digit_char v) = true.
Proof.
intros H. unfold ascii_digit, digit_char.
apply andb_true_iff. split; apply Z.leb_le; lia.
Qed.

Lemma digit_char_value v :
  0 <= v <= 9 -> decimal_value U (digit_char v) = Some v.
Proof.
intros H. rewrite (digit_value _ (digit_char_ascii H)).
unfold digit_char. f_equal. lia.
Qed.

Lemma tens_units n :
  0 <= n <= 99 -> 0 <= n / 10 <= 9 /\ 0 <= n mod 10 <= 9.
Proof.
intros H. pose proof (Z.div_mod n 10 ltac:(lia)).
pose proof (Z.mod_pos_bound n 10 ltac:(lia)). lia.
Qed.

Lemma two_digits_short n : 0 <= n <= 99 -> short_field (two_digits n) = true.
Proof.
intros H. destruct (tens_units H) as [B1 B2].
unfold two_digits, short_field.
rewrite !digit_char_ascii by assumption. reflexivity.
Qed.

Lemma field_short pad n : 0 <= n <= 99 -> short_field (field pad n) = true.
Proof.
intros H. unfold field, short_digits. destruct pad.
- apply two_digits_short. exact H.
- destruct (n <? 10) eqn:E; [| apply two_digits_short; exact H].
  apply Z.ltb_lt in E. simpl. apply digit_char_ascii. lia.
Qed.

Lemma int_of_two_digits n : 0 <= n <= 99 -> int_of U (two_digits n) = Ok n.
Proof.
intros H. unfold two_digits, int_of, int_digits.
destruct (tens_units H) as [B1 B2].
rewrite !digit_char_value by assumption. simpl. f_equal.
pose proof (Z.div_mod n 10 ltac:(lia)). lia.
Qed.

Lemma int_of_field pad n : 0 <= n <= 99 -> int_of U (field pad n) = Ok n.
Proof.
intros H. unfold field, short_digits. destruct pad.
- apply int_of_two_digits. exact H.
- destruct (n <? 10) eqn:E; [| apply int_of_two_digits; exact H].
  apply Z.ltb_lt in E. unfold int_of, int_digits.
  rewrite digit_char_value by lia. f_equal.
Qed.

Lemma four_digits_bounds n :
  0 <= n <= 9999 ->
  0 <= n / 1000 <= 9 /\ 0 <= n / 100 mod 10 <= 9 /\
  0 <= n / 10 mod 10 <= 9 /\ 0 <= n mod 10 <= 9.
Proof.
intros H.
pose proof (Z.mod_pos_bound (n / 100) 10 ltac:(lia)).
pose proof (Z.mod_pos_bound (n / 10) 10 ltac:(lia)).
pose proof (Z.mod_pos_bound n 10 ltac:(lia)).
pose proof (Z.div_mod n 1000 ltac:(lia)).
pose proof (Z.mod_pos_bound n 1000 ltac:(lia)).
lia.
Qed.

Lemma int_of_four_digits n : 0 <= n <= 9999 -> int_of U (four_digits n) = Ok n.
Proof.
intros H. destruct (four_digits_bounds H) as [B1 [B2 [B3 B4]]].
unfold four_digits, int_of, int_digits.
rewrite !digit_char_value by assumption. f_equal.
pose proof (Z.div_mod n 10 ltac:(lia)).
pose proof (Z.div_mod (n / 10) 10 ltac:(lia)).
pose proof (Z.div_mod (n / 100) 10 ltac:(lia)).
assert (n / 10 / 10 = n / 100) by (rewrite Z.div_div by lia; reflexivity).
assert (n / 100 / 10 = n / 1000) by (rewrite Z.div_div by lia; reflexivity).
lia.
Qed.

Lemma days_in_month_le y m : 1 <= m <= 12 -> days_in_month y m <= 31.
Proof.
intros H. unfold days_in_month.
destruct ((m =? 2) && is_leap y); [lia |].
assert (C : m = 1 \/ m = 2 \/ m = 3 \/ m = 4 \/ m = 5 \/ m = 6 \/ m = 7
            \/ m = 8 \/ m = 9 \/ m = 10 \/ m = 11 \/ m = 12) by lia.
repeat (destruct C as [-> | C]; [simpl; lia |]). subst. simpl. lia.
Qed.

Lemma valid_fields_ranges y m d hh mm :
  valid_fields y m d hh mm 0 0 = true ->
  1 <= y <= 9999 /\ 1 <= m <= 12 /\ 1 <= d <= 31 /\
  0 <= hh <= 23 /\ 0 <= mm <= 59.
Proof.
unfold valid_fields, between, MINYEAR, MAXYEAR. intros H.
repeat match goal with
       | H : _ && _ = true |- _ => apply andb_true_iff in H; destruct H
       | H : (_ <=? _) = true |- _ => apply Z.leb_le in H
       end.
assert (days_in_month y m <= 31) by (apply days_in_month_le; lia). lia.
Qed.

End Roundtrip.

(* ================================================================== *)
(** * The log of a scan *)
(* ================================================================== *)

Section TraceLemmas.

Context {B : Type} {BR : Browser B}.

Lemma bind_inv {A C} (c : M B A) (f : A -> M B C) w r w' :
  bind c f w = (r, w') ->
  (exists e, c w = (Raise e, w') /\ r = Raise e) \/
  (exists a w1, c w = (Ok a, w1) /\ f a w1 = (r, w')).
Proof.
  unfold bind. destruct (c w) as [[a | e] w1]; intros H.
  - right. eauto.
  - left. inversion H; subst. eauto.
Qed.

Lemma existsb_app_false {A} (f : A -> bool) l1 l2 :
  existsb f l1 = false -> existsb f l2 = false ->
  existsb f (l1 ++ l2) = false.
Proof. intros H1 H2. rewrite existsb_app, H1, H2. reflexivity. Qed.

Lemma forallb_app_true {A} (f : A -> bool) l1 l2 :
  forallb f l1 = true -> forallb f l2 = true ->
  forallb f (l1 ++ l2) = true.
Proof. intros H1 H2. rewrite forallb_app, H1, H2. reflexivity. Qed.

Lemma browses_quiet {A} (c : M B A) :
  (forall w, exists r, c w = (r, w) \/
                       c w = (r, tick w) \/
                       exists b, c w = (r, set_browser b w)) ->
  browses c.
Proof.
  intros H w r w' Hc. exists []. rewrite app_nil_r.
  destruct (H w) as [r0 [E | [E | [b E]]]]; rewrite E in Hc;
    inversion Hc; subst; (split; [reflexivity | split; [reflexivity |]]);
    destruct r; simpl; congruence.
Qed.

Lemma browses_ret {A} (a : A) : browses (@ret B A a).
Proof. apply browses_quiet. intros w. exists (Ok a). auto. Qed.

Lemma browses_raise {A} (e : exn) : browses (@raise B A e).
Proof. apply browses_quiet. intros w. exists (Raise e). auto. Qed.

Lemma browses_lift {A} (r : result A) : browses (@lift B A r).
Proof. apply browses_quiet. intros w. exists r. auto. Qed.

Lemma browses_now : browses (@now B).
Proof. apply browses_quiet. intros w. eexists. right. left. reflexivity. Qed.

Lemma browses_get_secret key : browses (@get_secret B key).
Proof. apply browses_quiet. intros w. eexists. left. reflexivity. Qed.

Lemma browses_call {A} (op : B -> outcome A * B) : browses (call op).
Proof.
  apply browses_quiet. intros w. unfold call.
  destruct (op (browser w)) as [o b']. eexists. right. right. eauto.
Qed.

Lemma browses_bind {A C} (c : M B A) (f : A -> M B C) :
  browses c -> (forall a, browses (f a)) -> browses (bind c f).
Proof.
  intros Hc Hf w r w' H.
  destruct (bind_inv _ _ _ H) as [[e [E ->]] | [a [w1 [E1 E2]]]].
  - apply Hc in E. exact E.
  - apply Hc in E1. destruct E1 as [d1 [L1 [F1 X1]]].
    apply Hf in E2. destruct E2 as [d2 [L2 [F2 X2]]].
    exists (d1 ++ d2). rewrite L2, L1, app_assoc.
    split; [reflexivity |]. split; [apply forallb_app_true; assumption |].
    destruct r.
    + apply existsb_app_false; assumption.
    + rewrite existsb_app, X1. simpl. exact X2.
Qed.

Lemma browses_if {A} (b : bool) (c1 c2 : M B A) :
  browses c1 -> browses c2 -> browses (if b then c1 else c2).
Proof. destruct b; auto. Qed.

Lemma browses_emit_browse (e : event) :
  is_browse e = true -> is_failed_goto e = false -> browses (@emit B e).
Proof.
  intros Hb Hf w r w' H. unfold emit in H. inversion H; subst.
  exists [e]. simpl. rewrite Hb, Hf. auto.
Qed.

Lemma browses_new_page : browses new_page.
Proof.
  unfold new_page. apply browses_bind; [apply browses_call |].
  intros p. apply browses_bind; [| intros; apply browses_ret].
  apply browses_emit_browse; reflexivity.
Qed.

Lemma browses_page_goto p url : browses (page_goto p url).
Proof.
  intros w r w' H. destruct url as [u |]; simpl in H.
  - unfold call in H. destruct (br_goto p u (browser w)) as [o b'].
    destruct o; simpl in H; unfold emit, bind, raise in H; simpl in H;
      inversion H; subst; simpl; eexists; (split; [reflexivity |]);
      simpl; auto.
  - unfold emit, bind, raise in H. inversion H; subst. simpl.
    eexists; (split; [reflexivity |]); simpl; auto.
Qed.

Create HintDb browse discriminated.

Hint Resolve browses_ret browses_raise browses_lift browses_now
     browses_get_secret browses_call browses_new_page
     browses_page_goto : browse.

Ltac browse :=
  repeat first
    [ solve [ auto with browse ]
    | apply browses_bind; [| intros ]
    | apply browses_if ].

Lemma browses_login : browses login.
Proof. unfold login. browse. Qed.

Lemma browses_fetch_items U p items : browses (fetch_items U p items).
Proof.
  induction items as [| itm rest IH]; simpl; [apply browses_ret |].
  browse.
Qed.

Lemma browses_fetch_upcoming U p : browses (fetch_upcoming U p).
Proof. unfold fetch_upcoming. browse. apply browses_fetch_items. Qed.

Lemma browses_is_submitted p lnk : browses (is_submitted p lnk).
Proof. unfold is_submitted. browse. Qed.

Lemma browses_classify p thr ups :
  forall acc, browses (classify p thr ups acc).
Proof.
  induction ups as [| t rest IH]; intros acc; simpl; [apply browses_ret |].
  destruct (in_window thr t); [| apply IH].
  apply browses_bind; [apply browses_is_submitted |].
  intros s. destruct (negb s); apply IH.
Qed.

Lemma browses_scan_entries U h : browses (scan_entries U h).
Proof.
  unfold scan_entries.
  pose proof browses_login. pose proof (browses_fetch_upcoming U).
  pose proof browses_classify. browse.
Qed.

(** [run] is the browsing phase followed by the delivery. *)
Lemma run_split U h (w : World B) :
  run U h w = bind (scan_entries U h) (fun x => deliver (snd x)) w.
Proof.
  unfold run, scan_entries, deliver, bind.
  destruct (login w) as [[p | e] w1]; [| reflexivity].
  destruct (fetch_upcoming U p w1) as [[ups | e] w2]; [| reflexivity].
  destruct (now w2) as [[t0 | e] w3]; [| reflexivity].
  destruct (lift (timedelta_hours h) w3) as [[dl | e] w4]; [| reflexivity].
  destruct (lift (datetime_add t0 dl) w4) as [[thr | e] w5]; [| reflexivity].
  destruct (classify p thr ups [] w5) as [[al | e] w6]; reflexivity.
Qed.

(** [notify] logs its call once, then only deliveries. *)
Lemma notify_log alerts (w : World B) r w' :
  notify alerts w = (r, w') ->
  exists d, log w' = log w ++ EvNotify alerts :: d /\
            forallb is_delivery d = true.
Proof.
  unfold notify. generalize (header alerts). intros hd.
  generalize (py "[bold red]LINE Notify failed:[/bold red] "). intros red.
  unfold bind, emit, getenv, get_secret, now, lift, requests_post,
    console_print, ret.
  generalize (join [10]). intros joined. simpl.
  intros H.
  repeat match type of H with
         | context [if ?b then _ else _] => destruct b; simpl in H
         | context [match ?x with Ok _ => _ | Raise _ => _ end] =>
             destruct x; simpl in H
         end;
    inversion H; subst; simpl; rewrite <- ?app_assoc; simpl;
    eexists; (split; [reflexivity | reflexivity]).
Qed.

(** What the classification loop returns: the entries it was given,
    followed by entries of the timeline that are inside the window. *)
Lemma classify_result p thr ups :
  forall acc (w : World B) alerts w',
    classify p thr ups acc w = (Ok alerts, w') ->
    exists extra, alerts = acc ++ extra /\
                  Forall (fun t => in_window thr t = true) extra /\
                  incl extra ups.
Proof.
  induction ups as [| t rest IH]; intros acc w alerts w' H; simpl in H.
  - inversion H; subst. exists []. rewrite app_nil_r.
    repeat split; [constructor | apply incl_nil_l].
  - destruct (in_window thr t) eqn:Ew.
    + destruct (bind_inv _ _ _ H) as [[e [_ E]] | [s [w1 [_ E]]]];
        [discriminate |].
      destruct (negb s).
      * apply IH in E. destruct E as [extra [-> [F I]]].
        exists (t :: extra). rewrite <- app_assoc. simpl.
        repeat split; [constructor; assumption |].
        apply incl_cons; [left; reflexivity | apply incl_tl; exact I].
      * apply IH in E. destruct E as [extra [-> [F I]]].
        exists extra. repeat split; [assumption | apply incl_tl; exact I].
    + apply IH in H. destruct H as [extra [-> [F I]]].
      exists extra. repeat split; [assumption | apply incl_tl; exact I].
Qed.

Lemma scan_entries_result U h (w : World B) ups thr alerts w' :
  scan_entries U h w = (Ok (ups, thr, alerts), w') ->
  Forall (fun t => in_window thr t = true) alerts /\ incl alerts ups.
Proof.
  unfold scan_entries. intros H.
  repeat match type of H with
         | bind _ _ _ = _ =>
             let e := fresh "e" in
             let E := fresh "E" in
             apply bind_inv in H;
             destruct H as [[e [_ E]] | [? [? [E H]]]]; [discriminate |]
         end.
  unfold ret in H. inversion H; subst.
  match goal with
  | E : classify _ _ _ _ _ = _ |- _ =>
      apply classify_result in E; destruct E as [extra [-> [F I]]]
  end.
  simpl. split; assumption.
Qed.

(** The log of one scan: a browsing part [d1], then the delivery part
    [d2], empty unless the loop ended with at-risk entries. *)
Lemma run_log U h (w : World B) r w' :
  run U h w = (r, w') ->
  exists d1 d2,
    log w' = log w ++ d1 ++ d2 /\ forallb is_browse d1 = true /\
    ((d2 = [] /\ exists e, r = Raise e /\
                           (existsb is_failed_goto d1 = true ->
                            nav_error e = true))
     \/
     (existsb is_failed_goto d1 = false /\
      exists thr alerts,
        Forall (fun t => in_window thr t = true) alerts /\
        ((alerts = [] /\ d2 = [] /\ r = Ok 0)
         \/
         (alerts <> [] /\
          (exists d, d2 = EvNotify alerts :: d /\
                     forallb is_delivery d = true) /\
          (r = Ok (Z.of_nat (length alerts)) \/ exists e, r = Raise e))))).
Proof.
  rewrite run_split. intros H.
  destruct (bind_inv _ _ _ H) as [[e [E ->]] | [[[ups thr] alerts] [w1 [E1 E2]]]].
  - destruct (browses_scan_entries U h _ E) as [d [L [F X]]].
    exists d, []. rewrite app_nil_r. repeat split; [assumption .. |].
    left. split; [reflexivity |]. exists e. split; [reflexivity | exact X].
  - destruct (browses_scan_entries U h _ E1) as [d [L [F X]]].
    destruct (scan_entries_result _ _ _ E1) as [Fw _].
    simpl in E2. unfold deliver in E2.
    destruct alerts as [| a alerts'].
    + simpl in E2. unfold bind, ret in E2. inversion E2; subst.
      exists d, []. rewrite app_nil_r. repeat split; [assumption .. |].
      right. split; [exact X |]. exists thr, []. split; [constructor |].
      left. auto.
    + simpl nonempty in E2. cbv iota in E2.
      destruct (bind_inv _ _ _ E2) as [[e [En ->]] | [[] [w2 [En Er]]]].
      * destruct (notify_log _ _ En) as [d2 [L2 F2]].
        exists d, (EvNotify (a :: alerts') :: d2).
        rewrite L2, L, <- app_assoc. repeat split; [assumption |].
        right. split; [exact X |]. exists thr, (a :: alerts').
        split; [exact Fw |]. right. split; [discriminate |].
        split; [eauto |]. right. eauto.
      * destruct (notify_log _ _ En) as [d2 [L2 F2]].
        unfold ret in Er. inversion Er; subst.
        exists d, (EvNotify (a :: alerts') :: d2).
        rewrite L2, L, <- app_assoc. repeat split; [assumption |].
        right. split; [exact X |]. exists thr, (a :: alerts').
        split; [exact Fw |]. right. split; [discriminate |].
        split; [eauto |]. left. reflexivity.
Qed.

(** The stages of a scan that gets as far as the delivery. *)
Lemma run_stages U h (w : World B) r w' :
  run U h w = (r, w') ->
  (exists e, r = Raise e /\ scan_entries U h w = (Raise e, w')) \/
  (exists p w1 ups w2 delta thr alerts w4,
      login w = (Ok p, w1) /\
      fetch_upcoming U p w1 = (Ok ups, w2) /\
      timedelta_hours h = Ok delta /\
      datetime_add (clock w2 (ticks w2)) delta = Ok thr /\
      classify p thr ups [] (tick w2) = (Ok alerts, w4) /\
      deliver alerts w4 = (r, w')).
Proof.
rewrite run_split. intros H.
destruct (bind_inv _ _ _ H)
  as [[e [E ->]] | [[[ups thr] alerts] [w4 [E Hd]]]]; [left; eauto |].
right. simpl in Hd. unfold scan_entries in E.
destruct (bind_inv _ _ _ E) as [[e [_ X]] | [p [w1 [E1 E']]]];
  [discriminate |]. clear E.
destruct (bind_inv _ _ _ E') as [[e [_ X]] | [ups' [w2 [E2 E]]]];
  [discriminate |]. clear E'.
destruct (bind_inv _ _ _ E) as [[e [_ X]] | [t0 [w3 [E3 E']]]];
  [discriminate |]. clear E.
unfold now in E3. inversion E3; subst t0 w3. clear E3.
destruct (bind_inv _ _ _ E') as [[e [_ X]] | [delta [w3 [E4 E]]]];
  [discriminate |]. clear E'.
unfold lift in E4. inversion E4 as [[E4' Ew]]. subst w3. clear E4.
destruct (bind_inv _ _ _ E) as [[e [_ X]] | [thr' [w3 [E5 E']]]];
  [discriminate |]. clear E.
unfold lift in E5. inversion E5 as [[E5' Ew]]. subst w3. clear E5.
destruct (bind_inv _ _ _ E') as [[e [_ X]] | [alerts' [w5 [E6 E]]]];
  [discriminate |]. clear E'.
unfold ret in E. inversion E; subst.
exists p, w1, ups, w2, delta, thr, alerts, w4. auto 10.
Qed.

Lemma deliver_log alerts (w : World B) r w' :
  deliver alerts w = (r, w') ->
  exists d, log w' = log w ++ d /\ gotos d = [] /\
            notify_calls d = (if nonempty alerts then [alerts] else []) /\
            (forall n, r = Ok n -> n = Z.of_nat (length alerts)).
Proof.
unfold deliver. intros H.
assert (G : forall d, forallb is_delivery d = true ->
                      gotos d = [] /\ notify_calls d = []).
{ induction d as [| e d IH]; simpl; [auto |]. intros F.
  apply andb_true_iff in F. destruct F as [Fe Fd].
  destruct e; simpl in *; try discriminate; auto. }
destruct alerts as [| a alerts'].
- simpl in H. unfold bind, ret in H. inversion H; subst.
  exists []. rewrite app_nil_r. repeat split. intros n Hn.
  inversion Hn. reflexivity.
- simpl nonempty in H. cbv iota in H.
  destruct (bind_inv _ _ _ H) as [[e [En ->]] | [[] [w2 [En Er]]]];
    destruct (notify_log _ _ En) as [d [L F]];
    destruct (G d F) as [G1 G2].
  + exists (EvNotify (a :: alerts') :: d). simpl. rewrite G1, G2.
    repeat split; [exact L | discriminate].
  + unfold ret in Er. inversion Er; subst.
    exists (EvNotify (a :: alerts') :: d). simpl. rewrite G1, G2.
    repeat split; [exact L |]. intros n Hn. inversion Hn. reflexivity.
Qed.

Lemma browse_not_close d :
  forallb is_browse d = true -> filter is_close d = [].
Proof.
  induction d as [| e d IH]; simpl; [reflexivity |].
  intros H. apply andb_true_iff in H. destruct H as [He Hd].
  destruct e; simpl in *; try discriminate; auto.
Qed.

Lemma delivery_not_close d :
  forallb is_delivery d = true -> filter is_close d = [].
Proof.
  induction d as [| e d IH]; simpl; [reflexivity |].
  intros H. apply andb_true_iff in H. destruct H as [He Hd].
  destruct e; simpl in *; try discriminate; auto.
Qed.

Lemma browse_no_notify d :
  forallb is_browse d = true -> notify_calls d = [].
Proof.
  induction d as [| e d IH]; simpl; [reflexivity |].
  intros H. apply andb_true_iff in H. destruct H as [He Hd].
  destruct e; simpl in *; try discriminate; auto.
Qed.

Lemma delivery_no_notify d :
  forallb is_delivery d = true -> notify_calls d = [].
Proof.
  induction d as [| e d IH]; simpl; [reflexivity |].
  intros H. apply andb_true_iff in H. destruct H as [He Hd].
  destruct e; simpl in *; try discriminate; auto.
Qed.

Lemma delivery_no_failed_goto d :
  forallb is_delivery d = true -> existsb is_failed_goto d = false.
Proof.
  induction d as [| e d IH]; simpl; [reflexivity |].
  intros H. apply andb_true_iff in H. destruct H as [He Hd].
  destruct e; simpl in *; try discriminate; auto.
Qed.

Lemma browse_no_delivery d :
  forallb is_browse d = true -> existsb is_delivery d = false.
Proof.
  induction d as [| e d IH]; simpl; [reflexivity |].
  intros H. apply andb_true_iff in H. destruct H as [He Hd].
  destruct e; simpl in *; try discriminate; auto.
Qed.

Lemma notify_calls_app d1 d2 :
  notify_calls (d1 ++ d2) = notify_calls d1 ++ notify_calls d2.
Proof.
  induction d1 as [| e d1 IH]; simpl; [reflexivity |].
  destruct e; simpl; rewrite ?IH; reflexivity.
Qed.

Lemma closes_app d1 d2 : closes (d1 ++ d2) = (closes d1 + closes d2)%nat.
Proof. unfold closes. rewrite filter_app, length_app. reflexivity. Qed.

Lemma opens_app d1 d2 : opens (d1 ++ d2) = (opens d1 + opens d2)%nat.
Proof. unfold opens. rewrite filter_app, length_app. reflexivity. Qed.

End TraceLemmas.

(* ================================================================== *)
(** * The calendar: field order and elapsed time *)
(* ================================================================== *)

Unset Implicit Arguments.

Lemma is_leap_spec y :
  is_leap y = true <-> (y mod 4 = 0 /\ (y mod 100 <> 0 \/ y mod 400 = 0)).
Proof.
unfold is_leap. rewrite andb_true_iff, orb_true_iff, negb_true_iff.
rewrite !Z.eqb_eq, Z.eqb_neq. tauto.
Qed.

Lemma days_before_year_step y :
  days_before_year (y + 1)
  = days_before_year y + 365 + (if is_leap y then 1 else 0).
Proof.
unfold days_before_year.
replace (y + 1 - 1) with y by lia.
destruct (is_leap y) eqn:E.
- apply is_leap_spec in E. Z.div_mod_to_equations. lia.
- assert (N : ~ (y mod 4 = 0 /\ (y mod 100 <> 0 \/ y mod 400 = 0)))
    by (rewrite <- is_leap_spec; congruence).
  Z.div_mod_to_equations. lia.
Qed.

Lemma days_before_year_mono y y' :
  y <= y' -> days_before_year y <= days_before_year y'.
Proof.
intros H. replace y' with (y + Z.of_nat (Z.to_nat (y' - y))) by lia.
induction (Z.to_nat (y' - y)) as [| k IH]; [rewrite Z.add_0_r; lia |].
replace (y + Z.of_nat (S k)) with (y + Z.of_nat k + 1) by lia.
rewrite days_before_year_step. destruct (is_leap _); lia.
Qed.

Lemma month_cases m :
  1 <= m <= 12 ->
  m = 1 \/ m = 2 \/ m = 3 \/ m = 4 \/ m = 5 \/ m = 6 \/ m = 7 \/ m = 8
  \/ m = 9 \/ m = 10 \/ m = 11 \/ m = 12.
Proof. lia. Qed.

Ltac each_month H :=
  apply month_cases in H;
  repeat (destruct H as [-> | H]); [.. | subst].

(** Evaluate the closed table look-ups and tests of the goal. *)
Ltac tables :=
  repeat match goal with
         | |- context [if ?c then ?a else ?b] =>
             let v := eval vm_compute in (if c then a else b) in
             progress change (if c then a else b) with v
         | |- context [nth (Z.to_nat ?k) ?T 0] =>
             let v := eval vm_compute in (nth (Z.to_nat k) T 0) in
             progress change (nth (Z.to_nat k) T 0) with v
         end.

(** Day of the year: between 1 and the length of the year. *)
Lemma day_of_year_bounds y m d :
  1 <= m <= 12 -> 1 <= d <= days_in_month y m ->
  1 <= days_before_month y m + d <= 365 + (if is_leap y then 1 else 0).
Proof.
intros Hm. unfold days_in_month, days_before_month.
each_month Hm; destruct (is_leap y); tables; lia.
Qed.

(** A later month starts after the last day of an earlier one. *)
Lemma month_order y m d m' :
  1 <= m <= 12 -> 1 <= m' <= 12 -> m < m' ->
  d <= days_in_month y m ->
  days_before_month y m + d <= days_before_month y m'.
Proof.
intros Hm Hm'. unfold days_in_month, days_before_month.
each_month Hm; each_month Hm'; destruct (is_leap y); tables; lia.
Qed.

(** On valid dates the order of the fields is the order of the days. *)
Lemma date_compare y m d y' m' d' :
  valid_date y m d -> valid_date y' m' d' ->
  thenc (y ?= y') (thenc (m ?= m') (d ?= d'))
  = (ymd2ord y m d ?= ymd2ord y' m' d').
Proof.
intros [Hm Hd] [Hm' Hd']. unfold ymd2ord.
pose proof (day_of_year_bounds y m d Hm Hd) as B.
pose proof (day_of_year_bounds y' m' d' Hm' Hd') as B'.
destruct (Z.compare_spec y y') as [Ey | Ly | Ly]; simpl.
- subst y'. destruct (Z.compare_spec m m') as [Em | Lm | Lm]; simpl.
  + subst m'. symmetry.
    destruct (Z.compare_spec d d'); [apply Z.compare_eq_iff
                                    | apply Z.compare_lt_iff
                                    | apply Z.compare_gt_iff]; lia.
  + symmetry. apply Z.compare_lt_iff.
    pose proof (month_order y m d m' Hm Hm' Lm ltac:(lia)). lia.
  + symmetry. apply Z.compare_gt_iff.
    pose proof (month_order y m' d' m Hm' Hm Lm ltac:(lia)). lia.
- symmetry. apply Z.compare_lt_iff.
  pose proof (days_before_year_step y).
  pose proof (days_before_year_mono (y + 1) y' ltac:(lia)). lia.
- symmetry. apply Z.compare_gt_iff.
  pose proof (days_before_year_step y').
  pose proof (days_before_year_mono (y' + 1) y ltac:(lia)). lia.
Qed.

Lemma thenc_assoc a b c : thenc (thenc a b) c = thenc a (thenc b c).
Proof. destruct a; reflexivity. Qed.

Lemma thenc_date_time y m d t :
  thenc y (thenc m (thenc d t)) = thenc (thenc y (thenc m d)) t.
Proof. destruct y, m; reflexivity. Qed.

Lemma time_of_day_bounds hh mm ss us :
  0 <= hh <= 23 -> 0 <= mm <= 59 -> 0 <= ss <= 59 -> 0 <= us <= 999999 ->
  0 <= hh * US_PER_HOUR + mm * (60 * US_PER_SECOND) + ss * US_PER_SECOND + us
  < US_PER_DAY.
Proof. unfold US_PER_DAY, US_PER_HOUR, US_PER_SECOND. lia. Qed.

Lemma time_compare hh mm ss us hh' mm' ss' us' :
  0 <= hh <= 23 -> 0 <= mm <= 59 -> 0 <= ss <= 59 -> 0 <= us <= 999999 ->
  0 <= hh' <= 23 -> 0 <= mm' <= 59 -> 0 <= ss' <= 59 -> 0 <= us' <= 999999 ->
  thenc (hh ?= hh') (thenc (mm ?= mm') (thenc (ss ?= ss') (us ?= us')))
  = (hh * US_PER_HOUR + mm * (60 * US_PER_SECOND) + ss * US_PER_SECOND + us
     ?= hh' * US_PER_HOUR + mm' * (60 * US_PER_SECOND) + ss' * US_PER_SECOND
        + us').
Proof.
intros. unfold US_PER_HOUR, US_PER_SECOND. symmetry.
destruct (Z.compare_spec hh hh'); simpl;
  [| apply Z.compare_lt_iff; lia | apply Z.compare_gt_iff; lia].
destruct (Z.compare_spec mm mm'); simpl;
  [| apply Z.compare_lt_iff; lia | apply Z.compare_gt_iff; lia].
destruct (Z.compare_spec ss ss'); simpl;
  [| apply Z.compare_lt_iff; lia | apply Z.compare_gt_iff; lia].
destruct (Z.compare_spec us us');
  [apply Z.compare_eq_iff | apply Z.compare_lt_iff | apply Z.compare_gt_iff];
  lia.
Qed.

Lemma valid_datetime_fields t :
  valid_datetime t = true ->
  (1 <= year t <= 9999) /\ valid_date (year t) (month t) (day t) /\
  0 <= hour t <= 23 /\ 0 <= minute t <= 59 /\ 0 <= second t <= 59 /\
  0 <= microsecond t <= 999999.
Proof.
unfold valid_datetime, valid_fields, between, valid_date, MINYEAR, MAXYEAR.
intros H.
repeat match goal with
       | H : _ && _ = true |- _ => apply andb_true_iff in H; destruct H
       | H : (_ <=? _) = true |- _ => apply Z.leb_le in H
       end.
repeat split; assumption.
Qed.

Lemma to_microseconds_split t :
  to_microseconds t
  = ymd2ord (year t) (month t) (day t) * US_PER_DAY + time_of_day t.
Proof. unfold to_microseconds, time_of_day. lia. Qed.

(** On valid timestamps the comparison of the fields is the comparison of
    the elapsed microseconds. *)
Lemma datetime_compare_spec a b :
  valid_datetime a = true -> valid_datetime b = true ->
  datetime_compare a b = (to_microseconds a ?= to_microseconds b).
Proof.
intros Ha Hb.
destruct (valid_datetime_fields a Ha) as [_ [Da [A1 [A2 [A3 A4]]]]].
destruct (valid_datetime_fields b Hb) as [_ [Db [B1 [B2 [B3 B4]]]]].
unfold datetime_compare.
rewrite thenc_date_time.
rewrite (date_compare _ _ _ _ _ _ Da Db).
rewrite (time_compare _ _ _ _ _ _ _ _ A1 A2 A3 A4 B1 B2 B3 B4).
rewrite !to_microseconds_split. unfold time_of_day.
pose proof (time_of_day_bounds _ _ _ _ A1 A2 A3 A4) as Ta.
pose proof (time_of_day_bounds _ _ _ _ B1 B2 B3 B4) as Tb.
assert (0 < US_PER_DAY) by (unfold US_PER_DAY, US_PER_HOUR, US_PER_SECOND; lia).
symmetry.
destruct (Z.compare_spec (ymd2ord (year a) (month a) (day a))
                         (ymd2ord (year b) (month b) (day b))) as [E | L | L];
  cbn [thenc].
- rewrite E. apply Z.add_compare_mono_l.
- apply Z.compare_lt_iff. nia.
- apply Z.compare_gt_iff. nia.
Qed.

Lemma datetime_le_spec a b :
  valid_datetime a = true -> valid_datetime b = true ->
  (datetime_le a b = true <-> to_microseconds a <= to_microseconds b).
Proof.
intros Ha Hb. unfold datetime_le. rewrite (datetime_compare_spec a b Ha Hb).
destruct (Z.compare_spec (to_microseconds a) (to_microseconds b));
  split; intros; try lia; try reflexivity; discriminate.
Qed.

(** Years counted in cycles of 400, 100, 4 and 1. *)
Lemma year_decomposition a b c e :
  0 <= b <= 3 -> 0 <= c <= 24 -> 0 <= e <= 3 ->
  days_before_year (400 * a + 100 * b + 4 * c + e + 1)
  = 146097 * a + 36524 * b + 1461 * c + 365 * e
  /\ is_leap (400 * a + 100 * b + 4 * c + e + 1)
     = (e =? 3) && (negb (c =? 24) || (b =? 3)).
Proof.
intros Hb Hc He. split.
- unfold days_before_year.
  replace (400 * a + 100 * b + 4 * c + e + 1 - 1)
    with (400 * a + 100 * b + 4 * c + e) by lia.
  Z.div_mod_to_equations. lia.
- destruct (is_leap (400 * a + 100 * b + 4 * c + e + 1)) eqn:E.
  + apply is_leap_spec in E. symmetry.
    apply andb_true_iff. rewrite orb_true_iff, negb_true_iff.
    rewrite !Z.eqb_eq, Z.eqb_neq.
    Z.div_mod_to_equations. lia.
  + assert (N : ~ ((400 * a + 100 * b + 4 * c + e + 1) mod 4 = 0 /\
                   ((400 * a + 100 * b + 4 * c + e + 1) mod 100 <> 0 \/
                    (400 * a + 100 * b + 4 * c + e + 1) mod 400 = 0)))
      by (rewrite <- is_leap_spec; congruence).
    symmetry. apply andb_false_iff. rewrite orb_false_iff, negb_false_iff.
    rewrite !Z.eqb_eq, !Z.eqb_neq.
    Z.div_mod_to_equations. lia.
Qed.

Lemma forallb_seq_below (f : nat -> bool) k :
  forallb f (seq 0 k) = true -> forall i, (i < k)%nat -> f i = true.
Proof.
intros H i Hi. rewrite forallb_forall in H. apply H. apply in_seq. lia.
Qed.

(** The month and day found inside a year are those of its [n]-th day. *)
Lemma month_day_correct (leap : bool) n :
  0 <= n <= 364 + (if leap then 1 else 0) -> month_day_ok leap n = true.
Proof.
intros H.
assert (A : forallb (fun i => month_day_ok leap (Z.of_nat i))
                    (seq 0 (if leap then 366 else 365)) = true)
  by (destruct leap; vm_compute; reflexivity).
replace n with (Z.of_nat (Z.to_nat n)) by lia.
apply (forallb_seq_below _ _ A). destruct leap; lia.
Qed.

Lemma month_day_spec y (leap : bool) n m d :
  is_leap y = leap -> 0 <= n <= 364 + (if leap then 1 else 0) ->
  month_day leap n = (m, d) ->
  valid_date y m d /\ days_before_month y m + d = n + 1.
Proof.
intros Hl Hn Hmd. pose proof (month_day_correct leap n Hn) as Hok.
unfold month_day_ok in Hok. rewrite Hmd in Hok.
unfold valid_date, days_in_month, days_before_month. rewrite Hl.
repeat match goal with
       | H : _ && _ = true |- _ => apply andb_true_iff in H; destruct H
       | H : (_ <=? _) = true |- _ => apply Z.leb_le in H
       | H : (_ =? _) = true |- _ => apply Z.eqb_eq in H
       end.
repeat split; assumption.
Qed.

Lemma ord2ymd_month_day n :
  ord2ymd n
  = (let n0 := n - 1 in
     let a := n0 / DI400Y in
     let r400 := n0 mod DI400Y in
     let b := r400 / DI100Y in
     let r100 := r400 mod DI100Y in
     let c := r100 / DI4Y in
     let r4 := r100 mod DI4Y in
     let e := r4 / 365 in
     let r1 := r4 mod 365 in
     let y := a * 400 + 1 + b * 100 + c * 4 + e in
     if (e =? 4) || (b =? 4) then (y - 1, 12, 31)
     else (y, fst (month_day ((e =? 3) && (negb (c =? 24) || (b =? 3))) r1),
              snd (month_day ((e =? 3) && (negb (c =? 24) || (b =? 3))) r1))).
Proof.
unfold ord2ymd, month_day. cbv zeta.
destruct ((((n - 1) mod DI400Y) mod DI100Y mod DI4Y / 365 =? 4)
          || ((n - 1) mod DI400Y / DI100Y =? 4)); [reflexivity |].
match goal with
| |- context [if ?c then _ else _] => destruct c
end; reflexivity.
Qed.

(** [ord2ymd] inverts [ymd2ord] and produces valid dates. *)
Lemma ord2ymd_correct n y m d :
  ord2ymd n = (y, m, d) -> ymd2ord y m d = n /\ valid_date y m d.
Proof.
rewrite ord2ymd_month_day. cbv zeta. unfold DI400Y, DI100Y, DI4Y.
pose proof (Z.div_mod (n - 1) 146097 ltac:(lia)) as E1.
pose proof (Z.mod_pos_bound (n - 1) 146097 ltac:(lia)) as B1.
set (a := (n - 1) / 146097) in *. set (r400 := (n - 1) mod 146097) in *.
pose proof (Z.div_mod r400 36524 ltac:(lia)) as E2.
pose proof (Z.mod_pos_bound r400 36524 ltac:(lia)) as B2.
set (b := r400 / 36524) in *. set (r100 := r400 mod 36524) in *.
pose proof (Z.div_mod r100 1461 ltac:(lia)) as E3.
pose proof (Z.mod_pos_bound r100 1461 ltac:(lia)) as B3.
set (c := r100 / 1461) in *. set (r4 := r100 mod 1461) in *.
pose proof (Z.div_mod r4 365 ltac:(lia)) as E4.
pose proof (Z.mod_pos_bound r4 365 ltac:(lia)) as B4.
set (e := r4 / 365) in *. set (r1 := r4 mod 365) in *.
assert (Hb : 0 <= b <= 4) by lia.
assert (Hc : 0 <= c <= 24) by lia.
assert (He : 0 <= e <= 4) by lia.
destruct ((e =? 4) || (b =? 4)) eqn:Special.
- intros H. inversion H; subst y m d. clear H.
  apply orb_true_iff in Special. rewrite !Z.eqb_eq in Special.
  assert (X : exists b' c',
             0 <= b' <= 3 /\ 0 <= c' <= 24 /\
             a * 400 + 1 + b * 100 + c * 4 + e - 1
             = 400 * a + 100 * b' + 4 * c' + 3 + 1 /\
             n = 146097 * a + 36524 * b' + 1461 * c' + 1461 /\
             (c' <> 24 \/ b' = 3)).
  { destruct (Z.eq_dec b 4) as [Eb | Nb].
    - exists 3, 24. lia.
    - exists b, c. lia. }
  destruct X as [b' [c' [Hb' [Hc' [Ey [En Hleap]]]]]].
  rewrite Ey.
  destruct (year_decomposition a b' c' 3 Hb' Hc' ltac:(lia)) as [D L].
  assert (L' : is_leap (400 * a + 100 * b' + 4 * c' + 3 + 1) = true).
  { rewrite L. apply andb_true_iff. split; [reflexivity |].
    apply orb_true_iff. rewrite negb_true_iff, Z.eqb_neq, Z.eqb_eq. exact Hleap. }
  unfold ymd2ord, valid_date, days_before_month, days_in_month.
  rewrite D, L'. tables. lia.
- intros H. inversion H as [[Hy Hm Hd]]. clear H.
  apply orb_false_iff in Special. rewrite !Z.eqb_neq in Special.
  assert (Hb' : 0 <= b <= 3) by lia. assert (He' : 0 <= e <= 3) by lia.
  destruct (year_decomposition a b c e Hb' Hc He') as [D L].
  replace (a * 400 + 1 + b * 100 + c * 4 + e)
    with (400 * a + 100 * b + 4 * c + e + 1) in * by lia.
  destruct (month_day_spec (400 * a + 100 * b + 4 * c + e + 1)
              ((e =? 3) && (negb (c =? 24) || (b =? 3))) r1 m d L)
    as [V S].
  + destruct ((e =? 3) && (negb (c =? 24) || (b =? 3))); lia.
  + rewrite <- Hm, <- Hd. apply surjective_pairing.
  + rewrite ?Hm, ?Hd. split; [| exact V]. unfold ymd2ord. rewrite D. lia.
Qed.

Lemma ord2ymd_year n y m d :
  1 <= n <= MAXORDINAL -> ord2ymd n = (y, m, d) -> 1 <= y <= 9999.
Proof.
intros Hn H. destruct (ord2ymd_correct n y m d H) as [E [Vm Vd]].
pose proof (day_of_year_bounds y m d Vm Vd) as B.
unfold ymd2ord in E. pose proof (days_before_year_step y) as S.
assert (D1 : days_before_year 1 = 0) by reflexivity.
assert (DM : days_before_year 10000 = MAXORDINAL) by reflexivity.
unfold MAXORDINAL in *.
destruct (Z_lt_le_dec y 1) as [Lo | Lo].
- pose proof (days_before_year_mono (y + 1) 1 ltac:(lia)).
  destruct (is_leap y); lia.
- destruct (Z_lt_le_dec 9999 y) as [Hi | Hi]; [| lia].
  pose proof (days_before_year_mono 10000 y ltac:(lia)). lia.
Qed.

(** [datetime_add] adds the elapsed time and keeps timestamps valid. *)
Lemma datetime_add_spec t delta t' :
  datetime_add t delta = Ok t' ->
  to_microseconds t' = to_microseconds t + delta /\ valid_datetime t' = true.
Proof.
unfold datetime_add.
set (total := to_microseconds t + delta).
destruct ((0 <? total / US_PER_DAY) && (total / US_PER_DAY <=? MAXORDINAL))
  eqn:R; [| discriminate].
apply andb_true_iff in R. destruct R as [R1 R2].
apply Z.ltb_lt in R1. apply Z.leb_le in R2.
destruct (ord2ymd (total / US_PER_DAY)) as [[y m] d] eqn:O.
intros H. inversion H; subst t'. clear H.
destruct (ord2ymd_correct _ _ _ _ O) as [E [Vm Vd]].
assert (Vy : 1 <= y <= 9999)
  by (apply (ord2ymd_year (total / US_PER_DAY) y m d); [lia | exact O]).
assert (P : 0 < US_PER_DAY)
  by (unfold US_PER_DAY, US_PER_HOUR, US_PER_SECOND; lia).
pose proof (Z.div_mod total US_PER_DAY ltac:(lia)) as DM.
pose proof (Z.mod_pos_bound total US_PER_DAY P) as MB.
set (rest := total mod US_PER_DAY) in *.
unfold US_PER_DAY, US_PER_HOUR, US_PER_SECOND in *.
split.
- unfold to_microseconds at 1. simpl year. simpl month. simpl day.
  simpl hour. simpl minute. simpl second. simpl microsecond.
  rewrite E. unfold US_PER_DAY, US_PER_HOUR, US_PER_SECOND.
  Z.div_mod_to_equations. lia.
- unfold valid_datetime, valid_fields, between, MINYEAR, MAXYEAR.
  simpl year. simpl month. simpl day.
  simpl hour. simpl minute. simpl second. simpl microsecond.
  repeat (apply andb_true_iff; split); apply Z.leb_le; try lia;
    Z.div_mod_to_equations; lia.
Qed.

Set Implicit Arguments.

(* ================================================================== *)
(** * Properties of the scan *)
(* ================================================================== *)

Section ScanLemmas.

Context {B : Type} {BR : Browser B}.

Lemma is_submitted_none p (w : World B) :
  is_submitted p None w
  = (Raise (library_error PlaywrightError),
     add_event (EvGoto p None false) w).
Proof. reflexivity. Qed.

(** One navigation per classification, to the link it was given. *)
Lemma is_submitted_log p lnk (w : World B) r w' :
  is_submitted p lnk w = (r, w') ->
  exists loaded, log w' = log w ++ [EvGoto p lnk loaded] /\
                 (loaded = false -> exists e, r = Raise e /\
                                              nav_error e = true).
Proof.
  unfold is_submitted, bind. destruct lnk as [u |]; simpl.
  - unfold call. destruct (br_goto p u (browser w)) as [[[] | |] b1]; simpl.
    + destruct (br_wait_for_load_state p DomContentLoaded b1)
        as [[[] | |] b2]; simpl;
        [destruct (br_content p b2) as [[html | |] b3]; simpl | |];
        intros H; inversion H; subst; simpl; exists true;
        (split; [reflexivity | discriminate]).
    + intros H. inversion H; subst. simpl. exists false.
      split; [reflexivity |]. intros _. eexists. split; reflexivity.
    + intros H. inversion H; subst. simpl. exists false.
      split; [reflexivity |]. intros _. eexists. split; reflexivity.
  - intros H. inversion H; subst. simpl. exists false.
    split; [reflexivity |]. intros _. eexists. split; reflexivity.
Qed.

Lemma is_submitted_unloaded p u (w : World B) :
  fst (br_goto p u (browser w)) <> Done tt ->
  exists e w', is_submitted p (Some u) w = (Raise e, w') /\
               nav_error e = true.
Proof.
  unfold is_submitted, bind. simpl. unfold call.
  destruct (br_goto p u (browser w)) as [[[] | |] b1]; simpl; intros H.
  - congruence.
  - eexists. eexists. split; reflexivity.
  - eexists. eexists. split; reflexivity.
Qed.

Lemma classify_propagates p thr t rest acc (w : World B) e w1 :
  in_window thr t = true ->
  is_submitted p (link t) w = (Raise e, w1) ->
  classify p thr (t :: rest) acc w = (Raise e, w1).
Proof. intros Hw Hs. simpl. rewrite Hw. unfold bind. rewrite Hs. reflexivity. Qed.

Lemma gotos_app d1 d2 : gotos (d1 ++ d2) = gotos d1 ++ gotos d2.
Proof.
  induction d1 as [| e d1 IH]; simpl; [reflexivity |].
  destruct e; simpl; rewrite ?IH; reflexivity.
Qed.

(** The loop classifies exactly the entries inside the window, in
    timeline order; when it is cut short by an exception it has
    classified a prefix of them. *)
Lemma classify_visits p thr ups :
  forall acc (w : World B) r w',
    classify p thr ups acc w = (r, w') ->
    exists d, log w' = log w ++ d /\
              match r with
              | Ok _ => gotos d = map link (filter (in_window thr) ups)
              | Raise _ =>
                  exists rest,
                    map link (filter (in_window thr) ups) = gotos d ++ rest
              end.
Proof.
  induction ups as [| t rest IH]; intros acc w r w' H; simpl in H.
  - inversion H; subst. exists []. rewrite app_nil_r. auto.
  - simpl. destruct (in_window thr t) eqn:Ew.
    + destruct (bind_inv _ _ _ H) as [[e [E ->]] | [s [w1 [E1 E2]]]].
      * destruct (is_submitted_log _ _ _ E) as [ld [L _]].
        exists [EvGoto p (link t) ld]. split; [exact L |].
        simpl. eexists. reflexivity.
      * destruct (is_submitted_log _ _ _ E1) as [ld [L _]].
        assert (X : exists d, log w' = log w1 ++ d /\
                  match r with
                  | Ok _ => gotos d = map link (filter (in_window thr) rest)
                  | Raise _ =>
                      exists tl, map link (filter (in_window thr) rest)
                                 = gotos d ++ tl
                  end)
          by (destruct (negb s); eapply IH; eassumption).
        destruct X as [d [L2 G]].
        exists (EvGoto p (link t) ld :: d). rewrite L2, L, <- app_assoc.
        split; [reflexivity |]. simpl. destruct r.
        -- rewrite G. reflexivity.
        -- destruct G as [tl G]. exists tl. rewrite G. reflexivity.
    + eapply IH. eassumption.
Qed.

(** Entries without a due date are invisible to the loop. *)
Lemma classify_erasure p thr ups :
  forall acc (w : World B),
    classify p thr ups acc w = classify p thr (filter has_due ups) acc w.
Proof.
  induction ups as [| t rest IH]; intros acc w; simpl; [reflexivity |].
  destruct (has_due t) eqn:Eh.
  - simpl. destruct (in_window thr t); [| apply IH].
    unfold bind. destruct (is_submitted p (link t) w) as [[s | e] w1];
      [| reflexivity].
    destruct (negb s); apply IH.
  - assert (Ew : in_window thr t = false)
      by (unfold in_window, has_due in *; destruct (due t); congruence).
    rewrite Ew. apply IH.
Qed.

Lemma in_window_has_due thr t : in_window thr t = true -> has_due t = true.
Proof. unfold in_window, has_due. destruct (due t); congruence. Qed.

Lemma all_in_window_have_due thr alerts :
  Forall (fun t => in_window thr t = true) alerts ->
  forallb has_due alerts = true.
Proof.
  induction 1 as [| t l Ht _ IH]; simpl; [reflexivity |].
  rewrite (in_window_has_due _ _ Ht). exact IH.
Qed.

Lemma existsb_app_true_inv {A} (f : A -> bool) l1 l2 :
  existsb f (l1 ++ l2) = true -> existsb f l2 = false ->
  existsb f l1 = true.
Proof.
  rewrite existsb_app. intros H1 H2. rewrite H2, orb_false_r in H1.
  exact H1.
Qed.

End ScanLemmas.

(* ================================================================== *)
(** * The scan against the contract's wording of the at-risk entries *)
(* ================================================================== *)

Section StripLemmas.

Variable U : UnicodeData.

Lemma lstrip_head s c r : lstrip U s = c :: r -> isspace U c = false.
Proof.
induction s as [| a s IH]; simpl; [discriminate |].
destruct (isspace U a) eqn:E; [exact IH |].
intros H. inversion H; subst. exact E.
Qed.

Lemma lstrip_keeps_last l c :
  isspace U c = false -> exists l', lstrip U (l ++ [c]) = l' ++ [c].
Proof.
intros Hc. induction l as [| a l IH]; simpl.
- rewrite Hc. exists []. reflexivity.
- destruct (isspace U a); [exact IH |]. exists (a :: l). reflexivity.
Qed.

Lemma strip_trimmed s : trimmed U (strip U s).
Proof.
unfold trimmed, strip. rewrite rev_involutive. split.
- destruct (lstrip U s) as [| c r] eqn:E; [exact I |].
  pose proof (lstrip_head _ E) as Hc. simpl rev.
  destruct (@lstrip_keeps_last (rev r) c Hc) as [l' ->].
  rewrite rev_app_distr. simpl. exact Hc.
- destruct (lstrip U (rev (lstrip U s))) as [| c r] eqn:E; [exact I |].
  exact (lstrip_head _ E).
Qed.

Lemma lstrip_fixed s :
  match s with
  | [] => True
  | c :: _ => isspace U c = false
  end -> lstrip U s = s.
Proof. destruct s as [| c s]; simpl; [auto |]. intros ->. reflexivity. Qed.

Lemma strip_fixed s : trimmed U s -> strip U s = s.
Proof.
intros [H1 H2]. unfold strip. rewrite (@lstrip_fixed s H1).
rewrite (@lstrip_fixed (rev s) H2). apply rev_involutive.
Qed.

(** A timestamp that [parse_due_date] returns has passed the checks of
    the constructor. *)
Lemma parse_due_date_valid text t :
  parse_due_date U text = Ok (Some t) -> valid_datetime t = true.
Proof.
unfold parse_due_date.
assert (K : forall y m d hh mm,
          (rbind (new_datetime y m d hh mm 0 0) (fun t => Ok (Some t)))
          = Ok (Some t) -> valid_datetime t = true).
{ intros y m d hh mm H.
  destruct (new_datetime y m d hh mm 0 0) as [t' | e] eqn:E;
    [| discriminate].
  simpl in H. inversion H; subst t'.
  destruct (new_datetime_ok _ _ _ _ _ _ _ E) as [V ->]. exact V. }
destruct (search U false jp_pattern text) as [jp |].
- intros H.
  repeat match type of H with
         | rbind (int_of ?u ?s) _ = _ =>
             destruct (int_of u s); simpl in H; [| discriminate]
         end.
  exact (K _ _ _ _ _ H).
- destruct (search U true en_pattern text) as [en |]; [| discriminate].
  cbv zeta. intros H.
  destruct (strptime_b_month _ _); simpl in H; [| discriminate].
  repeat match type of H with
         | rbind (int_of ?u ?s) _ = _ =>
             destruct (int_of u s); simpl in H; [| discriminate]
         end.
  exact (K _ _ _ _ _ H).
Qed.

End StripLemmas.

Section Contract.

Context {B : Type} {BR : Browser B}.

Lemma call_inv {A} (op : B -> outcome A * B) (w : World B) a w' :
  call op w = (Ok a, w') ->
  op (browser w) = (Done a, browser w') /\ log w' = log w.
Proof.
unfold call. destruct (op (browser w)) as [[x | |] b']; simpl;
  intros H; inversion H; subst. auto.
Qed.

(** What [fetch_items] returns, item by item. *)
Lemma fetch_items_result U p items : forall (w : World B) ups w',
  fetch_items U p items w = (Ok ups, w') ->
  reads_timeline U p (browser w) items ups (browser w').
Proof.
induction items as [| itm rest IH]; intros w ups w' H; simpl in H.
- unfold ret in H. inversion H; subst. constructor.
- destruct (bind_inv _ _ _ H) as [[e [_ X]] | [text [w1 [E0 E1]]]];
    [discriminate |]. clear H.
  destruct (bind_inv _ _ _ E1) as [[e [_ X]] | [href [w2 [Eh E2]]]];
    [discriminate |]. clear E1.
  destruct (bind_inv _ _ _ E2) as [[e [_ X]] | [d [w3 [Ed E3]]]];
    [discriminate |]. clear E2.
  unfold lift in Ed. inversion Ed as [[Ep Ew]]. subst w3. clear Ed.
  destruct (bind_inv _ _ _ E3) as [[e [_ X]] | [tasks [w4 [Et E4]]]];
    [discriminate |]. clear E3.
  unfold ret in E4. inversion E4; subst.
  destruct (call_inv _ _ E0) as [X0 _]. destruct (call_inv _ _ Eh) as [Xh _].
  eapply reads_item; [exact X0 | exact Xh | exact Ep |].
  exact (IH _ _ _ Et).
Qed.

Lemma fetch_upcoming_items U p (w : World B) ups w' :
  fetch_upcoming U p w = (Ok ups, w') ->
  exists w0 items b1,
    bind (page_goto p (Some DASHBOARD_URL))
         (fun _ => call (br_wait_for_selector p SelTimeline)) w
    = (Ok tt, w0) /\
    br_all p SelTimelineItem (browser w0) = (Done items, b1) /\
    reads_timeline U p b1 items ups (browser w').
Proof.
intros H. unfold fetch_upcoming in H.
destruct (bind_inv _ _ _ H) as [[e [_ X]] | [[] [w1 [E0 E1]]]];
  [discriminate |]. clear H.
destruct (bind_inv _ _ _ E1) as [[e [_ X]] | [[] [w2 [Ew E2]]]];
  [discriminate |]. clear E1.
destruct (bind_inv _ _ _ E2) as [[e [_ X]] | [items [w3 [Ea E3]]]];
  [discriminate |]. clear E2.
destruct (call_inv _ _ Ea) as [Xa _].
exists w2, items, (browser w3). split; [| split].
- unfold bind. rewrite E0. exact Ew.
- exact Xa.
- exact (fetch_items_result _ _ _ _ E3).
Qed.

Lemma reads_timeline_parsed U p b items ups b' :
  reads_timeline U p b items ups b' ->
  length ups = length items /\
  Forall (fun t => parse_due_date U (label t) = Ok (due t) /\
                   trimmed U (label t)) ups.
Proof.
induction 1 as [| b itm text b1 href b2 d items ts b3 H1 H2 H3 _ [IHl IHf]].
- split; [reflexivity | constructor].
- split; [simpl; congruence |]. constructor; [| exact IHf].
  simpl. split; [exact H3 | apply strip_trimmed].
Qed.

(** Every due date of the timeline is a valid timestamp. *)
Lemma fetch_upcoming_valid U p (w : World B) ups w' :
  fetch_upcoming U p w = (Ok ups, w') ->
  forall t d, In t ups -> due t = Some d -> valid_datetime d = true.
Proof.
intros H t d Hi Hd.
destruct (fetch_upcoming_items _ _ _ H) as [w0 [items [b1 [_ [_ R]]]]].
destruct (reads_timeline_parsed R) as [_ X].
rewrite Forall_forall in X. destruct (X t Hi) as [P _]. rewrite Hd in P.
exact (parse_due_date_valid _ _ P).
Qed.

(** On valid timestamps the window test of the loop is the comparison
    of elapsed microseconds. *)
Lemma in_window_within t0 h thr t :
  to_microseconds thr = to_microseconds t0 + h * US_PER_HOUR ->
  valid_datetime thr = true ->
  (forall d, due t = Some d -> valid_datetime d = true) ->
  in_window thr t = within_window t0 h t.
Proof.
intros Et Vt Vd. unfold in_window, within_window.
destruct (due t) as [d |]; [| reflexivity].
rewrite <- Et. pose proof (datetime_le_spec d thr (Vd d eq_refl) Vt) as S.
destruct (datetime_le d thr); destruct (Z.leb_spec (to_microseconds d)
                                          (to_microseconds thr));
  try reflexivity.
- destruct S as [S _]. specialize (S eq_refl). lia.
- destruct S as [_ S]. specialize (S ltac:(lia)). discriminate.
Qed.

(** The loop of [run] is: check the entries inside the window in turn,
    keep those answered "not submitted". *)
Lemma classify_checks p thr ups : forall acc (w : World B),
  classify p thr ups acc w
  = bind (submission_checks p (filter (in_window thr) ups))
         (fun answers =>
            ret (acc ++ unsubmitted (filter (in_window thr) ups) answers)) w.
Proof.
induction ups as [| t rest IH]; intros acc w; simpl.
- unfold bind, ret. simpl. rewrite app_nil_r. reflexivity.
- destruct (in_window thr t); [| apply IH].
  simpl. unfold bind at 1 2 3.
  destruct (is_submitted p (link t) w) as [[s | e] w1]; [| reflexivity].
  destruct s; simpl; rewrite IH; unfold bind, ret;
    destruct (submission_checks p (filter (in_window thr) rest) w1)
      as [[bs | e] w2]; try reflexivity.
  rewrite <- app_assoc. reflexivity.
Qed.

Lemma trunc_hours h delta :
  timedelta_hours h = Ok delta -> delta = h * US_PER_HOUR.
Proof.
unfold timedelta_hours, timedelta.
destruct (between _ _ _); [congruence | discriminate].
Qed.

(** One scan, once the timeline is read and the threshold computed:
    the at-risk entries of the contract, then their delivery. *)
Lemma run_by_contract U h (w : World B) p w1 ups w2 delta thr :
  login w = (Ok p, w1) ->
  fetch_upcoming U p w1 = (Ok ups, w2) ->
  timedelta_hours h = Ok delta ->
  datetime_add (clock w2 (ticks w2)) delta = Ok thr ->
  to_microseconds thr
  = to_microseconds (clock w2 (ticks w2)) + h * US_PER_HOUR
  /\ filter (in_window thr) ups
     = filter (within_window (clock w2 (ticks w2)) h) ups
  /\ classify p thr ups [] (tick w2)
     = at_risk_by_contract p (clock w2 (ticks w2)) h ups (tick w2)
  /\ run U h w
     = bind (at_risk_by_contract p (clock w2 (ticks w2)) h ups) deliver
            (tick w2).
Proof.
intros Hl Hf Hd Ha.
pose proof (trunc_hours _ Hd) as Ed. subst delta.
destruct (datetime_add_spec _ _ _ Ha) as [Et Vt].
assert (F : filter (in_window thr) ups
            = filter (within_window (clock w2 (ticks w2)) h) ups).
{ apply filter_ext_in. intros t Hi. apply in_window_within; try assumption.
  intros d Hd'. exact (@fetch_upcoming_valid U p w1 ups w2 Hf t d Hi Hd'). }
assert (C : classify p thr ups [] (tick w2)
            = at_risk_by_contract p (clock w2 (ticks w2)) h ups (tick w2)).
{ rewrite classify_checks. unfold at_risk_by_contract. rewrite F.
  reflexivity. }
split; [exact Et |]. split; [exact F |]. split; [exact C |].
transitivity (match classify p thr ups [] (tick w2) with
              | (Ok a, w') => deliver a w'
              | (Raise e, w') => (Raise e, w')
              end).
- unfold run, deliver. unfold bind at 1. rewrite Hl.
  unfold bind at 1. rewrite Hf. unfold bind at 1, now. cbv beta iota.
  unfold bind at 1, lift. rewrite Hd. unfold bind at 1. rewrite Ha.
  reflexivity.
- rewrite C. reflexivity.
Qed.

(** The stages behind a result of [scan_entries]. *)
Lemma scan_entries_inv U h (w : World B) ups thr alerts w4 :
  scan_entries U h w = (Ok (ups, thr, alerts), w4) ->
  exists p w1 w2 delta,
    login w = (Ok p, w1) /\
    fetch_upcoming U p w1 = (Ok ups, w2) /\
    timedelta_hours h = Ok delta /\
    datetime_add (clock w2 (ticks w2)) delta = Ok thr /\
    classify p thr ups [] (tick w2) = (Ok alerts, w4).
Proof.
unfold scan_entries. intros E.
destruct (bind_inv _ _ _ E) as [[e [_ X]] | [p [w1 [E1 E']]]];
  [discriminate |]. clear E.
destruct (bind_inv _ _ _ E') as [[e [_ X]] | [ups' [w2 [E2 E]]]];
  [discriminate |]. clear E'.
destruct (bind_inv _ _ _ E) as [[e [_ X]] | [t0 [w3 [E3 E']]]];
  [discriminate |]. clear E.
unfold now in E3. inversion E3; subst t0 w3. clear E3.
destruct (bind_inv _ _ _ E') as [[e [_ X]] | [delta [w3 [E4 E]]]];
  [discriminate |]. clear E'.
unfold lift in E4. inversion E4 as [[E4' Ew]]. subst w3. clear E4.
destruct (bind_inv _ _ _ E) as [[e [_ X]] | [thr' [w3 [E5 E']]]];
  [discriminate |]. clear E.
unfold lift in E5. inversion E5 as [[E5' Ew]]. subst w3. clear E5.
destruct (bind_inv _ _ _ E') as [[e [_ X]] | [alerts' [w5 [E6 E]]]];
  [discriminate |]. clear E'.
unfold ret in E. inversion E; subst.
exists p, w1, w2, delta. auto.
Qed.

Lemma scan_entries_stages U h (w : World B) p w1 ups w2 delta thr :
  login w = (Ok p, w1) ->
  fetch_upcoming U p w1 = (Ok ups, w2) ->
  timedelta_hours h = Ok delta ->
  datetime_add (clock w2 (ticks w2)) delta = Ok thr ->
  scan_entries U h w
  = match classify p thr ups [] (tick w2) with
    | (Ok a, w') => (Ok (ups, thr, a), w')
    | (Raise e, w') => (Raise e, w')
    end.
Proof.
intros Hl Hf Hd Ha. unfold scan_entries. unfold bind at 1. rewrite Hl.
unfold bind at 1. rewrite Hf. unfold bind at 1, now. cbv beta iota.
unfold bind at 1, lift. rewrite Hd. unfold bind at 1. rewrite Ha.
unfold bind, ret. destruct (classify p thr ups [] (tick w2)) as [[a | e] w'];
  reflexivity.
Qed.

(** The log of one scan, with the list the notifier is given. *)
Lemma run_trace U h (w : World B) r w' :
  run U h w = (r, w') ->
  exists d1 d2,
    log w' = log w ++ d1 ++ d2 /\ forallb is_browse d1 = true /\
    ((exists e, r = Raise e /\ scan_entries U h w = (Raise e, w') /\
                d2 = []) \/
     (exists ups thr alerts w4,
         scan_entries U h w = (Ok (ups, thr, alerts), w4) /\
         log w4 = log w ++ d1 /\
         deliver alerts w4 = (r, w') /\
         gotos d2 = [] /\
         notify_calls d2 = (if nonempty alerts then [alerts] else []) /\
         (forall n, r = Ok n -> n = Z.of_nat (length alerts)))).
Proof.
rewrite run_split. intros H.
destruct (bind_inv _ _ _ H)
  as [[e [E ->]] | [[[ups thr] alerts] [w4 [E Hd]]]].
- destruct (browses_scan_entries U h _ E) as [d [L [F _]]].
  exists d, []. rewrite app_nil_r. split; [exact L |].
  split; [exact F |]. left. exists e. auto.
- destruct (browses_scan_entries U h _ E) as [d [L [F _]]].
  simpl in Hd. destruct (deliver_log _ _ Hd) as [d2 [L2 [G [N C]]]].
  exists d, d2. rewrite L2, L, app_assoc. split; [reflexivity |].
  split; [exact F |]. right. exists ups, thr, alerts, w4. auto 10.
Qed.

(** ** The at-risk list as a part of the timeline *)

Lemma subseq_nil_l {A} (l : list A) : subseq [] l.
Proof. induction l; constructor; assumption. Qed.

Lemma subseq_length {A} (l1 l2 : list A) :
  subseq l1 l2 -> (length l1 <= length l2)%nat.
Proof. induction 1; simpl; lia. Qed.

Lemma subseq_filter {A} (f : A -> bool) (l : list A) : subseq (filter f l) l.
Proof.
induction l as [| x l IH]; simpl; [constructor |].
destruct (f x); [apply subseq_keep | apply subseq_skip]; exact IH.
Qed.

Lemma subseq_trans {A} (l1 l2 l3 : list A) :
  subseq l1 l2 -> subseq l2 l3 -> subseq l1 l3.
Proof.
intros H12 H23. revert l1 H12.
induction H23 as [| x l2 l3 H IH | x l2 l3 H IH]; intros l1 H12.
- exact H12.
- constructor. apply IH. exact H12.
- inversion H12; subst.
  + apply subseq_skip. apply IH. assumption.
  + apply subseq_keep. apply IH. assumption.
Qed.

Lemma unsubmitted_subseq ts : forall answers,
  subseq (unsubmitted ts answers) ts.
Proof.
induction ts as [| t ts IH]; intros [| a answers]; simpl;
  try apply subseq_nil_l.
destruct a; [apply subseq_skip | apply subseq_keep]; apply IH.
Qed.

Lemma at_risk_subseq p t0 h ups (w : World B) alerts w' :
  at_risk_by_contract p t0 h ups w = (Ok alerts, w') ->
  subseq alerts (filter (within_window t0 h) ups).
Proof.
unfold at_risk_by_contract. intros H.
destruct (bind_inv _ _ _ H) as [[e [_ X]] | [answers [w1 [_ E]]]];
  [discriminate |].
unfold ret in E. inversion E; subst. apply unsubmitted_subseq.
Qed.

(** One scan after the timeline is read: the links it visits and the
    list it notifies. *)
Lemma run_at_risk U h (w : World B) p w1 ups w2 delta thr r w' :
  login w = (Ok p, w1) ->
  fetch_upcoming U p w1 = (Ok ups, w2) ->
  timedelta_hours h = Ok delta ->
  datetime_add (clock w2 (ticks w2)) delta = Ok thr ->
  run U h w = (r, w') ->
  exists d,
    log w' = log w2 ++ d /\
    match r with
    | Ok _ =>
        gotos d
        = map link (filter (within_window (clock w2 (ticks w2)) h) ups)
    | Raise _ =>
        exists rest,
          map link (filter (within_window (clock w2 (ticks w2)) h) ups)
          = gotos d ++ rest
    end /\
    (forall alerts w4,
        at_risk_by_contract p (clock w2 (ticks w2)) h ups (tick w2)
        = (Ok alerts, w4) ->
        deliver alerts w4 = (r, w') /\
        notify_calls d = (if nonempty alerts then [alerts] else [])) /\
    (forall n, r = Ok n ->
        exists alerts w4,
          at_risk_by_contract p (clock w2 (ticks w2)) h ups (tick w2)
          = (Ok alerts, w4) /\
          n = Z.of_nat (length alerts)).
Proof.
intros Hl Hf Hd Ha Hr.
destruct (run_by_contract U h w Hl Hf Hd Ha) as [_ [Ef [Ec Er]]].
rewrite Er in Hr. unfold bind in Hr. rewrite <- Ec in *. rewrite <- Ef.
destruct (classify p thr ups [] (tick w2)) as [[al | e] w4] eqn:Ek.
- destruct (classify_visits _ _ _ _ _ Ek) as [d1 [L1 G1]].
  destruct (browses_classify p thr ups [] _ Ek) as [d1' [L1' [F1 _]]].
  rewrite L1 in L1'. apply app_inv_head in L1'. subst d1'.
  destruct (deliver_log _ _ Hr) as [d2 [L2 [G2 [N2 C2]]]].
  exists (d1 ++ d2). rewrite L2, L1, app_assoc. split; [reflexivity |].
  rewrite gotos_app, G2, app_nil_r. split; [| split].
  + destruct r; [exact G1 |]. exists []. rewrite app_nil_r.
    symmetry. exact G1.
  + intros alerts w4' E. inversion E; subst. split; [exact Hr |].
    rewrite notify_calls_app, (browse_no_notify _ F1). exact N2.
  + intros n Hn. exists al, w4. split; [reflexivity | exact (C2 n Hn)].
- inversion Hr; subst.
  destruct (classify_visits _ _ _ _ _ Ek) as [d1 [L1 G1]].
  exists d1. split; [exact L1 |]. split; [exact G1 |]. split.
  + intros alerts w4' E. discriminate.
  + intros n Hn. discriminate.
Qed.

End Contract.

(* ================================================================== *)
(** * The scan: page handle, notification, window, navigation errors *)
(* ================================================================== *)

(** C1 (the property fails on the code; this theorem states what [run]
    does).  No scan ever closes a page: for every browser, window size and
    starting world the number of [page.close()] calls in the log is the
    same after [run] as before.  In the scenario of
    [tests/test_run_closes_page.py] the scan returns 1 with one page opened
    and none closed, and three rounds of the watch loop leave three pages
    open. *)
Theorem run_never_closes_page :
  (forall B (BR : Browser B) U h (w : World B),
      closes (log (snd (run U h w))) = closes (log w))
  /\ (fst (run ascii_ucd 2 Scenario.w_test) = Ok 1
      /\ opens (log (snd (run ascii_ucd 2 Scenario.w_test))) = 1%nat
      /\ closes (log (snd (run ascii_ucd 2 Scenario.w_test))) = 0%nat
      /\ Sim.closed (browser (snd (run ascii_ucd 2 Scenario.w_test))) = [])
  /\ (fst (watch ascii_ucd 3 2 Scenario.w_test) = Ok [1; 1; 1]
      /\ opens (log (snd (watch ascii_ucd 3 2 Scenario.w_test))) = 3%nat
      /\ closes (log (snd (watch ascii_ucd 3 2 Scenario.w_test))) = 0%nat).
Proof.
  split; [| split; vm_compute; repeat split; reflexivity].
  intros B BR U h w. destruct (run U h w) as [r w'] eqn:E. simpl.
  destruct (run_log _ _ _ E) as [d1 [d2 [L [Fb C]]]].
  rewrite L, !closes_app. unfold closes at 2 3.
  rewrite (browse_not_close _ Fb).
  assert (X : filter is_close d2 = []).
  { destruct C as [[-> _] | [_ [thr [al [_ [[_ [-> _]] | [_ [[d [-> Fd]] _]]]]]]]];
      try reflexivity.
    simpl. apply delivery_not_close. exact Fd. }
  rewrite X. simpl. lia.
Qed.

(** C4.  Whatever a scan does, it calls the notifier at most once.  When
    the scan returns the count [n], the at-risk entries as the contract
    words them (the entries of the timeline due not later than the clock
    reading plus the window, submitted to the classifier in turn and
    answered "not submitted") number [n], and the notifier was called
    exactly once with that whole list if [n >= 1] (not once per entry, and
    not with a part of the list), and not at all if [n = 0].  The same
    holds of the call when the notifier itself raises. *)
Theorem notify_once_with_all_alerts :
  forall B (BR : Browser B) U h (w : World B) r w',
    run U h w = (r, w') ->
    exists d,
      log w' = log w ++ d /\
      (length (notify_calls d) <= 1)%nat /\
      (forall n, r = Ok n ->
        (1 <= n -> exists alerts, notify_calls d = [alerts] /\
                                  Z.of_nat (length alerts) = n) /\
        (n = 0 -> notify_calls d = []) /\
        exists p w1 ups w2 alerts w4,
          login w = (Ok p, w1) /\
          fetch_upcoming U p w1 = (Ok ups, w2) /\
          at_risk_by_contract p (clock w2 (ticks w2)) h ups (tick w2)
          = (Ok alerts, w4) /\
          Z.of_nat (length alerts) = n /\
          notify_calls d = (if nonempty alerts then [alerts] else [])) /\
      (forall p w1 ups w2 delta thr alerts w4,
          login w = (Ok p, w1) ->
          fetch_upcoming U p w1 = (Ok ups, w2) ->
          timedelta_hours h = Ok delta ->
          datetime_add (clock w2 (ticks w2)) delta = Ok thr ->
          at_risk_by_contract p (clock w2 (ticks w2)) h ups (tick w2)
          = (Ok alerts, w4) ->
          notify_calls d = (if nonempty alerts then [alerts] else [])).
Proof.
  intros B BR U h w r w' E.
  destruct (run_trace _ _ _ E) as [d1 [d2 [L [Fb C]]]].
  exists (d1 ++ d2). split; [exact L |].
  rewrite notify_calls_app, (browse_no_notify _ Fb). simpl.
  destruct C as [[e [-> [Es ->]]]
                | [ups [thr [al [w4 [Es [L1 [Hd [_ [N Hn]]]]]]]]]].
  - simpl. split; [lia |]. split; [intros n Hn; discriminate |].
    intros p w1 ups w2 delta thr alerts w4 Hl Hf Hdl Ha Hc.
    destruct (run_by_contract U h w Hl Hf Hdl Ha) as [_ [_ [Ec _]]].
    rewrite (scan_entries_stages U h w Hl Hf Hdl Ha), Ec, Hc in Es.
    discriminate.
  - destruct (scan_entries_inv _ _ _ Es)
      as [p [w1 [w2 [delta [Hl [Hf [Hdl [Ha Hc]]]]]]]].
    destruct (run_by_contract U h w Hl Hf Hdl Ha) as [_ [_ [Ec _]]].
    rewrite N. split; [destruct (nonempty al); simpl; lia |]. split.
    + intros n Hr. specialize (Hn n Hr). split; [| split].
      * intros H1. exists al. destruct al; [simpl in Hn; lia |].
        split; [reflexivity | symmetry; exact Hn].
      * intros H0. destruct al; [reflexivity | simpl in Hn; lia].
      * exists p, w1, ups, w2, al, w4. rewrite <- Ec.
        repeat split; try assumption. symmetry. exact Hn.
    + intros p' w1' ups' w2' delta' thr' alerts' w4' Hl' Hf' Hdl' Ha' Hc'.
      rewrite Hl in Hl'. inversion Hl'; subst p' w1'.
      rewrite Hf in Hf'. inversion Hf'; subst ups' w2'.
      rewrite <- Ec, Hdl in *. inversion Hdl'; subst delta'.
      rewrite Ha in Ha'. inversion Ha'; subst thr'.
      rewrite Hc in Hc'. inversion Hc'; subst. reflexivity.
Qed.

Lemma notify_once_with_all_alerts_witness :
  run ascii_ucd 48 Scenario.w_mixed
  = (fst (run ascii_ucd 48 Scenario.w_mixed),
     snd (run ascii_ucd 48 Scenario.w_mixed))
  /\ fst (run ascii_ucd 48 Scenario.w_mixed) = Ok 2
  /\ exists d,
      log (snd (run ascii_ucd 48 Scenario.w_mixed))
      = log Scenario.w_mixed ++ d /\
      (length (notify_calls d) <= 1)%nat /\
      exists p w1 ups w2 alerts w4,
        login Scenario.w_mixed = (Ok p, w1) /\
        fetch_upcoming ascii_ucd p w1 = (Ok ups, w2) /\
        at_risk_by_contract p (clock w2 (ticks w2)) 48 ups (tick w2)
        = (Ok alerts, w4) /\
        Z.of_nat (length alerts) = 2 /\
        notify_calls d = (if nonempty alerts then [alerts] else []).
Proof.
  split; [vm_compute; reflexivity |].
  assert (R : fst (run ascii_ucd 48 Scenario.w_mixed) = Ok 2)
    by (vm_compute; reflexivity).
  split; [exact R |].
  destruct (@notify_once_with_all_alerts _ _ ascii_ucd 48 Scenario.w_mixed
              (fst (run ascii_ucd 48 Scenario.w_mixed))
              (snd (run ascii_ucd 48 Scenario.w_mixed)))
    as [d [L [N [Hn _]]]]; [vm_compute; reflexivity |].
  exists d. split; [exact L |]. split; [exact N |].
  exact (proj2 (proj2 (Hn 2 R))).
Defined.

(** C6.  An entry whose due date is absent is outside the window for
    every threshold; the classification loop runs identically with such
    entries removed from the timeline, so none of them reaches the
    submission classifier; and every list a scan hands to the notifier
    holds only entries with a due date, the returned count being the
    length of that list. *)
Theorem absent_due_never_at_risk :
  forall B (BR : Browser B) U,
    (forall thr t, due t = None -> in_window thr t = false)
    /\ (forall p thr ups acc (w : World B),
           classify p thr ups acc w
           = classify p thr (filter has_due ups) acc w)
    /\ (forall h (w : World B) r w',
           run U h w = (r, w') ->
           exists d,
             log w' = log w ++ d /\
             Forall (fun alerts => forallb has_due alerts = true)
                    (notify_calls d) /\
             (forall n, r = Ok n ->
                        n = Z.of_nat (length (concat (notify_calls d))))).
Proof.
  intros B BR U. split; [| split].
  - intros thr t H. unfold in_window. rewrite H. reflexivity.
  - intros. apply classify_erasure.
  - intros h w r w' E.
    destruct (run_log _ _ _ E) as [d1 [d2 [L [Fb C]]]].
    exists (d1 ++ d2). split; [exact L |].
    rewrite notify_calls_app, (browse_no_notify _ Fb). simpl.
    destruct C as [[-> [e [-> _]]] | [_ [thr [al [Fw [[-> [-> ->]] | [Hne [[d [-> Fd]] Hr]]]]]]]].
    + simpl. split; [constructor | intros; discriminate].
    + simpl. split; [constructor |]. intros n Hn. inversion Hn. reflexivity.
    + simpl. rewrite (delivery_no_notify _ Fd). simpl.
      split; [constructor; [eapply all_in_window_have_due; eassumption | constructor] |].
      intros n Hn. destruct Hr as [-> | [e ->]]; [| discriminate].
      inversion Hn; subst. rewrite app_nil_r. reflexivity.
Qed.

Lemma absent_due_never_at_risk_witness :
  due {| label := py "Reading list"; link := Some (py "a4"); due := None |}
  = None
  /\ in_window Scenario.t_now
       {| label := py "Reading list"; link := Some (py "a4"); due := None |}
     = false
  /\ fst (run ascii_ucd 48 Scenario.w_mixed) = Ok 2
  /\ exists d,
      log (snd (run ascii_ucd 48 Scenario.w_mixed))
      = log Scenario.w_mixed ++ d /\
      Forall (fun alerts => forallb has_due alerts = true) (notify_calls d) /\
      (forall n, fst (run ascii_ucd 48 Scenario.w_mixed) = Ok n ->
                 n = Z.of_nat (length (concat (notify_calls d)))).
Proof.
  destruct (@absent_due_never_at_risk _ Sim.sim_browser ascii_ucd)
    as [Hw [_ Hr]].
  split; [reflexivity |].
  split; [apply Hw; reflexivity |].
  split; [vm_compute; reflexivity |].
  apply (Hr 48 Scenario.w_mixed). vm_compute. reflexivity.
Defined.

(** C7.  If any navigation of a scan does not load, the scan ends with the
    exception of that navigation (Playwright's Error or TimeoutError), and
    its log holds no call of the notifier and no delivery.  A
    classification whose link is absent, or whose page does not load,
    raises that exception instead of answering "not submitted", and the
    loop passes the exception on when the entry is inside the window. *)
Theorem navigation_error_aborts_scan :
  forall B (BR : Browser B) U,
    (forall h (w : World B) r w' d,
        run U h w = (r, w') -> log w' = log w ++ d ->
        existsb is_failed_goto d = true ->
        (exists e, r = Raise e /\ nav_error e = true)
        /\ notify_calls d = [] /\ existsb is_delivery d = false)
    /\ (forall p (w : World B),
           fst (is_submitted p None w)
           = Raise (library_error PlaywrightError))
    /\ (forall p u (w : World B),
           fst (br_goto p u (browser w)) <> Done tt ->
           exists e, fst (is_submitted p (Some u) w) = Raise e
                     /\ nav_error e = true)
    /\ (forall p thr t rest acc (w : World B) e w1,
           in_window thr t = true ->
           is_submitted p (link t) w = (Raise e, w1) ->
           classify p thr (t :: rest) acc w = (Raise e, w1)).
Proof.
  intros B BR U. split; [| split; [| split]].
  - intros h w r w' d E L Hf.
    destruct (run_log _ _ _ E) as [d1 [d2 [L' [Fb C]]]].
    rewrite L in L'. apply app_inv_head in L'. subst d.
    destruct C as [[-> [e [-> X]]] | [Hn [thr [al [_ [[_ [-> _]] | [_ [[d [-> Fd]] _]]]]]]]].
    + rewrite app_nil_r in *. split; [exists e; auto |].
      split; [apply browse_no_notify | apply browse_no_delivery]; assumption.
    + rewrite app_nil_r in Hf. congruence.
    + exfalso. rewrite existsb_app, Hn in Hf. simpl in Hf.
      rewrite (delivery_no_failed_goto _ Fd) in Hf. discriminate.
  - intros p w. rewrite is_submitted_none. reflexivity.
  - intros p u w H. destruct (is_submitted_unloaded _ _ _ H) as [e [w' [E N]]].
    exists e. rewrite E. auto.
  - intros. apply classify_propagates; assumption.
Qed.

Lemma navigation_error_aborts_scan_witness :
  (existsb is_failed_goto (log (snd (run ascii_ucd 48 Scenario.w_null_link)))
   = true
   /\ (exists e, fst (run ascii_ucd 48 Scenario.w_null_link) = Raise e
                 /\ nav_error e = true)
   /\ notify_calls (log (snd (run ascii_ucd 48 Scenario.w_null_link))) = []
   /\ existsb is_delivery (log (snd (run ascii_ucd 48 Scenario.w_null_link)))
      = false)
  /\ (fst (br_goto 0%nat (py "gone") (browser Scenario.w_dead_link))
      <> Done tt
      /\ exists e, fst (is_submitted 0%nat (Some (py "gone"))
                                     Scenario.w_dead_link) = Raise e
                   /\ nav_error e = true).
Proof.
  destruct (@navigation_error_aborts_scan _ Sim.sim_browser ascii_ucd)
    as [Hrun [_ [Hgo _]]].
  split.
  - split; [vm_compute; reflexivity |].
    apply (Hrun 48 Scenario.w_null_link
                (fst (run ascii_ucd 48 Scenario.w_null_link))
                (snd (run ascii_ucd 48 Scenario.w_null_link))).
    + vm_compute. reflexivity.
    + vm_compute. reflexivity.
    + vm_compute. reflexivity.
  - split; [vm_compute; discriminate |].
    apply Hgo. vm_compute. discriminate.
Defined.

(* ================================================================== *)
(** * Notification token and login failures *)
(* ================================================================== *)

(** C10.  With the message lines computed, [notify] picks its token as the
    contract words it: LINE_NOTIFY_TOKEN when that variable holds a
    non-empty value, the stored LINE_TOKEN secret otherwise (also when the
    variable is set to the empty string).  With a non-empty token the
    message is POSTed with that token and never printed as such; with an
    absent or empty token the message is handed to [console.print], whose
    outcome is the outcome of [notify], and nothing is POSTed. *)
Theorem notify_token_precedence :
  forall B (alerts : list task) (w : World B) lines,
    alert_lines (clock w (ticks w)) alerts = Ok lines ->
    let token := token_by_contract (environ w "LINE_NOTIFY_TOKEN")
                                   (keyring w SERVICE "LINE_TOKEN") in
    let msg := join [10] (header alerts :: lines) in
    exists d,
      log (snd (notify alerts w)) = log w ++ d /\
      if truthy token
      then exists tail,
             d = EvNotify alerts :: EvPost (value token) msg :: tail /\
             existsb is_post tail = false /\
             (tail = [] \/
              exists text,
                tail = [EvConsole
                          (py "[bold red]LINE Notify failed:[/bold red] "
                           ++ text)])
      else fst (notify alerts w) = console_api w msg /\
           d = [EvNotify alerts; EvConsole msg].
Proof.
  intros B alerts w lines Hl token msg.
  subst token msg. unfold notify.
  generalize (header alerts). intros hd.
  generalize (py "[bold red]LINE Notify failed:[/bold red] "). intros red.
  unfold token_by_contract, bind, emit, getenv, get_secret, now, lift,
    requests_post, console_print, ret.
  generalize (join [10]). intros joined. simpl.
  destruct (environ w "LINE_NOTIFY_TOKEN") as [[| c s] |]; simpl;
    rewrite Hl; simpl;
    try (destruct (keyring w SERVICE "LINE_TOKEN") as [[| c' s'] |]; simpl);
    repeat match goal with
           | |- context [line_api w ?t ?m] =>
               destruct (line_api w t m) as [[st tx] | e]; simpl
           end;
    try match goal with
        | |- context [?st =? 200] => destruct (st =? 200); simpl
        end;
    repeat match goal with
           | |- context [console_api w ?m] =>
               destruct (console_api w m) as [[] | e']; simpl
           end;
    rewrite <- ?app_assoc; simpl;
    eexists; (split; [reflexivity |]);
    first [ split; reflexivity
          | eexists; split; [reflexivity |]; split; [reflexivity |];
            first [ left; reflexivity | right; eexists; reflexivity ] ].
Qed.

Lemma notify_token_precedence_witness :
  alert_lines (clock Scenario.w_empty_env (ticks Scenario.w_empty_env))
              [Scenario.an_alert]
  = Ok [py "• Report (あと 35h)"]
  /\ environ Scenario.w_empty_env "LINE_NOTIFY_TOKEN" = Some []
  /\ exists d,
      log (snd (notify [Scenario.an_alert] Scenario.w_empty_env))
      = log Scenario.w_empty_env ++ d /\
      exists tail,
        d = EvNotify [Scenario.an_alert]
            :: EvPost (py "stored-token")
                      (join [10] (header [Scenario.an_alert]
                                  :: [py "• Report (あと 35h)"]))
            :: tail /\
        existsb is_post tail = false /\
        (tail = [] \/
         exists text,
           tail = [EvConsole
                     (py "[bold red]LINE Notify failed:[/bold red] "
                      ++ text)]).
Proof.
  split; [vm_compute; reflexivity |].
  split; [reflexivity |].
  apply (@notify_token_precedence _ [Scenario.an_alert]
           Scenario.w_empty_env [py "• Report (あと 35h)"]).
  vm_compute. reflexivity.
Defined.

(** C3, as the claim states it, fails: with no stored credentials the
    login raises an exception of the same class as the one it raises when
    the site shows the login-failure marker. *)
Lemma login_errors_share_their_class :
  credentials_missing Scenario.w_missing = true
  /\ credentials_missing Scenario.w_rejected = false
  /\ contains (py "ログインエラー")
              (Sim.document (browser (snd (login Scenario.w_rejected))))
     = true
  /\ exists e1 e2,
      fst (login Scenario.w_missing) = Raise e1
      /\ fst (login Scenario.w_rejected) = Raise e2
      /\ exn_cls e1 = exn_cls e2.
Proof.
  split; [reflexivity |]. split; [reflexivity |].
  split; [vm_compute; reflexivity |].
  exists CREDENTIALS_NOT_STORED, LOGIN_FAILED.
  split; [vm_compute; reflexivity |].
  split; [vm_compute; reflexivity | reflexivity].
Qed.

(** C3, amended.  When the login form is reached (new page, dashboard
    loaded, no timeline region, login link clicked, page settled) and the
    username or the password is absent or empty in the key-ring, [login]
    raises RuntimeError("Credentials not stored; run with --configure
    first.").  When the credentials are stored, the form is submitted and
    the page shows the login-failure marker, it raises RuntimeError("Login
    failed – check credentials/MFA.").  These are the only RuntimeErrors of
    [login]; the first occurs only with missing credentials, the second
    only with stored ones.  Both have the class RuntimeError and differ by
    their message text alone. *)
Theorem login_failures_are_runtime_errors :
  forall B (BR : Browser B) (w : World B),
    (forall p b1 b2 b3 b4 b5,
        br_new_page (browser w) = (Done p, b1) ->
        br_goto p DASHBOARD_URL b1 = (Done tt, b2) ->
        br_count p SelTimeline b2 = (Done 0, b3) ->
        br_click_first p SelLoginLink b3 = (Done tt, b4) ->
        br_wait_for_load_state p NetworkIdle b4 = (Done tt, b5) ->
        (credentials_missing w = true ->
         fst (login w) = Raise CREDENTIALS_NOT_STORED)
        /\
        (forall b6 b7 b8 b9 b10 html,
            credentials_missing w = false ->
            br_fill p SelUsername (value (keyring w SERVICE "USERNAME")) b5
            = (Done tt, b6) ->
            br_fill p SelPassword (value (keyring w SERVICE "PASSWORD")) b6
            = (Done tt, b7) ->
            br_press p "Enter" b7 = (Done tt, b8) ->
            br_wait_for_load_state p NetworkIdle b8 = (Done tt, b9) ->
            br_content p b9 = (Done html, b10) ->
            contains (py "ログインエラー") html = true ->
            fst (login w) = Raise LOGIN_FAILED))
    /\ (forall e w',
           login w = (Raise e, w') -> exn_cls e = RuntimeError ->
           if credentials_missing w then e = CREDENTIALS_NOT_STORED
           else e = LOGIN_FAILED)
    /\ exn_cls CREDENTIALS_NOT_STORED = RuntimeError
    /\ exn_cls LOGIN_FAILED = RuntimeError
    /\ exn_msg CREDENTIALS_NOT_STORED <> exn_msg LOGIN_FAILED.
Proof.
  intros B BR w. split; [| split; [| repeat split; discriminate]].
  - intros p b1 b2 b3 b4 b5 H1 H2 H3 H4 H5. split.
    + intros Hm. unfold credentials_missing in Hm.
      unfold login, new_page, page_goto, bind, call, emit, ret, raise,
        get_secret. simpl.
      rewrite H1. simpl. rewrite H2. simpl. rewrite H3. simpl.
      rewrite H4. simpl. rewrite H5. simpl. rewrite Hm. reflexivity.
    + intros b6 b7 b8 b9 b10 html Hm H6 H7 H8 H9 H10 Hc.
      unfold credentials_missing in Hm.
      unfold login, new_page, page_goto, bind, call, emit, ret, raise,
        get_secret. simpl.
      rewrite H1. simpl. rewrite H2. simpl. rewrite H3. simpl.
      rewrite H4. simpl. rewrite H5. simpl. rewrite Hm. simpl.
      rewrite H6. simpl. rewrite H7. simpl. rewrite H8. simpl.
      rewrite H9. simpl. rewrite H10. simpl.
      generalize Hc. generalize (py "ログインエラー"). intros mk Hk.
      rewrite Hk. reflexivity.
  - intros e w'. unfold credentials_missing.
    unfold login, new_page, page_goto, bind, call, emit, ret, raise,
      get_secret. simpl.
    generalize (py "ログインエラー"). intros mk.
    repeat match goal with
           | |- context [let (_, _) := ?x in _] =>
               let o := fresh "o" in
               destruct x as [[? | |] ?]; simpl
           end;
      try (intros H; inversion H; subst; simpl; discriminate).
    all: repeat match goal with
           | |- context [if ?b then _ else _] => destruct b eqn:?; simpl
           end;
      try (intros H; inversion H; subst; simpl; intros; congruence).
    all: repeat match goal with
           | |- context [let (_, _) := ?x in _] =>
               destruct x as [[? | |] ?]; simpl
           | |- context [if ?b then _ else _] => destruct b eqn:?; simpl
           end;
      try (intros H; inversion H; subst; simpl; intros; congruence).
Qed.

Lemma login_failures_are_runtime_errors_witness :
  (credentials_missing Scenario.w_missing = true
   /\ fst (login Scenario.w_missing) = Raise CREDENTIALS_NOT_STORED)
  /\ (credentials_missing Scenario.w_rejected = false
      /\ fst (login Scenario.w_rejected) = Raise LOGIN_FAILED).
Proof.
  split.
  - split; [reflexivity |].
    destruct (@login_failures_are_runtime_errors _ _ Scenario.w_missing)
      as [H _].
    edestruct H as [Hm _]; [reflexivity .. |].
    apply Hm. reflexivity.
  - split; [reflexivity |].
    destruct (@login_failures_are_runtime_errors _ _ Scenario.w_rejected)
      as [H _].
    edestruct H as [_ Hr]; [reflexivity .. |].
    eapply Hr; [reflexivity .. | vm_compute; reflexivity].
Defined.

(* ================================================================== *)
(** * The date parser *)
(* ================================================================== *)

(** C2 (the property fails on the code; this theorem states what
    [parse_due_date] does).  A text in which the localized pattern matches
    digits that are no calendar date, here month 13, makes
    [parse_due_date] raise a ValueError, and so does an English date such
    as 31 February; a timeline entry with such a label ends the whole scan
    with that ValueError.  The part of the claim on unmatched text holds:
    when neither pattern matches the result is absent.  A ValueError is the
    only exception the function can raise. *)
Theorem parse_due_date_raises_on_invalid_date :
  forall U, ucd_ok U ->
    parse_due_date U (py "2024年13月5日 15:30")
    = Raise (library_error ValueError)
    /\ parse_due_date U (py "Due 31 February 2025 at 9:15 PM")
       = Raise (library_error ValueError)
    /\ fst (run ascii_ucd 48 Scenario.w_month_13)
       = Raise (library_error ValueError)
    /\ (forall text,
           search U false jp_pattern text = None ->
           search U true en_pattern text = None ->
           parse_due_date U text = Ok None)
    /\ (forall text e,
           parse_due_date U text = Raise e -> exn_cls e = ValueError).
Proof.
intros U HU.
split; [| split; [| split; [| split]]].
- rewrite (parse_due_date_agree HU) by reflexivity. vm_compute. reflexivity.
- rewrite (parse_due_date_agree HU) by reflexivity. vm_compute. reflexivity.
- vm_compute. reflexivity.
- intros text. apply parse_due_date_no_match.
- intros text e H. apply parse_due_date_raises in H. subst. reflexivity.
Qed.

Lemma parse_due_date_raises_on_invalid_date_witness :
  ucd_ok ascii_ucd
  /\ parse_due_date ascii_ucd (py "2024年13月5日 15:30")
     = Raise (library_error ValueError)
  /\ (search ascii_ucd false jp_pattern (py "no date here") = None
      /\ search ascii_ucd true en_pattern (py "no date here") = None
      /\ parse_due_date ascii_ucd (py "no date here") = Ok None).
Proof.
split; [exact ascii_ucd_ok |].
destruct (parse_due_date_raises_on_invalid_date ascii_ucd_ok)
  as [H13 [_ [_ [Hnone _]]]].
split; [exact H13 |].
split; [vm_compute; reflexivity |].
split; [vm_compute; reflexivity |].
apply Hnone; vm_compute; reflexivity.
Defined.

(** C9.  Whenever the English long-form pattern is the one that matches,
    its marker group is AM or PM in some letter case, and every timestamp
    [parse_due_date] returns has the hour [h mod 12 + 12] for a PM marker
    and [h mod 12] for an AM marker, where [h] and the minute are the
    numbers captured before the marker.  In particular "9:15 PM" gives
    21:15 and "9:15 AM" gives 9:15, also with the marker in lower or mixed
    case, and 12 AM and 12 PM give hours 0 and 12. *)
Theorem english_meridiem_conversion :
  forall U, ucd_ok U ->
    (forall text en,
        search U false jp_pattern text = None ->
        search U true en_pattern text = Some en ->
        exists h mm,
          int_of U (group en 4) = Ok h /\ 0 <= h < 100 /\
          int_of U (group en 5) = Ok mm /\
          is_pm_marker (group en 6) = negb (is_am_marker (group en 6)) /\
          (is_pm_marker (group en 6) = true \/
           is_am_marker (group en 6) = true) /\
          forall t,
            parse_due_date U text = Ok (Some t) ->
            hour t = h mod 12
                     + (if is_pm_marker (group en 6) then 12 else 0) /\
            minute t = mm)
    /\ parse_due_date U (py "5 August 2025 at 9:15 PM")
       = Ok (Some (at_minute 2025 8 5 21 15))
    /\ parse_due_date U (py "5 August 2025 at 9:15 AM")
       = Ok (Some (at_minute 2025 8 5 9 15))
    /\ parse_due_date U (py "5 August 2025, 9:15 pm")
       = Ok (Some (at_minute 2025 8 5 21 15))
    /\ parse_due_date U (py "5 august 2025 at 9:15 Am")
       = Ok (Some (at_minute 2025 8 5 9 15))
    /\ parse_due_date U (py "5 August 2025 at 12:05 AM")
       = Ok (Some (at_minute 2025 8 5 0 5))
    /\ parse_due_date U (py "5 August 2025 at 12:05 PM")
       = Ok (Some (at_minute 2025 8 5 12 5)).
Proof.
intros U HU. split.
- intros text en Hjp Hen.
  destruct (search_sound _ _ _ _ Hen) as [pre [x [suf [_ M]]]].
  destruct (en_match_shape M)
    as [d [mon [y [hh [mm [a [b [-> [Hd [Hy [[Hh Lh] [[Hm Lm] [Ha Hb]]]]]]]]]]]]].
  destruct (marker_cases HU _ _ Ha Hb) as [Hx [Hor Hlow]].
  destruct (int_of_digit_string HU hh Hh) as [h [Eh Bh]]; [lia |].
  destruct (int_of_digit_string HU mm Hm) as [m [Em Bm]]; [lia |].
  exists h, m.
  change (group _ 4) with hh. change (group _ 5) with mm.
  change (group _ 6) with [a; b].
  split; [exact Eh |]. split.
  { assert (10 ^ Z.of_nat (length hh) <= 10 ^ 2)
      by (apply Z.pow_le_mono_r; lia). lia. }
  split; [exact Em |]. split; [exact Hx |]. split; [exact Hor |].
  intros t. unfold parse_due_date. rewrite Hjp, Hen.
  change (group _ 4) with hh. change (group _ 5) with mm.
  change (group _ 6) with [a; b]. change (group _ 3) with y.
  change (group _ 1) with d. change (group _ 2) with mon.
  rewrite Hlow.
  destruct (strptime_b_month U (firstn 3 mon)) as [mi | e]; simpl;
    [| discriminate].
  rewrite Eh. simpl.
  destruct (int_of U y) as [yv | e]; simpl; [| discriminate].
  destruct (int_of U d) as [dv | e]; simpl; [| discriminate].
  rewrite Em. simpl.
  destruct (new_datetime _ _ _ _ _ _ _) as [t' | e] eqn:En; simpl;
    [| discriminate].
  intros Ht. inversion Ht; subst.
  apply new_datetime_ok in En. destruct En as [_ ->]. simpl. auto.
- repeat split; rewrite (parse_due_date_agree HU) by reflexivity;
    vm_compute; reflexivity.
Qed.

Lemma english_meridiem_conversion_witness :
  ucd_ok ascii_ucd
  /\ search ascii_ucd false jp_pattern (py "5 August 2025 at 9:15 PM") = None
  /\ parse_due_date ascii_ucd (py "5 August 2025 at 9:15 PM")
     = Ok (Some (at_minute 2025 8 5 21 15))
  /\ exists en h mm,
      search ascii_ucd true en_pattern (py "5 August 2025 at 9:15 PM")
      = Some en /\
      int_of ascii_ucd (group en 4) = Ok h /\
      int_of ascii_ucd (group en 5) = Ok mm /\
      (forall t,
          parse_due_date ascii_ucd (py "5 August 2025 at 9:15 PM")
          = Ok (Some t) ->
          hour t = h mod 12 + (if is_pm_marker (group en 6) then 12 else 0)
          /\ minute t = mm).
Proof.
split; [exact ascii_ucd_ok |].
split; [vm_compute; reflexivity |].
destruct (english_meridiem_conversion ascii_ucd_ok) as [Hgen [Hpm _]].
split; [exact Hpm |].
destruct (search ascii_ucd true en_pattern (py "5 August 2025 at 9:15 PM"))
  as [en |] eqn:Een; [| vm_compute in Een; discriminate].
destruct (Hgen (py "5 August 2025 at 9:15 PM") en)
  as [h [mm [Eh [_ [Em [_ [_ Ht]]]]]]];
  [vm_compute; reflexivity | exact Een |].
exists en, h, mm. auto.
Defined.

(** C8.  Round trip of the localized numeric-calendar form: for all
    numbers [y m d hh mm] that the [datetime] constructor accepts, rendered
    as [YYYY年M月D日 H:MM] (year on four digits, minute on two, month, day
    and hour on one or two digits, zero-padded or not), after any text
    without a digit and before any text at all, [parse_due_date] returns
    the timestamp with exactly that year, month, day, hour and minute, in
    JST. *)
Theorem parse_render_roundtrip :
  forall U, ucd_ok U ->
  forall pad_m pad_d pad_h y m d hh mm pre suf,
    valid_fields y m d hh mm 0 0 = true ->
    forallb (fun c => negb (is_digit U c)) pre = true ->
    parse_due_date U (pre ++ render_jp pad_m pad_d pad_h y m d hh mm ++ suf)
    = Ok (Some (at_minute y m d hh mm))
    /\ tz (at_minute y m d hh mm) = JST.
Proof.
intros U HU pad_m pad_d pad_h y m d hh mm pre suf Hv Hpre.
split; [| reflexivity].
destruct (valid_fields_ranges _ _ _ _ _ Hv) as [By [Bm [Bd [Bh Bn]]]].
destruct (@four_digits_bounds y ltac:(lia)) as [Y1 [Y2 [Y3 Y4]]].
destruct (@tens_units mm ltac:(lia)) as [N1 N2].
assert (M : match_here U false jp_pattern
              (render_jp pad_m pad_d pad_h y m d hh mm ++ suf)
            = Some (set_group 5 (two_digits mm)
                      (set_group 4 (field pad_h hh)
                         (set_group 3 (field pad_d d)
                            (set_group 2 (field pad_m m)
                               (set_group 1 (four_digits y) no_groups)))))).
{ unfold render_jp. rewrite <- !app_assoc.
  apply (jp_match_here_fields HU);
    try (apply digit_char_ascii; assumption);
    apply field_short; lia. }
unfold parse_due_date.
erewrite jp_search_skips; [| exact Hpre | exact M].
change (group _ 1) with (four_digits y).
change (group _ 2) with (field pad_m m).
change (group _ 3) with (field pad_d d).
change (group _ 4) with (field pad_h hh).
change (group _ 5) with (two_digits mm).
rewrite (int_of_four_digits HU) by lia.
rewrite !(int_of_field HU) by lia.
rewrite (int_of_two_digits HU) by lia.
simpl. unfold new_datetime. rewrite Hv. reflexivity.
Qed.

Lemma parse_render_roundtrip_witness :
  ucd_ok ascii_ucd
  /\ valid_fields 2024 7 5 15 30 0 0 = true
  /\ forallb (fun c => negb (is_digit ascii_ucd c)) (py "Report due ") = true
  /\ render_jp false false false 2024 7 5 15 30 = py "2024年7月5日 15:30"
  /\ parse_due_date ascii_ucd
       (py "Report due " ++ render_jp false false false 2024 7 5 15 30
        ++ py " まで")
     = Ok (Some (at_minute 2024 7 5 15 30)).
Proof.
split; [exact ascii_ucd_ok |].
split; [reflexivity |].
split; [reflexivity |].
split; [reflexivity |].
apply (parse_render_roundtrip ascii_ucd_ok false false false
         2024 7 5 15 30 (py "Report due ") (py " まで"));
  reflexivity.
Defined.
(* ================================================================== *)
(** * The time window *)
(* ================================================================== *)

(** C5.  In a scan that has logged in and read the timeline, the
    threshold is the clock reading taken after the timeline was read plus
    [h] hours, and an entry with a due date is submitted to the at-risk
    evaluation exactly when its due date is not later than that: the scan
    is the at-risk evaluation of the contract on a window with a closed
    upper bound, and the links it visits are those of exactly these
    entries, in timeline order.  An entry due at the threshold itself is
    included, one due a second later is excluded. *)
Theorem window_closed_upper_bound :
  forall B (BR : Browser B) U h (w : World B) p w1 ups w2 delta thr,
    login w = (Ok p, w1) ->
    fetch_upcoming U p w1 = (Ok ups, w2) ->
    timedelta_hours h = Ok delta ->
    datetime_add (clock w2 (ticks w2)) delta = Ok thr ->
    to_microseconds thr
    = to_microseconds (clock w2 (ticks w2)) + h * US_PER_HOUR
    /\ (forall t d,
           due t = Some d -> valid_datetime d = true ->
           (in_window thr t = true <->
            to_microseconds d
            <= to_microseconds (clock w2 (ticks w2)) + h * US_PER_HOUR))
    /\ (forall t d, In t ups -> due t = Some d -> valid_datetime d = true)
    /\ (forall t, due t = Some thr -> in_window thr t = true)
    /\ (forall t d,
           due t = Some d -> datetime_add thr US_PER_SECOND = Ok d ->
           in_window thr t = false)
    /\ run U h w
       = bind (at_risk_by_contract p (clock w2 (ticks w2)) h ups) deliver
              (tick w2)
    /\ exists dlt,
         log (snd (run U h w)) = log w2 ++ dlt /\
         match fst (run U h w) with
         | Ok _ =>
             gotos dlt
             = map link (filter (within_window (clock w2 (ticks w2)) h) ups)
         | Raise _ =>
             exists rest,
               map link (filter (within_window (clock w2 (ticks w2)) h) ups)
               = gotos dlt ++ rest
         end.
Proof.
intros B BR U h w p w1 ups w2 delta thr Hl Hf Hd Ha.
destruct (run_by_contract U h w Hl Hf Hd Ha) as [Et [Ef [Ec Er]]].
pose proof (trunc_hours _ Hd) as Ed. subst delta.
destruct (datetime_add_spec _ _ _ Ha) as [_ Vt].
assert (Iff : forall t d, due t = Some d -> valid_datetime d = true ->
          (in_window thr t = true <->
           to_microseconds d <= to_microseconds thr)).
{ intros t d Hdue Vd. unfold in_window. rewrite Hdue.
  apply datetime_le_spec; assumption. }
split; [exact Et |]. split; [| split; [| split; [| split; [| split]]]].
- intros t d Hdue Vd. rewrite <- Et. apply Iff; assumption.
- intros t d Hi Hdue.
  exact (@fetch_upcoming_valid _ _ U p w1 ups w2 Hf t d Hi Hdue).
- intros t Hdue. apply (Iff t thr Hdue Vt). lia.
- intros t d Hdue Hs. destruct (datetime_add_spec _ _ _ Hs) as [Es Vs].
  destruct (in_window thr t) eqn:E; [| reflexivity].
  apply (Iff t d Hdue Vs) in E. unfold US_PER_SECOND in Es. lia.
- exact Er.
- rewrite Er. unfold bind. rewrite <- Ec, <- Ef.
  destruct (classify p thr ups [] (tick w2)) as [[al | e] w4] eqn:Ek.
  + destruct (classify_visits _ _ _ _ _ Ek) as [d1 [L1 G1]].
    destruct (deliver al w4) as [r w'] eqn:Edl.
    destruct (deliver_log _ _ Edl) as [d2 [L2 [G2 _]]].
    exists (d1 ++ d2). cbn [fst snd]. rewrite L2, L1, app_assoc.
    split; [reflexivity |]. rewrite gotos_app, G2, app_nil_r.
    destruct r; [exact G1 |]. exists []. rewrite app_nil_r.
    symmetry. exact G1.
  + destruct (classify_visits _ _ _ _ _ Ek) as [d1 [L1 G1]].
    exists d1. cbn [fst snd]. split; [exact L1 | exact G1].
Qed.

Lemma window_closed_upper_bound_witness :
  login Scenario.w_mixed = (Ok 0%nat, snd (login Scenario.w_mixed))
  /\ fetch_upcoming ascii_ucd 0%nat (snd (login Scenario.w_mixed))
     = (Ok Cases.mixed_upcoming,
        snd (fetch_upcoming ascii_ucd 0%nat (snd (login Scenario.w_mixed))))
  /\ timedelta_hours 48 = Ok (48 * US_PER_HOUR)
  /\ datetime_add Scenario.t_now (48 * US_PER_HOUR)
     = Ok (Sim.at_time 2025 8 6 10 0 0 0)
  /\ in_window (Sim.at_time 2025 8 6 10 0 0 0)
       {| label := py "Lab"; link := None;
          due := Some (Sim.at_time 2025 8 6 10 0 0 0) |} = true
  /\ datetime_add (Sim.at_time 2025 8 6 10 0 0 0) US_PER_SECOND
     = Ok (Sim.at_time 2025 8 6 10 0 1 0)
  /\ in_window (Sim.at_time 2025 8 6 10 0 0 0)
       {| label := py "Exam"; link := None;
          due := Some (Sim.at_time 2025 8 6 10 0 1 0) |} = false
  /\ fst (run ascii_ucd 48 Scenario.w_mixed) = Ok 2
  /\ map link (filter (within_window Scenario.t_now 48) Cases.mixed_upcoming)
     = [Some (py "a1"); Some (py "a2"); Some (py "a3")]
  /\ exists dlt,
       log (snd (run ascii_ucd 48 Scenario.w_mixed))
       = log (snd (fetch_upcoming ascii_ucd 0%nat
                     (snd (login Scenario.w_mixed)))) ++ dlt
       /\ gotos dlt = [Some (py "a1"); Some (py "a2"); Some (py "a3")].
Proof.
assert (L : login Scenario.w_mixed = (Ok 0%nat, snd (login Scenario.w_mixed)))
  by (vm_compute; reflexivity).
assert (F : fetch_upcoming ascii_ucd 0%nat (snd (login Scenario.w_mixed))
            = (Ok Cases.mixed_upcoming,
               snd (fetch_upcoming ascii_ucd 0%nat
                      (snd (login Scenario.w_mixed)))))
  by (vm_compute; reflexivity).
assert (A : datetime_add
              (clock (snd (fetch_upcoming ascii_ucd 0%nat
                             (snd (login Scenario.w_mixed))))
                 (ticks (snd (fetch_upcoming ascii_ucd 0%nat
                                (snd (login Scenario.w_mixed))))))
              (48 * US_PER_HOUR)
            = Ok (Sim.at_time 2025 8 6 10 0 0 0))
  by (vm_compute; reflexivity).
assert (R : fst (run ascii_ucd 48 Scenario.w_mixed) = Ok 2)
  by (vm_compute; reflexivity).
assert (V : map link (filter (within_window Scenario.t_now 48)
                        Cases.mixed_upcoming)
            = [Some (py "a1"); Some (py "a2"); Some (py "a3")])
  by (vm_compute; reflexivity).
destruct (@window_closed_upper_bound _ Sim.sim_browser ascii_ucd 48
            Scenario.w_mixed _ _ _ _ _ _ L F eq_refl A)
  as [_ [_ [_ [Hat [Hafter [_ [dlt [Hlog Hg]]]]]]]].
split; [exact L |]. split; [exact F |]. split; [reflexivity |].
split; [vm_compute; reflexivity |].
split; [apply Hat; reflexivity |].
split; [vm_compute; reflexivity |].
split; [apply (Hafter _ (Sim.at_time 2025 8 6 10 0 1 0));
        [reflexivity | vm_compute; reflexivity] |].
split; [exact R |]. split; [exact V |].
exists dlt. split; [exact Hlog |].
rewrite R in Hg. rewrite Hg. exact V.
Defined.

(* ================================================================== *)
(** * Further lemmas on the key-ring, the login and the log *)
(* ================================================================== *)

Section ExtraLemmas.

Context {B : Type} {BR : Browser B}.

Lemma configure_world (u p token : pystr) (w : World B) :
  configure u p token w
  = (Ok tt,
     add_event (EvConsole (py "[green]保存しました。[/green]"))
       ((if nonempty token then set_keyring SERVICE "LINE_TOKEN" token
         else fun w0 => w0)
          (set_keyring SERVICE "PASSWORD" p
             (set_keyring SERVICE "USERNAME" u
                (add_event
                   (EvConsole (py "[bold]LETUS Checker: 初期設定[/bold]"))
                   w))))).
Proof.
unfold configure, bind, console_print_fixed, emit, save_secret, ret.
destruct token; reflexivity.
Qed.

(** The credential check of [login], once the form is reached. *)
Lemma login_at_form (w : World B) p b1 b2 b3 b4 b5 :
  br_new_page (browser w) = (Done p, b1) ->
  br_goto p DASHBOARD_URL b1 = (Done tt, b2) ->
  br_count p SelTimeline b2 = (Done 0, b3) ->
  br_click_first p SelLoginLink b3 = (Done tt, b4) ->
  br_wait_for_load_state p NetworkIdle b4 = (Done tt, b5) ->
  credentials_missing w = true ->
  fst (login w) = Raise CREDENTIALS_NOT_STORED.
Proof.
intros H1 H2 H3 H4 H5 Hm. unfold credentials_missing in Hm.
unfold login, new_page, page_goto, bind, call, emit, ret, raise, get_secret.
simpl. rewrite H1. simpl. rewrite H2. simpl. rewrite H3. simpl.
rewrite H4. simpl. rewrite H5. simpl. rewrite Hm. reflexivity.
Qed.

(** [login] raises "Credentials not stored" only when they are missing. *)
Lemma login_not_stored_only_if_missing (w : World B) w' :
  login w = (Raise CREDENTIALS_NOT_STORED, w') ->
  credentials_missing w = true.
Proof.
unfold credentials_missing.
unfold login, new_page, page_goto, bind, call, emit, ret, raise, get_secret.
simpl. generalize (py "ログインエラー"). intros mk.
repeat match goal with
       | |- context [let (_, _) := ?x in _] =>
           destruct x as [[? | |] ?]; simpl
       end;
  try (intros H; inversion H; fail).
all: repeat match goal with
       | |- context [if ?b then _ else _] => destruct b eqn:?; simpl
       end;
  try (intros H; inversion H; fail); try reflexivity.
all: repeat match goal with
       | |- context [let (_, _) := ?x in _] =>
           destruct x as [[? | |] ?]; simpl
       | |- context [if ?b then _ else _] => destruct b eqn:?; simpl
       end;
  try (intros H; inversion H; fail); try reflexivity.
Qed.

(** ** Frame: what the scan leaves alone *)

Lemma frames_same {A} (c : M B A) :
  (forall w, exists r, c w = (r, w) \/ c w = (r, tick w) \/
                       (exists b, c w = (r, set_browser b w)) \/
                       (exists e, c w = (r, add_event e w))) ->
  frames c.
Proof.
intros H w r w' Hc.
destruct (H w) as [r0 [E | [E | [[b E] | [e E]]]]]; rewrite E in Hc;
  inversion Hc; subst; simpl; repeat split; lia.
Qed.

Lemma frames_ret {A} (a : A) : frames (@ret B A a).
Proof. apply frames_same. intros w. exists (Ok a). auto. Qed.

Lemma frames_raise {A} (e : exn) : frames (@raise B A e).
Proof. apply frames_same. intros w. exists (Raise e). auto. Qed.

Lemma frames_lift {A} (r : result A) : frames (@lift B A r).
Proof. apply frames_same. intros w. exists r. auto. Qed.

Lemma frames_now : frames (@now B).
Proof. apply frames_same. intros w. eexists. right. left. reflexivity. Qed.

Lemma frames_get_secret key : frames (@get_secret B key).
Proof. apply frames_same. intros w. eexists. left. reflexivity. Qed.

Lemma frames_getenv name : frames (@getenv B name).
Proof. apply frames_same. intros w. eexists. left. reflexivity. Qed.

Lemma frames_emit e : frames (@emit B e).
Proof.
apply frames_same. intros w. exists (Ok tt). right. right. right.
exists e. reflexivity.
Qed.

Lemma frames_call {A} (op : B -> outcome A * B) : frames (call op).
Proof.
apply frames_same. intros w. unfold call.
destruct (op (browser w)) as [o b']. eexists. right. right. left. eauto.
Qed.

Lemma frames_bind {A C} (c : M B A) (f : A -> M B C) :
  frames c -> (forall a, frames (f a)) -> frames (bind c f).
Proof.
intros Hc Hf w r w' H.
destruct (bind_inv _ _ _ H) as [[e [E ->]] | [a [w1 [E1 E2]]]].
- apply Hc in E. exact E.
- apply Hc in E1. apply Hf in E2.
  destruct E1 as [K1 [V1 [C1 [L1 T1]]]]. destruct E2 as [K2 [V2 [C2 [L2 T2]]]].
  repeat split; try congruence. lia.
Qed.

Lemma frames_if {A} (b : bool) (c1 c2 : M B A) :
  frames c1 -> frames c2 -> frames (if b then c1 else c2).
Proof. destruct b; auto. Qed.

Lemma frames_page_goto p url : frames (page_goto p url).
Proof.
destruct url as [u |]; simpl.
- intros w r w' H. unfold call in H.
  destruct (br_goto p u (browser w)) as [[[] | |] b']; simpl in H;
    unfold emit, bind, raise in H; simpl in H; inversion H; subst; simpl;
    repeat split; lia.
- apply frames_bind; [apply frames_emit | intros; apply frames_raise].
Qed.

Lemma frames_post token msg : frames (@requests_post B token msg).
Proof.
unfold requests_post. apply frames_bind; [apply frames_emit |].
intros _. apply frames_same. intros w. eexists. left. reflexivity.
Qed.

Lemma frames_console text : frames (@console_print B text).
Proof.
unfold console_print. apply frames_bind; [apply frames_emit |].
intros _. apply frames_same. intros w. eexists. left. reflexivity.
Qed.

Create HintDb frame discriminated.

Hint Resolve frames_ret frames_raise frames_lift frames_now
     frames_get_secret frames_getenv frames_emit frames_call
     frames_page_goto frames_post frames_console : frame.

Ltac frame :=
  repeat first
    [ solve [ auto with frame ]
    | apply frames_bind; [| intros ]
    | apply frames_if ].

Lemma frames_login : frames login.
Proof. unfold login, new_page. frame. Qed.

Lemma frames_fetch_items U p items : frames (fetch_items U p items).
Proof.
induction items as [| itm rest IH]; simpl; [apply frames_ret |]. frame.
Qed.

Lemma frames_fetch_upcoming U p : frames (fetch_upcoming U p).
Proof.
unfold fetch_upcoming. pose proof (frames_fetch_items U p). frame.
Qed.

Lemma frames_is_submitted p lnk : frames (is_submitted p lnk).
Proof. unfold is_submitted. frame. Qed.

Lemma frames_classify p thr ups : forall acc, frames (classify p thr ups acc).
Proof.
induction ups as [| t rest IH]; intros acc; simpl; [apply frames_ret |].
destruct (in_window thr t); [| apply IH].
apply frames_bind; [apply frames_is_submitted |].
intros s. destruct (negb s); apply IH.
Qed.

Lemma frames_notify alerts : frames (@notify B alerts).
Proof.
unfold notify.
repeat first
  [ solve [ auto with frame ]
  | apply frames_bind; [| intros ]
  | apply frames_if
  | match goal with
    | |- frames (let _ := _ in _) => cbv zeta
    end ].
Qed.

Lemma frames_run U h : frames (run U h).
Proof.
unfold run.
pose proof frames_login. pose proof (frames_fetch_upcoming U).
pose proof frames_classify. pose proof frames_notify. frame.
Qed.

(** ** Pages opened *)

Lemma navigates_same {A} (c : M B A) :
  (forall w, exists r, c w = (r, w) \/ c w = (r, tick w) \/
                       (exists b, c w = (r, set_browser b w))) ->
  navigates c.
Proof.
intros H w r w' Hc. exists []. rewrite app_nil_r.
destruct (H w) as [r0 [E | [E | [b E]]]]; rewrite E in Hc;
  inversion Hc; subst; split; reflexivity.
Qed.

Lemma navigates_ret {A} (a : A) : navigates (@ret B A a).
Proof. apply navigates_same. intros w. exists (Ok a). auto. Qed.

Lemma navigates_lift {A} (r : result A) : navigates (@lift B A r).
Proof. apply navigates_same. intros w. exists r. auto. Qed.

Lemma navigates_call {A} (op : B -> outcome A * B) : navigates (call op).
Proof.
apply navigates_same. intros w. unfold call.
destruct (op (browser w)) as [o b']. eexists. right. right. eauto.
Qed.

Lemma navigates_bind {A C} (c : M B A) (f : A -> M B C) :
  navigates c -> (forall a, navigates (f a)) -> navigates (bind c f).
Proof.
intros Hc Hf w r w' H.
destruct (bind_inv _ _ _ H) as [[e [E ->]] | [a [w1 [E1 E2]]]].
- apply Hc in E. exact E.
- apply Hc in E1. destruct E1 as [d1 [L1 F1]].
  apply Hf in E2. destruct E2 as [d2 [L2 F2]].
  exists (d1 ++ d2). rewrite L2, L1, app_assoc.
  split; [reflexivity | apply forallb_app_true; assumption].
Qed.

Lemma navigates_page_goto p url : navigates (page_goto p url).
Proof.
intros w r w' H. destruct url as [u |]; simpl in H.
- unfold call in H. destruct (br_goto p u (browser w)) as [[[] | |] b'];
    simpl in H; unfold emit, bind, raise in H; simpl in H;
    inversion H; subst; simpl; eexists; (split; [reflexivity |]);
    reflexivity.
- unfold emit, bind, raise in H. inversion H; subst. simpl.
  eexists; (split; [reflexivity |]); reflexivity.
Qed.

Create HintDb nav discriminated.

Hint Resolve navigates_ret navigates_lift navigates_call
     navigates_page_goto : nav.

Ltac nav :=
  repeat first
    [ solve [ auto with nav ]
    | apply navigates_bind; [| intros ] ].

Lemma navigates_fetch_items U p items : navigates (fetch_items U p items).
Proof.
induction items as [| itm rest IH]; simpl; [apply navigates_ret |]. nav.
Qed.

Lemma navigates_fetch_upcoming U p : navigates (fetch_upcoming U p).
Proof.
unfold fetch_upcoming. pose proof (navigates_fetch_items U p). nav.
Qed.

Lemma navigates_is_submitted p lnk : navigates (is_submitted p lnk).
Proof. unfold is_submitted. nav. Qed.

Lemma navigates_classify p thr ups :
  forall acc, navigates (classify p thr ups acc).
Proof.
induction ups as [| t rest IH]; intros acc; simpl; [apply navigates_ret |].
destruct (in_window thr t); [| apply IH].
apply navigates_bind; [apply navigates_is_submitted |].
intros s. destruct (negb s); apply IH.
Qed.

Lemma goto_only d :
  forallb is_goto d = true ->
  opens d = 0%nat /\ closes d = 0%nat /\ notify_calls d = [] /\
  filter is_post d = [] /\ forallb is_browse d = true.
Proof.
induction d as [| e d IH]; simpl; [auto |]. intros H.
apply andb_true_iff in H. destruct H as [He Hd].
destruct e; simpl in *; try discriminate.
destruct (IH Hd) as [O [C [N [P Bd]]]]. unfold opens, closes in *. simpl.
auto.
Qed.

Lemma delivery_only d :
  forallb is_delivery d = true ->
  opens d = 0%nat /\ closes d = 0%nat /\ existsb is_browse d = false.
Proof.
induction d as [| e d IH]; simpl; [auto |]. intros H.
apply andb_true_iff in H. destruct H as [He Hd].
destruct (IH Hd) as [O [C Bd]]. unfold opens, closes in *.
destruct e; simpl in *; try discriminate; auto.
Qed.

(** What [login] has logged when it returns a page, and at most one page
    opened when it raises. *)
Lemma login_log (w : World B) r w' :
  login w = (r, w') ->
  match r with
  | Ok p => log w' = log w ++ [EvNewPage p; EvGoto p (Some DASHBOARD_URL) true]
  | Raise _ => exists d, log w' = log w ++ d /\ (opens d <= 1)%nat /\
                         closes d = 0%nat
  end.
Proof.
unfold login, new_page, page_goto, bind, call, emit, ret, raise, get_secret.
simpl. generalize (py "ログインエラー"). intros mk.
repeat match goal with
       | |- context [let (_, _) := ?x in _] =>
           destruct x as [[? | |] ?]; simpl
       | |- context [if ?b then _ else _] => destruct b eqn:?; simpl
       end;
  intros H; inversion H; subst; simpl; rewrite <- ?app_assoc; simpl;
  try reflexivity;
  try (exists []; rewrite app_nil_r; repeat split; auto; fail);
  eexists; (split; [reflexivity |]); unfold opens, closes; simpl; auto.
Qed.

Lemma forallb_weaken {A} (P Q : A -> bool) l :
  (forall x, P x = true -> Q x = true) ->
  forallb P l = true -> forallb Q l = true.
Proof.
intros H. induction l as [| x l IH]; simpl; [auto |].
intros F. apply andb_true_iff in F. destruct F as [Fx Fl].
rewrite (H _ Fx), (IH Fl). reflexivity.
Qed.

Lemma logging_of_navigates {A} (c : M B A) :
  navigates c -> logging no_page_event c.
Proof.
intros H w r w' E. destruct (H _ _ _ E) as [d [L F]]. exists d.
split; [exact L |]. eapply forallb_weaken; [| exact F].
intros [] Hx; simpl in Hx; try discriminate; reflexivity.
Qed.

Lemma logging_bind {A C} P (c : M B A) (f : A -> M B C) :
  logging P c -> (forall a, logging P (f a)) -> logging P (bind c f).
Proof.
intros Hc Hf w r w' H.
destruct (bind_inv _ _ _ H) as [[e [E ->]] | [a [w1 [E1 E2]]]].
- apply Hc in E. exact E.
- apply Hc in E1. destruct E1 as [d1 [L1 F1]].
  apply Hf in E2. destruct E2 as [d2 [L2 F2]].
  exists (d1 ++ d2). rewrite L2, L1, app_assoc.
  split; [reflexivity | apply forallb_app_true; assumption].
Qed.

(** [notify] logs its call, then deliveries, among them at most one
    POST. *)
Lemma notify_events alerts (w : World B) r w' :
  notify alerts w = (r, w') ->
  exists d, log w' = log w ++ EvNotify alerts :: d /\
            forallb is_delivery d = true /\
            (length (filter is_post d) <= 1)%nat.
Proof.
unfold notify. generalize (header alerts). intros hd.
generalize (py "[bold red]LINE Notify failed:[/bold red] "). intros red.
unfold bind, emit, getenv, get_secret, now, lift, requests_post,
  console_print, ret.
generalize (join [10]). intros joined. simpl.
intros H.
repeat match type of H with
       | context [if ?b then _ else _] => destruct b; simpl in H
       | context [match ?x with Ok _ => _ | Raise _ => _ end] =>
           destruct x; simpl in H
       end;
  inversion H; subst; simpl; rewrite <- ?app_assoc; simpl;
  eexists; (split; [reflexivity |]); (split; [reflexivity |]); simpl; lia.
Qed.

Lemma logging_notify alerts : logging no_page_event (@notify B alerts).
Proof.
intros w r w' H. destruct (notify_log _ _ H) as [d [L F]].
exists (EvNotify alerts :: d). split; [exact L |]. simpl.
eapply forallb_weaken; [| exact F]. intros [] Hx; simpl in Hx; try discriminate; reflexivity.
Qed.

Lemma no_page_events d :
  forallb no_page_event d = true -> opens d = 0%nat /\ closes d = 0%nat.
Proof.
induction d as [| e d IH]; simpl; [auto |]. intros H.
apply andb_true_iff in H. destruct H as [He Hd].
destruct (IH Hd) as [O C]. unfold opens, closes in *.
destruct e; simpl in *; try discriminate; auto.
Qed.

(** After the login, a scan opens and closes no page. *)
Lemma logging_after_login U h p :
  logging no_page_event
    (bind (fetch_upcoming U p) (fun upcoming =>
     bind now (fun t0 =>
     bind (lift (timedelta_hours h)) (fun delta =>
     bind (lift (datetime_add t0 delta)) (fun threshold =>
     bind (classify p threshold upcoming []) (fun alerts =>
     bind (if nonempty alerts then notify alerts else ret tt) (fun _ =>
     ret (Z.of_nat (length alerts))))))))).
Proof.
assert (Q : forall A (c : M B A),
          (forall w, exists r, c w = (r, w) \/ c w = (r, tick w)) ->
          logging no_page_event c).
{ intros A c H. apply logging_of_navigates. apply navigates_same.
  intros w. destruct (H w) as [r [E | E]]; exists r; auto. }
apply logging_bind;
  [apply logging_of_navigates; apply navigates_fetch_upcoming |].
intros ups. apply logging_bind;
  [apply Q; intros w; eexists; right; reflexivity |].
intros t0. apply logging_bind;
  [apply Q; intros w; eexists; left; reflexivity |].
intros delta. apply logging_bind;
  [apply Q; intros w; eexists; left; reflexivity |].
intros thr. apply logging_bind;
  [apply logging_of_navigates; apply navigates_classify |].
intros alerts. apply logging_bind.
- destruct (nonempty alerts); [apply logging_notify |].
  apply Q. intros w. eexists. left. reflexivity.
- intros _. apply Q. intros w. eexists. left. reflexivity.
Qed.

(** One scan: no page closed, at most one opened, exactly one when the
    scan returns. *)
Lemma run_pages U h (w : World B) r w' :
  run U h w = (r, w') ->
  exists d, log w' = log w ++ d /\ closes d = 0%nat /\
            (opens d <= 1)%nat /\
            (forall n, r = Ok n -> opens d = 1%nat).
Proof.
unfold run. intros H.
destruct (bind_inv _ _ _ H) as [[e [E ->]] | [p [w1 [E1 E2]]]].
- apply login_log in E. destruct E as [d [L [O C]]].
  exists d. repeat split; try assumption. intros n Hn. discriminate.
- apply login_log in E1.
  destruct (logging_after_login U h p _ E2) as [d [L F]].
  destruct (no_page_events _ F) as [O C].
  exists ([EvNewPage p; EvGoto p (Some DASHBOARD_URL) true] ++ d).
  rewrite L, E1, <- app_assoc. split; [reflexivity |].
  rewrite closes_app, opens_app, O, C. unfold opens, closes. simpl.
  repeat split; lia.
Qed.

(** One scan: first the browsing, then at most one notification with at
    most one POST. *)
Lemma run_order U h (w : World B) r w' :
  run U h w = (r, w') ->
  exists d1 d2,
    log w' = log w ++ d1 ++ d2 /\ forallb is_browse d1 = true /\
    existsb is_browse d2 = false /\
    (length (filter is_post (d1 ++ d2)) <= 1)%nat.
Proof.
rewrite run_split. intros H.
assert (P : forall d, forallb is_browse d = true -> filter is_post d = []).
{ induction d as [| e d IH]; simpl; [auto |]. intros F.
  apply andb_true_iff in F. destruct F as [Fe Fd].
  destruct e; simpl in *; try discriminate; auto. }
destruct (bind_inv _ _ _ H)
  as [[e [E ->]] | [[[ups thr] alerts] [w1 [E1 E2]]]].
- destruct (browses_scan_entries U h _ E) as [d [L [F _]]].
  exists d, []. rewrite !app_nil_r, (P d F). repeat split; auto.
- destruct (browses_scan_entries U h _ E1) as [d [L [F _]]].
  simpl in E2. unfold deliver in E2. destruct alerts as [| a alerts'].
  + simpl in E2. unfold bind, ret in E2. inversion E2; subst.
    exists d, []. rewrite !app_nil_r, (P d F). repeat split; auto.
  + simpl nonempty in E2. cbv iota in E2.
    assert (X : exists d2, log w' = log w1 ++ EvNotify (a :: alerts') :: d2
                           /\ forallb is_delivery d2 = true
                           /\ (length (filter is_post d2) <= 1)%nat).
    { destruct (bind_inv _ _ _ E2) as [[e [En ->]] | [[] [w2 [En Er]]]].
      - exact (notify_events _ _ En).
      - unfold ret in Er. inversion Er; subst. exact (notify_events _ _ En). }
    destruct X as [d2 [L2 [F2 P2]]].
    exists d, (EvNotify (a :: alerts') :: d2).
    rewrite L2, L, <- app_assoc. split; [reflexivity |].
    split; [exact F |]. split.
    * simpl. apply (delivery_only _ F2).
    * rewrite filter_app, (P d F). simpl. exact P2.
Qed.

(** The watch loop round by round. *)
Lemma watch_rounds_pages U quiet h : forall n (w : World B) r w',
  watch_rounds U n quiet h w = (r, w') ->
  exists d, log w' = log w ++ d /\ closes d = 0%nat /\
            (opens d <= n)%nat /\ (r = Ok tt -> opens d = n).
Proof.
induction n as [| n IH]; intros w r w' H; simpl in H.
- unfold ret in H. inversion H; subst. exists []. rewrite app_nil_r.
  repeat split; auto.
- destruct (bind_inv _ _ _ H) as [[e [E ->]] | [c [w1 [E1 E2]]]].
  + destruct (run_pages _ _ _ E) as [d [L [C [O _]]]].
    exists d. repeat split; try assumption; [lia | discriminate].
  + destruct (run_pages _ _ _ E1) as [d1 [L1 [C1 [_ O1]]]].
    specialize (O1 c eq_refl).
    destruct (bind_inv _ _ _ E2) as [[e [E ->]] | [[] [w2 [E3 E4]]]].
    * exfalso. destruct (negb quiet && (c =? 0)); inversion E.
    * assert (X : exists d2, log w2 = log w1 ++ d2 /\ closes d2 = 0%nat
                             /\ opens d2 = 0%nat).
      { destruct (negb quiet && (c =? 0)); inversion E3; subst.
        - eexists. split; [reflexivity |]. split; reflexivity.
        - exists []. rewrite app_nil_r. auto. }
      destruct X as [d2 [L2 [C2 O2]]].
      destruct (IH _ _ _ E4) as [d3 [L3 [C3 [O3 O3']]]].
      exists (d1 ++ d2 ++ d3). rewrite L3, L2, L1, <- !app_assoc.
      split; [reflexivity |].
      rewrite !closes_app, !opens_app, C1, C2, C3, O1, O2.
      repeat split; try lia. intros Hr. rewrite (O3' Hr). lia.
Qed.

End ExtraLemmas.

(* ================================================================== *)
(** * Further properties: configuration and login *)
(* ================================================================== *)

(** X3.  [configure] followed by [login]: the credentials count as
    missing exactly when the username or the password was answered with an
    empty line.  In that case a login that reaches the form raises
    "Credentials not stored; run with --configure first." although
    [configure] has just been run; with two non-empty answers [login]
    never raises that error. *)
Theorem configure_then_login :
  forall B (BR : Browser B) (u p token : pystr) (w : World B),
    let w1 := snd (configure u p token w) in
    credentials_missing w1 = negb (nonempty u) || negb (nonempty p)
    /\ (forall pg b1 b2 b3 b4 b5,
           nonempty u = false \/ nonempty p = false ->
           br_new_page (browser w1) = (Done pg, b1) ->
           br_goto pg DASHBOARD_URL b1 = (Done tt, b2) ->
           br_count pg SelTimeline b2 = (Done 0, b3) ->
           br_click_first pg SelLoginLink b3 = (Done tt, b4) ->
           br_wait_for_load_state pg NetworkIdle b4 = (Done tt, b5) ->
           fst (login w1) = Raise CREDENTIALS_NOT_STORED)
    /\ (nonempty u = true -> nonempty p = true ->
        forall w2, login w1 <> (Raise CREDENTIALS_NOT_STORED, w2)).
Proof.
intros B BR u p token w w1.
assert (M : credentials_missing w1 = negb (nonempty u) || negb (nonempty p)).
{ subst w1. rewrite configure_world. unfold credentials_missing.
  destruct token; destruct u; destruct p; reflexivity. }
split; [exact M |]. split.
- intros pg b1 b2 b3 b4 b5 He H1 H2 H3 H4 H5.
  eapply login_at_form; try eassumption.
  rewrite M. destruct He as [-> | ->]; [reflexivity | apply orb_true_r].
- intros Hu Hp w2 H. apply login_not_stored_only_if_missing in H.
  rewrite M, Hu, Hp in H. discriminate.
Qed.

Lemma configure_then_login_witness :
  (nonempty (py "") = false \/ nonempty (py "secret") = false)
  /\ fst (login (snd (configure (py "") (py "secret") (py "")
                                Scenario.w_missing)))
     = Raise CREDENTIALS_NOT_STORED
  /\ (nonempty (py "7400000") = true /\ nonempty (py "wrong") = true
      /\ fst (login (snd (configure (py "7400000") (py "wrong") (py "")
                                    Scenario.w_missing)))
         = Raise LOGIN_FAILED).
Proof.
split; [left; reflexivity |].
destruct (@configure_then_login _ Sim.sim_browser (py "") (py "secret")
            (py "") Scenario.w_missing) as [_ [H _]].
split.
- eapply H; [left; reflexivity | reflexivity ..].
- split; [reflexivity |]. split; [reflexivity |]. vm_compute. reflexivity.
Defined.

(* ================================================================== *)
(** * Further properties: what a scan does to the world *)
(* ================================================================== *)

(** X4.  A scan never writes the key-ring or the environment and leaves
    the clock and the LINE endpoint as they are: after [run], whatever its
    outcome, every secret and every variable reads as before.  (Only
    [save_secret], called from [configure], changes the key-ring.) *)
Theorem scan_leaves_store_alone :
  forall B (BR : Browser B) U h (w : World B),
    keyring (snd (run U h w)) = keyring w
    /\ environ (snd (run U h w)) = environ w
    /\ clock (snd (run U h w)) = clock w
    /\ line_api (snd (run U h w)) = line_api w
    /\ (ticks w <= ticks (snd (run U h w)))%nat
    /\ credentials_missing (snd (run U h w)) = credentials_missing w.
Proof.
intros B BR U h w. destruct (run U h w) as [r w'] eqn:E. simpl.
destruct (frames_run U h _ E) as [K [V [C [L T]]]].
repeat split; try assumption. unfold credentials_missing. rewrite K.
reflexivity.
Qed.

(** X5.  Whenever [login] returns a page it has opened exactly that one
    page and navigated exactly once, to the dashboard, and it has left the
    key-ring as it was.  With a cached session (the dashboard already shows
    the timeline region) it returns the page whatever the key-ring holds,
    also when no credentials are stored. *)
Theorem login_opens_one_page :
  forall B (BR : Browser B) (w : World B),
    (forall p w',
        login w = (Ok p, w') ->
        log w' = log w ++ [EvNewPage p; EvGoto p (Some DASHBOARD_URL) true]
        /\ keyring w' = keyring w)
    /\ (forall p b1 b2 b3 n,
           br_new_page (browser w) = (Done p, b1) ->
           br_goto p DASHBOARD_URL b1 = (Done tt, b2) ->
           br_count p SelTimeline b2 = (Done n, b3) ->
           n <> 0 ->
           fst (login w) = Ok p /\ browser (snd (login w)) = b3).
Proof.
intros B BR w. split.
- intros p w' H. split.
  + exact (login_log _ H).
  + apply (frames_login _ H).
- intros p b1 b2 b3 n H1 H2 H3 Hn. apply Z.eqb_neq in Hn.
  unfold login, new_page, page_goto, bind, call, emit, ret. simpl.
  rewrite H1. simpl. rewrite H2. simpl. rewrite H3. simpl. rewrite Hn.
  simpl. split; reflexivity.
Qed.

Lemma login_opens_one_page_witness :
  credentials_missing Scenario.w_report = true
  /\ fst (login Scenario.w_report) = Ok 0%nat
  /\ log (snd (login Scenario.w_report))
     = log Scenario.w_report
       ++ [EvNewPage 0%nat; EvGoto 0%nat (Some DASHBOARD_URL) true].
Proof.
destruct (@login_opens_one_page _ Sim.sim_browser Scenario.w_report)
  as [Hlog Hcached].
split; [reflexivity |].
assert (E : fst (login Scenario.w_report) = Ok 0%nat).
{ eapply (Hcached 0%nat _ _ _ 1); [reflexivity .. | discriminate]. }
split; [exact E |].
apply (Hlog 0%nat (snd (login Scenario.w_report))).
vm_compute. reflexivity.
Defined.

(** X6.  Within one scan everything that touches the browser comes
    before the notification: the log of [run] is a run of page and
    navigation events followed by events none of which is a page or
    navigation event, and it holds at most one POST to LINE. *)
Theorem notification_comes_last :
  forall B (BR : Browser B) U h (w : World B),
    exists d1 d2,
      log (snd (run U h w)) = log w ++ d1 ++ d2
      /\ forallb is_browse d1 = true
      /\ existsb is_browse d2 = false
      /\ (length (filter is_post (d1 ++ d2)) <= 1)%nat.
Proof.
intros B BR U h w. destruct (run U h w) as [r w'] eqn:E. simpl.
exact (run_order _ _ _ E).
Qed.

(** X7.  The watch loop: every round opens at most one page and none is
    ever closed, so a loop that completes [n] rounds has opened exactly [n]
    pages; an exception raised by a scan is not caught and ends the loop in
    that round. *)
Theorem watch_loop_pages :
  forall B (BR : Browser B) U n watch_min quiet h (w : World B),
    (exists d,
        log (snd (main_watch U n watch_min quiet h w))
        = log w ++ EvConsole (py "Watching LETUS every "
                              ++ str_of_int watch_min
                              ++ py " min… (Ctrl+C で停止)") :: d
        /\ closes d = 0%nat /\ (opens d <= n)%nat
        /\ (fst (main_watch U n watch_min quiet h w) = Ok tt ->
            opens d = n))
    /\ (forall e w1,
           run U h w = (Raise e, w1) ->
           watch_rounds U (S n) quiet h w = (Raise e, w1)).
Proof.
intros B BR U n watch_min quiet h w. split.
- set (banner := py "Watching LETUS every " ++ str_of_int watch_min
                 ++ py " min… (Ctrl+C で停止)").
  change (main_watch U n watch_min quiet h w)
    with (watch_rounds U n quiet h (add_event (EvConsole banner) w)).
  destruct (watch_rounds U n quiet h (add_event (EvConsole banner) w))
    as [r w'] eqn:E. cbn [fst snd].
  destruct (watch_rounds_pages _ _ _ _ _ E) as [d [L [C [O O']]]].
  exists d.
  change (log (add_event (EvConsole banner) w))
    with (log w ++ [EvConsole banner]) in L.
  rewrite <- app_assoc in L. repeat split; assumption.
- intros e w1 H. simpl. unfold bind at 1. rewrite H. reflexivity.
Qed.

Lemma watch_loop_pages_witness :
  fst (main_watch ascii_ucd 3 30 false 2 Scenario.w_test) = Ok tt
  /\ opens (log (snd (main_watch ascii_ucd 3 30 false 2 Scenario.w_test)))
     = 3%nat
  /\ run ascii_ucd 48 Scenario.w_missing
     = (Raise CREDENTIALS_NOT_STORED, snd (run ascii_ucd 48 Scenario.w_missing))
  /\ watch_rounds ascii_ucd 5 true 48 Scenario.w_missing
     = (Raise CREDENTIALS_NOT_STORED, snd (run ascii_ucd 48 Scenario.w_missing)).
Proof.
destruct (@watch_loop_pages _ Sim.sim_browser ascii_ucd 3 30 false 2
            Scenario.w_test) as [[d [L [C [O O']]]] _].
destruct (@watch_loop_pages _ Sim.sim_browser ascii_ucd 4 30 true 48
            Scenario.w_missing) as [_ Hraise].
assert (E : fst (main_watch ascii_ucd 3 30 false 2 Scenario.w_test) = Ok tt)
  by (vm_compute; reflexivity).
split; [exact E |]. split.
- rewrite L. unfold opens in *. rewrite filter_app. simpl.
  rewrite (O' E). reflexivity.
- assert (R : run ascii_ucd 48 Scenario.w_missing
              = (Raise CREDENTIALS_NOT_STORED,
                 snd (run ascii_ucd 48 Scenario.w_missing)))
    by (vm_compute; reflexivity).
  split; [exact R |]. apply Hraise. exact R.
Defined.
(* ================================================================== *)
(** * Lemmas for the further properties of the scan *)
(* ================================================================== *)

Section MoreLemmas.

Context {B : Type} {BR : Browser B}.

(** ** Commands that log nothing *)

Lemma logging_quiet {A} P (c : M B A) :
  (forall w, exists r, c w = (r, w) \/ c w = (r, tick w) \/
                       (exists b, c w = (r, set_browser b w))) ->
  logging P c.
Proof.
intros H w r w' Hc. exists []. rewrite app_nil_r.
destruct (H w) as [r0 [E | [E | [b E]]]]; rewrite E in Hc;
  inversion Hc; subst; split; reflexivity.
Qed.

Lemma logging_ret {A} P (a : A) : logging P (@ret B A a).
Proof. apply logging_quiet. intros w. exists (Ok a). auto. Qed.

Lemma logging_lift {A} P (r : result A) : logging P (@lift B A r).
Proof. apply logging_quiet. intros w. exists r. auto. Qed.

Lemma logging_now P : logging P (@now B).
Proof. apply logging_quiet. intros w. eexists. right. left. reflexivity. Qed.

Lemma logging_call {A} P (op : B -> outcome A * B) : logging P (call op).
Proof.
apply logging_quiet. intros w. unfold call.
destruct (op (browser w)) as [o b']. eexists. right. right. eauto.
Qed.

Lemma logging_page_goto p url : logging (stays_on p) (page_goto p url).
Proof.
intros w r w' H. destruct url as [u |]; simpl in H.
- unfold call in H. destruct (br_goto p u (browser w)) as [[[] | |] b'];
    simpl in H; unfold emit, bind, raise in H; simpl in H;
    inversion H; subst; simpl; eexists; (split; [reflexivity |]);
    simpl; rewrite Nat.eqb_refl; reflexivity.
- unfold emit, bind, raise in H. inversion H; subst. simpl.
  eexists; (split; [reflexivity |]); simpl; rewrite Nat.eqb_refl;
  reflexivity.
Qed.

Create HintDb onpage discriminated.

Hint Resolve logging_ret logging_lift logging_now logging_call
     logging_page_goto : onpage.

Ltac onpage :=
  repeat first
    [ solve [ auto with onpage ]
    | apply logging_bind; [| intros ] ].

Lemma stays_fetch_items U p items :
  logging (stays_on p) (fetch_items U p items).
Proof.
induction items as [| itm rest IH]; simpl; [apply logging_ret |]. onpage.
Qed.

Lemma stays_classify p thr ups :
  forall acc, logging (stays_on p) (classify p thr ups acc).
Proof.
induction ups as [| t rest IH]; intros acc; simpl; [apply logging_ret |].
destruct (in_window thr t); [| apply IH].
apply logging_bind; [unfold is_submitted; onpage |].
intros s. destruct (negb s); apply IH.
Qed.

Lemma stays_notify p alerts : logging (stays_on p) (@notify B alerts).
Proof.
intros w r w' H. destruct (notify_log _ _ H) as [d [L F]].
exists (EvNotify alerts :: d). split; [exact L |]. simpl.
eapply forallb_weaken; [| exact F].
intros [] Hx; simpl in Hx; try discriminate; reflexivity.
Qed.

(** What follows the login in a scan keeps to the page of the login, and
    begins with a second request for the dashboard. *)
Lemma after_login_log U h p (w : World B) r w' :
  bind (fetch_upcoming U p) (fun upcoming =>
  bind now (fun t0 =>
  bind (lift (timedelta_hours h)) (fun delta =>
  bind (lift (datetime_add t0 delta)) (fun threshold =>
  bind (classify p threshold upcoming []) (fun alerts =>
  bind (if nonempty alerts then notify alerts else ret tt) (fun _ =>
  ret (Z.of_nat (length alerts)))))))) w = (r, w') ->
  exists loaded d,
    log w' = log w ++ EvGoto p (Some DASHBOARD_URL) loaded :: d /\
    forallb (stays_on p) d = true /\
    (loaded = false -> d = [] /\ exists e, r = Raise e).
Proof.
unfold fetch_upcoming. intros H.
apply bind_inv in H.
assert (G : forall r1 w1, page_goto p (Some DASHBOARD_URL) w = (r1, w1) ->
            exists loaded,
              log w1 = log w ++ [EvGoto p (Some DASHBOARD_URL) loaded] /\
              (loaded = false -> exists e, r1 = Raise e)).
{ intros r1 w1 G. simpl in G. unfold call in G.
  destruct (br_goto p DASHBOARD_URL (browser w)) as [[[] | |] b'];
    simpl in G; unfold emit, bind, raise in G; simpl in G;
    inversion G; subst; simpl; eexists; (split; [reflexivity |]);
    intros; try discriminate; eauto. }
destruct H as [[e [E ->]] | [ups [w1 [E1 E2]]]].
- apply bind_inv in E. destruct E as [[e' [E X]] | [[] [w1 [E1 E2]]]].
  + destruct (G _ _ E) as [loaded [L _]]. exists loaded, [].
    split; [exact L |]. split; [reflexivity |]. intros _.
    split; [reflexivity | eauto].
  + destruct (G _ _ E1) as [loaded [L Hl]].
    assert (Q : logging (stays_on p)
                  (bind (call (br_wait_for_selector p SelTimeline))
                     (fun _ => bind (call (br_all p SelTimelineItem))
                                 (fun items => fetch_items U p items))))
      by (pose proof (stays_fetch_items U p); onpage).
    destruct (Q _ _ _ E2) as [d [L2 F]].
    exists loaded, d. rewrite L2, L, <- app_assoc.
    split; [reflexivity |]. split; [exact F |].
    intros Hf. destruct (Hl Hf) as [e' X]. discriminate.
- apply bind_inv in E1.
  destruct E1 as [[e' [_ X]] | [[] [w0 [E0 E1]]]]; [discriminate |].
  destruct (G _ _ E0) as [loaded [L Hl]].
  assert (Q : logging (stays_on p)
                (bind (call (br_wait_for_selector p SelTimeline))
                   (fun _ => bind (call (br_all p SelTimelineItem))
                               (fun items => fetch_items U p items))))
    by (pose proof (stays_fetch_items U p); onpage).
  destruct (Q _ _ _ E1) as [d1 [L1 F1]].
  assert (R : logging (stays_on p)
                (bind now (fun t0 =>
                 bind (lift (timedelta_hours h)) (fun delta =>
                 bind (lift (datetime_add t0 delta)) (fun threshold =>
                 bind (classify p threshold ups []) (fun alerts =>
                 bind (if nonempty alerts then notify alerts else ret tt)
                   (fun _ => ret (Z.of_nat (length alerts))))))))).
  { pose proof (stays_classify p). pose proof (stays_notify p).
    apply logging_bind; [apply logging_now |]. intros t0.
    apply logging_bind; [apply logging_lift |]. intros dl.
    apply logging_bind; [apply logging_lift |]. intros thr.
    apply logging_bind; [auto |]. intros al.
    apply logging_bind; [destruct (nonempty al); auto with onpage |].
    intros _. apply logging_ret. }
  destruct (R _ _ _ E2) as [d2 [L2 F2]].
  exists loaded, (d1 ++ d2). rewrite L2, L1, L, <- !app_assoc.
  split; [reflexivity |]. split; [apply forallb_app_true; assumption |].
  intros Hf. destruct (Hl Hf) as [e' X]. discriminate.
Qed.

End MoreLemmas.

(* ================================================================== *)
(** * Further properties: what the parser returns *)
(* ================================================================== *)

(** X8.  Every timestamp that [parse_due_date] returns has passed the
    checks of the [datetime] constructor, lies on a whole minute (seconds
    and microseconds are zero) and carries the JST zone, whichever of the
    two patterns matched and whatever the Unicode database holds. *)
Theorem parsed_due_is_valid_minute :
  forall U text t,
    parse_due_date U text = Ok (Some t) ->
    valid_datetime t = true
    /\ t = at_minute (year t) (month t) (day t) (hour t) (minute t)
    /\ tz t = JST.
Proof.
intros U text t. unfold parse_due_date.
assert (K : forall y m d hh mm,
          (rbind (new_datetime y m d hh mm 0 0) (fun t => Ok (Some t)))
          = Ok (Some t) ->
          valid_datetime t = true
          /\ t = at_minute (year t) (month t) (day t) (hour t) (minute t)
          /\ tz t = JST).
{ intros y m d hh mm H.
  destruct (new_datetime y m d hh mm 0 0) as [t' | e] eqn:E;
    [| discriminate].
  simpl in H. inversion H; subst t'.
  destruct (new_datetime_ok _ _ _ _ _ _ _ E) as [V ->].
  repeat split. exact V. }
destruct (search U false jp_pattern text) as [jp |].
- intros H.
  repeat match type of H with
         | rbind (int_of ?u ?s) _ = _ =>
             destruct (int_of u s); simpl in H; [| discriminate]
         end.
  exact (K _ _ _ _ _ H).
- destruct (search U true en_pattern text) as [en |]; [| discriminate].
  cbv zeta. intros H.
  destruct (strptime_b_month _ _); simpl in H; [| discriminate].
  repeat match type of H with
         | rbind (int_of ?u ?s) _ = _ =>
             destruct (int_of u s); simpl in H; [| discriminate]
         end.
  exact (K _ _ _ _ _ H).
Qed.

Lemma parsed_due_is_valid_minute_witness :
  parse_due_date ascii_ucd (py "Quiz 5 August 2025 at 9:15 PM")
  = Ok (Some (at_minute 2025 8 5 21 15))
  /\ valid_datetime (at_minute 2025 8 5 21 15) = true.
Proof.
assert (E : parse_due_date ascii_ucd (py "Quiz 5 August 2025 at 9:15 PM")
            = Ok (Some (at_minute 2025 8 5 21 15)))
  by (vm_compute; reflexivity).
split; [exact E |].
exact (proj1 (@parsed_due_is_valid_minute ascii_ucd _ _ E)).
Defined.

(* ================================================================== *)
(** * Further properties: reading the timeline *)
(* ================================================================== *)

(** X9.  What [fetch_upcoming] returns: after the dashboard has loaded
    and the timeline region has appeared, one entry for every item that
    the timeline locator yields, read in turn, in the same order and none
    dropped, an item without a date included.  The label of an entry is
    the stripped inner text of its item (no whitespace at either end, and
    stripping it again changes nothing), its link is the href of the item,
    and its [due] field is what [parse_due_date] makes of the stripped
    label. *)
Theorem fetched_entries_are_parsed_labels :
  forall B (BR : Browser B) U p (w : World B) ups w',
    fetch_upcoming U p w = (Ok ups, w') ->
    (exists w0 items b1,
        bind (page_goto p (Some DASHBOARD_URL))
             (fun _ => call (br_wait_for_selector p SelTimeline)) w
        = (Ok tt, w0)
        /\ br_all p SelTimelineItem (browser w0) = (Done items, b1)
        /\ reads_timeline U p b1 items ups (browser w')
        /\ length ups = length items)
    /\ Forall (fun t => parse_due_date U (label t) = Ok (due t)
                        /\ trimmed U (label t)
                        /\ strip U (label t) = label t) ups.
Proof.
intros B BR U p w ups w' H.
destruct (fetch_upcoming_items _ _ _ H) as [w0 [items [b1 [Hg [Ha R]]]]].
destruct (reads_timeline_parsed R) as [Hlen F].
split.
- exists w0, items, b1. auto.
- eapply Forall_impl; [| exact F]. intros t [P T].
  split; [exact P |]. split; [exact T | apply strip_fixed; exact T].
Qed.

Lemma fetched_entries_are_parsed_labels_witness :
  fetch_upcoming ascii_ucd 0%nat Cases.w_padded
  = (Ok [Cases.essay], snd (fetch_upcoming ascii_ucd 0%nat Cases.w_padded))
  /\ Forall (fun t => parse_due_date ascii_ucd (label t) = Ok (due t)
                      /\ trimmed ascii_ucd (label t)
                      /\ strip ascii_ucd (label t) = label t)
            [Cases.essay]
  /\ fetch_upcoming ascii_ucd 0%nat Scenario.w_mixed
     = (Ok Cases.mixed_upcoming,
        snd (fetch_upcoming ascii_ucd 0%nat Scenario.w_mixed))
  /\ In Cases.no_date Cases.mixed_upcoming
  /\ exists w0 items b1,
       br_all 0%nat SelTimelineItem (browser w0) = (Done items, b1)
       /\ reads_timeline ascii_ucd 0%nat b1 items Cases.mixed_upcoming
            (browser (snd (fetch_upcoming ascii_ucd 0%nat Scenario.w_mixed)))
       /\ length Cases.mixed_upcoming = length items.
Proof.
assert (E : fetch_upcoming ascii_ucd 0%nat Cases.w_padded
            = (Ok [Cases.essay],
               snd (fetch_upcoming ascii_ucd 0%nat Cases.w_padded)))
  by (vm_compute; reflexivity).
assert (E' : fetch_upcoming ascii_ucd 0%nat Scenario.w_mixed
             = (Ok Cases.mixed_upcoming,
                snd (fetch_upcoming ascii_ucd 0%nat Scenario.w_mixed)))
  by (vm_compute; reflexivity).
split; [exact E |].
split; [exact (proj2 (@fetched_entries_are_parsed_labels _ Sim.sim_browser
                        ascii_ucd 0%nat Cases.w_padded _ _ E)) |].
split; [exact E' |].
split; [right; right; left; reflexivity |].
destruct (proj1 (@fetched_entries_are_parsed_labels _ Sim.sim_browser
                   ascii_ucd 0%nat Scenario.w_mixed _ _ E'))
  as [w0 [items [b1 [_ [Ha [R Hlen]]]]]].
exists w0, items, b1. auto.
Defined.

(* ================================================================== *)
(** * Further properties: one page for the whole scan *)
(* ================================================================== *)

(** X10.  Once [login] has returned its page, everything else the scan
    does happens on that page: no other page is opened, every navigation
    is a navigation of that page, and the first of them is a second
    request for the dashboard, which [fetch_upcoming] makes although
    [login] has just loaded it.  If that second request fails the scan
    ends there with an exception. *)
Theorem scan_keeps_to_login_page :
  forall B (BR : Browser B) U h (w : World B) p w1,
    login w = (Ok p, w1) ->
    exists loaded d,
      log (snd (run U h w))
      = log w ++ [EvNewPage p; EvGoto p (Some DASHBOARD_URL) true;
                  EvGoto p (Some DASHBOARD_URL) loaded] ++ d
      /\ forallb (stays_on p) d = true
      /\ (loaded = false ->
          d = [] /\ exists e, fst (run U h w) = Raise e).
Proof.
intros B BR U h w p w1 Hl.
destruct (run U h w) as [r w'] eqn:E. cbn [fst snd].
unfold run in E. unfold bind at 1 in E. rewrite Hl in E.
destruct (after_login_log _ _ _ _ E) as [loaded [d [L [F X]]]].
exists loaded, d. rewrite L.
pose proof (login_log _ Hl) as L1. cbv beta iota in L1. rewrite L1.
rewrite <- app_assoc. split; [reflexivity |]. split; assumption.
Qed.

Lemma scan_keeps_to_login_page_witness :
  login Scenario.w_mixed = (Ok 0%nat, snd (login Scenario.w_mixed))
  /\ log (snd (run ascii_ucd 48 Scenario.w_mixed))
     = log Scenario.w_mixed
       ++ [EvNewPage 0%nat; EvGoto 0%nat (Some DASHBOARD_URL) true;
           EvGoto 0%nat (Some DASHBOARD_URL) true]
       ++ skipn 3 (log (snd (run ascii_ucd 48 Scenario.w_mixed)))
  /\ forallb (stays_on 0%nat)
       (skipn 3 (log (snd (run ascii_ucd 48 Scenario.w_mixed)))) = true.
Proof.
assert (E : login Scenario.w_mixed = (Ok 0%nat, snd (login Scenario.w_mixed)))
  by (vm_compute; reflexivity).
split; [exact E |].
destruct (@scan_keeps_to_login_page _ Sim.sim_browser ascii_ucd 48
            Scenario.w_mixed _ _ E) as [loaded [d [L [F _]]]].
rewrite L. change (log Scenario.w_mixed) with (@nil event).
cbn [app skipn]. split; [| exact F].
assert (X : hd_error (skipn 2 (log (snd (run ascii_ucd 48 Scenario.w_mixed))))
            = Some (EvGoto 0%nat (Some DASHBOARD_URL) true))
  by (vm_compute; reflexivity).
rewrite L in X. change (log Scenario.w_mixed) with (@nil event) in X.
cbn [app skipn hd_error] in X. inversion X. reflexivity.
Defined.

(* ================================================================== *)
(** * Further properties: the window *)
(* ================================================================== *)

(** X11.  The window of a scan has no lower bound.  In a scan that has
    read the timeline and returns, with a window of [h >= 0] hours every
    entry whose due date is not later than the clock reading has been
    submitted to the classifier (its link was visited), however long ago
    it was due.  A negative [h] is accepted as it is (every [h] from
    -23 999 999 976 to 23 999 999 999 makes a [timedelta]): the threshold
    then lies before the clock reading and every entry notified is
    overdue.  The window grows with [h]. *)
Theorem window_has_no_lower_bound :
  forall B (BR : Browser B) U h (w : World B) p w1 ups w2 delta thr n w',
    login w = (Ok p, w1) ->
    fetch_upcoming U p w1 = (Ok ups, w2) ->
    timedelta_hours h = Ok delta ->
    datetime_add (clock w2 (ticks w2)) delta = Ok thr ->
    run U h w = (Ok n, w') ->
    (forall k, -23999999976 <= k < 24000000000 ->
               timedelta_hours k = Ok (k * US_PER_HOUR))
    /\ (forall t k k',
           k <= k' -> within_window (clock w2 (ticks w2)) k t = true ->
           within_window (clock w2 (ticks w2)) k' t = true)
    /\ exists d,
         log w' = log w2 ++ d
         /\ (0 <= h ->
             forall t dd,
               In t ups -> due t = Some dd ->
               to_microseconds dd <= to_microseconds (clock w2 (ticks w2)) ->
               In (link t) (gotos d))
         /\ (h < 0 ->
             Forall (Forall (fun t =>
                       exists dd, due t = Some dd /\
                                  to_microseconds dd
                                  < to_microseconds (clock w2 (ticks w2))))
                    (notify_calls d)).
Proof.
intros B BR U h w p w1 ups w2 delta thr n w' Hl Hf Hd Ha Hr.
assert (P : 0 < US_PER_HOUR) by reflexivity.
split; [| split].
- intros k Hk. unfold timedelta_hours, timedelta, between, MAX_DELTA_DAYS,
    US_PER_DAY.
  assert (Q : k * US_PER_HOUR / (24 * US_PER_HOUR) = k / 24).
  { rewrite <- (Z.mul_comm US_PER_HOUR 24).
    rewrite <- Z.div_div by (unfold US_PER_HOUR, US_PER_SECOND; lia).
    rewrite Z.div_mul by discriminate. reflexivity. }
  rewrite Q.
  destruct (_ && _) eqn:E; [reflexivity |]. exfalso.
  apply andb_false_iff in E.
  destruct E as [E | E]; apply Z.leb_gt in E;
    Z.div_mod_to_equations; lia.
- intros t k k' Hk. unfold within_window.
  destruct (due t) as [dd |]; [| discriminate].
  intros H. apply Z.leb_le in H. apply Z.leb_le. nia.
- destruct (run_at_risk U h w Hl Hf Hd Ha Hr) as [d [L [G [Hn Hc]]]].
  exists d. split; [exact L |]. split.
  + intros Hh t dd Hi Hdue Hle. rewrite G.
    apply in_map. apply filter_In. split; [exact Hi |].
    unfold within_window. rewrite Hdue. apply Z.leb_le. nia.
  + intros Hh. destruct (Hc n eq_refl) as [alerts [w4 [Hk _]]].
    destruct (Hn _ _ Hk) as [_ N]. rewrite N.
    destruct (nonempty alerts); constructor; [| constructor].
    apply at_risk_subseq in Hk.
    assert (S : forall l1 l2 : list task,
              subseq l1 l2 -> forall x, In x l1 -> In x l2).
    { induction 1; simpl; intros y Hy; [exact Hy | right; auto |].
      destruct Hy as [-> | Hy]; [left; reflexivity | right; auto]. }
    apply Forall_forall. intros t Ht. apply (S _ _ Hk) in Ht.
    apply filter_In in Ht. destruct Ht as [_ Ht].
    unfold within_window in Ht. destruct (due t) as [dd |]; [| discriminate].
    exists dd. split; [reflexivity |]. apply Z.leb_le in Ht. nia.
Qed.

Lemma window_has_no_lower_bound_witness :
  login Cases.w_overdue = (Ok 0%nat, snd (login Cases.w_overdue))
  /\ fetch_upcoming ascii_ucd 0%nat (snd (login Cases.w_overdue))
     = (Ok Cases.overdue_upcoming, Cases.fetched Cases.w_overdue)
  /\ timedelta_hours (-24) = Ok (-24 * US_PER_HOUR)
  /\ datetime_add Scenario.t_now (-24 * US_PER_HOUR)
     = Ok (Sim.at_time 2025 8 3 10 0 0 0)
  /\ fst (run ascii_ucd (-24) Cases.w_overdue) = Ok 1
  /\ exists d,
       log (snd (run ascii_ucd (-24) Cases.w_overdue))
       = log (Cases.fetched Cases.w_overdue) ++ d
       /\ Forall (Forall (fun t =>
                    exists dd, due t = Some dd /\
                               to_microseconds dd
                               < to_microseconds Scenario.t_now))
                 (notify_calls d).
Proof.
assert (L : login Cases.w_overdue = (Ok 0%nat, snd (login Cases.w_overdue)))
  by (vm_compute; reflexivity).
assert (F : fetch_upcoming ascii_ucd 0%nat (snd (login Cases.w_overdue))
            = (Ok Cases.overdue_upcoming, Cases.fetched Cases.w_overdue))
  by (vm_compute; reflexivity).
assert (A : datetime_add
              (clock (Cases.fetched Cases.w_overdue)
                 (ticks (Cases.fetched Cases.w_overdue)))
              (-24 * US_PER_HOUR)
            = Ok (Sim.at_time 2025 8 3 10 0 0 0))
  by (vm_compute; reflexivity).
assert (R : run ascii_ucd (-24) Cases.w_overdue
            = (Ok 1, snd (run ascii_ucd (-24) Cases.w_overdue)))
  by (vm_compute; reflexivity).
destruct (@window_has_no_lower_bound _ Sim.sim_browser ascii_ucd (-24)
            Cases.w_overdue _ _ _ _ _ _ _ _ L F eq_refl A R)
  as [_ [_ [d [Hlog [_ Hneg]]]]].
split; [exact L |]. split; [exact F |]. split; [reflexivity |].
split; [vm_compute; reflexivity |].
split; [rewrite R; reflexivity |].
exists d. split; [exact Hlog |]. apply Hneg. lia.
Defined.

(** X12.  A window too large for a [timedelta] (24 000 000 000 hours or
    more, or less than -23 999 999 976) or one that carries the threshold
    out of the years 1 to 9999 is found out only after the login and after
    the timeline has been read: the scan then ends with an OverflowError,
    with the world as [fetch_upcoming] left it but for the clock reading,
    so no entry has been visited and nothing has been notified. *)
Theorem oversized_window_overflows :
  forall B (BR : Browser B) U h (w : World B),
    (timedelta_hours h = Raise (library_error OverflowError) <->
     h < -23999999976 \/ 24000000000 <= h)
    /\ (forall p w1 ups w2,
           login w = (Ok p, w1) ->
           fetch_upcoming U p w1 = (Ok ups, w2) ->
           (forall delta, timedelta_hours h = Ok delta ->
                          exists e, datetime_add (clock w2 (ticks w2)) delta
                                    = Raise e) ->
           run U h w = (Raise (library_error OverflowError), tick w2)).
Proof.
intros B BR U h w. split.
- unfold timedelta_hours, timedelta, between, MAX_DELTA_DAYS, US_PER_DAY.
  assert (Q : h * US_PER_HOUR / (24 * US_PER_HOUR) = h / 24).
  { rewrite <- (Z.mul_comm US_PER_HOUR 24).
    rewrite <- Z.div_div by (unfold US_PER_HOUR, US_PER_SECOND; lia).
    rewrite Z.div_mul by discriminate. reflexivity. }
  rewrite Q.
  destruct (_ && _) eqn:E.
  + apply andb_true_iff in E. destruct E as [E1 E2].
    apply Z.leb_le in E1. apply Z.leb_le in E2.
    split; [discriminate |]. intros H. exfalso.
    Z.div_mod_to_equations. lia.
  + split; [intros _ | reflexivity].
    apply andb_false_iff in E.
    destruct E as [E | E]; apply Z.leb_gt in E;
      Z.div_mod_to_equations; lia.
- intros p w1 ups w2 Hl Hf Hover.
  unfold run, bind. rewrite Hl, Hf. unfold now, lift.
  destruct (timedelta_hours h) as [delta | e] eqn:Ed.
  + destruct (Hover delta eq_refl) as [e He]. rewrite He.
    unfold datetime_add in He.
    destruct (_ && _) in He; [destruct (ord2ymd _) as [[? ?] ?] in He;
                              discriminate |].
    inversion He. reflexivity.
  + unfold timedelta_hours, timedelta in Ed.
    destruct (between _ _ _) in Ed; [discriminate |].
    inversion Ed. reflexivity.
Qed.

Lemma oversized_window_overflows_witness :
  login Scenario.w_test = (Ok 0%nat, snd (login Scenario.w_test))
  /\ fetch_upcoming ascii_ucd 0%nat (snd (login Scenario.w_test))
     = (Ok [Cases.dummy],
        snd (fetch_upcoming ascii_ucd 0%nat (snd (login Scenario.w_test))))
  /\ timedelta_hours 70000000 = Ok (70000000 * US_PER_HOUR)
  /\ datetime_add Scenario.t_now (70000000 * US_PER_HOUR)
     = Raise (library_error OverflowError)
  /\ run ascii_ucd 70000000 Scenario.w_test
     = (Raise (library_error OverflowError),
        tick (snd (fetch_upcoming ascii_ucd 0%nat
                     (snd (login Scenario.w_test))))).
Proof.
assert (L : login Scenario.w_test = (Ok 0%nat, snd (login Scenario.w_test)))
  by (vm_compute; reflexivity).
assert (F : fetch_upcoming ascii_ucd 0%nat (snd (login Scenario.w_test))
            = (Ok [Cases.dummy],
               snd (fetch_upcoming ascii_ucd 0%nat
                      (snd (login Scenario.w_test)))))
  by (vm_compute; reflexivity).
split; [exact L |]. split; [exact F |].
split; [reflexivity |]. split; [vm_compute; reflexivity |].
apply (proj2 (@oversized_window_overflows _ Sim.sim_browser ascii_ucd
                70000000 Scenario.w_test) _ _ _ _ L F).
intros delta H. vm_compute in H. inversion H; subst delta.
exists (library_error OverflowError). vm_compute. reflexivity.
Defined.

(* ================================================================== *)
(** * Further properties: the notifier *)
(* ================================================================== *)

(** X13.  [notify] builds the whole message before it delivers anything.
    Given a list in which some entry has no due date it raises a TypeError
    and neither posts nor prints; given entries that all have one, the
    message has one line per entry after the header. *)
Theorem notify_needs_due_dates :
  forall B (BR : Browser B) alerts (w : World B),
    (forallb has_due alerts = false ->
     fst (notify alerts w) = Raise (library_error TypeError)
     /\ log (snd (notify alerts w)) = log w ++ [EvNotify alerts])
    /\ (forallb has_due alerts = true ->
        forall t0, exists lines,
          alert_lines t0 alerts = Ok lines
          /\ length lines = length alerts).
Proof.
intros B BR alerts w. split.
- intros H.
  assert (A : forall t0, alert_lines t0 alerts
                         = Raise (library_error TypeError)).
  { intros t0. induction alerts as [| t rest IH]; simpl in *;
      [discriminate |].
    unfold has_due in H. destruct (due t) as [d |]; [| reflexivity].
    simpl in H. rewrite (IH H). reflexivity. }
  unfold notify. generalize (header alerts). intros hd.
  unfold bind, emit, getenv, get_secret, now, lift, ret. simpl.
  destruct (truthy (environ w "LINE_NOTIFY_TOKEN")); simpl; rewrite A;
    split; reflexivity.
- intros H t0. induction alerts as [| t rest IH]; simpl in *.
  + exists []. split; reflexivity.
  + apply andb_true_iff in H. destruct H as [Ht Hr].
    unfold has_due in Ht. destruct (due t) as [d |]; [| discriminate].
    destruct (IH Hr) as [lines [-> Hl]]. simpl. eexists.
    split; [reflexivity |]. simpl. congruence.
Qed.

Lemma notify_needs_due_dates_witness :
  forallb has_due [Scenario.an_alert; Cases.no_date] = false
  /\ fst (notify [Scenario.an_alert; Cases.no_date] Cases.w_line_rejects)
     = Raise (library_error TypeError)
  /\ log (snd (notify [Scenario.an_alert; Cases.no_date]
                 Cases.w_line_rejects))
     = [EvNotify [Scenario.an_alert; Cases.no_date]]
  /\ forallb has_due [Scenario.an_alert] = true
  /\ exists lines,
       alert_lines Scenario.t_now [Scenario.an_alert] = Ok lines
       /\ length lines = 1%nat.
Proof.
destruct (@notify_needs_due_dates _ Sim.sim_browser
            [Scenario.an_alert; Cases.no_date] Cases.w_line_rejects)
  as [H _].
destruct (@notify_needs_due_dates _ Sim.sim_browser
            [Scenario.an_alert] Cases.w_line_rejects) as [_ H'].
split; [reflexivity |].
destruct (H eq_refl) as [H1 H2].
split; [exact H1 |]. split; [exact H2 |]. split; [reflexivity |].
exact (H' eq_refl Scenario.t_now).
Defined.

(** X14.  What becomes of the answer of LINE.  With a non-empty token,
    from the variable or from the key-ring, and the message built,
    [notify] posts once.  An answer with a status other than 200 is not
    raised: [notify] hands "LINE Notify failed:" and the body of the
    answer to [console.print] and ends as that call ends, normally when
    [rich] accepts the body, so that the scan returns its count and the
    caller cannot tell a rejected notification from a delivered one.  An
    exception of [requests.post] itself is not caught and ends the scan. *)
Theorem line_rejection_is_not_raised :
  forall B (BR : Browser B) alerts (w : World B) token lines,
    token_by_contract (environ w "LINE_NOTIFY_TOKEN")
                      (keyring w SERVICE "LINE_TOKEN") = Some token ->
    token <> [] ->
    alert_lines (clock w (ticks w)) alerts = Ok lines ->
    (forall st body,
        line_api w token (message alerts lines) = Ok (st, body) ->
        fst (notify alerts w)
        = (if st =? 200 then Ok tt
           else console_api w (LINE_FAILED ++ body))
        /\ log (snd (notify alerts w))
           = log w ++ [EvNotify alerts;
                       EvPost token (message alerts lines)]
                   ++ (if st =? 200 then []
                       else [EvConsole (LINE_FAILED ++ body)]))
    /\ (forall e,
           line_api w token (message alerts lines) = Raise e ->
           fst (notify alerts w) = Raise e
           /\ log (snd (notify alerts w))
              = log w ++ [EvNotify alerts;
                          EvPost token (message alerts lines)])
    /\ (forall U h w0 p w1 ups w2 delta thr,
           login w0 = (Ok p, w1) ->
           fetch_upcoming U p w1 = (Ok ups, w2) ->
           timedelta_hours h = Ok delta ->
           datetime_add (clock w2 (ticks w2)) delta = Ok thr ->
           at_risk_by_contract p (clock w2 (ticks w2)) h ups (tick w2)
           = (Ok alerts, w) ->
           alerts <> [] ->
           fst (run U h w0)
           = match fst (notify alerts w) with
             | Ok _ => Ok (Z.of_nat (length alerts))
             | Raise e => Raise e
             end).
Proof.
intros B BR alerts w token lines Ht Hne Hl.
destruct token as [| c tk]; [congruence |].
assert (N : notify alerts w
            = bind (requests_post (c :: tk) (message alerts lines))
                (fun resp =>
                   if fst resp =? 200 then ret tt
                   else console_print (LINE_FAILED ++ snd resp))
                (tick (add_event (EvNotify alerts) w))).
{ unfold notify, message, LINE_FAILED. generalize (header alerts).
  intros hd.
  generalize (py "[bold red]LINE Notify failed:[/bold red] "). intros red.
  generalize (join [10]). intros jn.
  unfold token_by_contract in Ht.
  unfold bind at 1, emit. unfold bind at 1, getenv. cbn [environ add_event].
  destruct (environ w "LINE_NOTIFY_TOKEN") as [[| c' s'] |];
    cbn [truthy]; cbv iota;
    [ unfold bind at 1, get_secret; cbn [keyring add_event]; rewrite Ht
    | inversion Ht; subst; unfold bind at 1, ret
    | unfold bind at 1, get_secret; cbn [keyring add_event]; rewrite Ht ];
    unfold bind at 1, now; cbn [clock ticks add_event];
    unfold bind at 1, lift; rewrite Hl; cbn [truthy value];
    reflexivity. }
split; [| split].
- intros st body Ha. rewrite N.
  unfold console_print, requests_post, bind, emit, ret.
  cbn [line_api add_event tick]. rewrite Ha. cbn [fst snd].
  destruct (st =? 200); cbn [fst snd log add_event tick console_api];
    rewrite <- ?app_assoc; split; reflexivity.
- intros e Ha. rewrite N.
  unfold requests_post, bind, emit.
  cbn [line_api add_event tick]. rewrite Ha.
  cbn [fst snd log add_event tick]. rewrite <- ?app_assoc.
  split; reflexivity.
- intros U h w0 p w1 ups w2 delta thr Hlg Hf Hd Ha Hk Hne'.
  destruct (run_by_contract U h w0 Hlg Hf Hd Ha) as [_ [_ [_ Er]]].
  rewrite Er. unfold bind at 1. rewrite Hk. unfold deliver.
  destruct alerts as [| a alerts']; [congruence |].
  cbn [nonempty]. unfold bind, ret.
  destruct (notify (a :: alerts') w) as [[[] | e] w5]; reflexivity.
Qed.

Lemma line_rejection_is_not_raised_witness :
  token_by_contract
    (environ (Cases.evaluated 2 [Cases.dummy] Cases.w_stored_rejects)
       "LINE_NOTIFY_TOKEN")
    (keyring (Cases.evaluated 2 [Cases.dummy] Cases.w_stored_rejects)
       SERVICE "LINE_TOKEN")
  = Some (py "tok")
  /\ fst (notify [Cases.dummy]
            (Cases.evaluated 2 [Cases.dummy] Cases.w_stored_rejects))
     = Ok tt
  /\ filter is_delivery
       (log (snd (notify [Cases.dummy]
                    (Cases.evaluated 2 [Cases.dummy]
                       Cases.w_stored_rejects))))
     = [EvPost (py "tok")
          (message [Cases.dummy]
             [py "• dummy 2025年8月4日 11:00 (あと 1h)"]);
        EvConsole (LINE_FAILED ++ py "Invalid access token")]
  /\ fst (run ascii_ucd 2 Cases.w_stored_rejects) = Ok 1
  /\ fst (run ascii_ucd 2 Cases.w_line_rejects) = Ok 1
  /\ fst (run ascii_ucd 2 Cases.w_line_markup)
     = Raise (library_error MarkupError)
  /\ fst (run ascii_ucd 2 Cases.w_line_down)
     = Raise (library_error RequestException).
Proof.
assert (T : token_by_contract
              (environ (Cases.evaluated 2 [Cases.dummy]
                          Cases.w_stored_rejects) "LINE_NOTIFY_TOKEN")
              (keyring (Cases.evaluated 2 [Cases.dummy]
                          Cases.w_stored_rejects) SERVICE "LINE_TOKEN")
            = Some (py "tok")) by (vm_compute; reflexivity).
assert (L : alert_lines
              (clock (Cases.evaluated 2 [Cases.dummy] Cases.w_stored_rejects)
                 (ticks (Cases.evaluated 2 [Cases.dummy]
                           Cases.w_stored_rejects)))
              [Cases.dummy]
            = Ok [py "• dummy 2025年8月4日 11:00 (あと 1h)"])
  by (vm_compute; reflexivity).
assert (N : py "tok" <> []) by discriminate.
destruct (@line_rejection_is_not_raised _ Sim.sim_browser [Cases.dummy]
            (Cases.evaluated 2 [Cases.dummy] Cases.w_stored_rejects)
            (py "tok") _ T N L) as [H [_ Hrun]].
destruct (H 401 (py "Invalid access token") eq_refl) as [H1 H2].
assert (H1' : fst (notify [Cases.dummy]
                     (Cases.evaluated 2 [Cases.dummy]
                        Cases.w_stored_rejects)) = Ok tt)
  by (rewrite H1; reflexivity).
split; [exact T |]. split; [exact H1' |].
split; [rewrite H2; vm_compute; reflexivity |].
split.
- rewrite (Hrun ascii_ucd 2 Cases.w_stored_rejects 0%nat
             (snd (login Cases.w_stored_rejects)) [Cases.dummy]
             (Cases.fetched Cases.w_stored_rejects)
             (2 * US_PER_HOUR) (Sim.at_time 2025 8 4 12 0 0 0));
    [rewrite H1'; reflexivity | vm_compute; reflexivity ..
    | discriminate].
- split; [vm_compute; reflexivity |].
  split; vm_compute; reflexivity.
Defined.
(* ================================================================== *)
(** * Lemmas on substrings and on the search of the localized pattern *)
(* ================================================================== *)

(** ** The substring test *)

Lemma starts_with_spec p : forall s,
  starts_with p s = true <-> exists post, s = p ++ post.
Proof.
induction p as [| x p IH]; intros s; simpl.
- split; [intros _; exists s; reflexivity | reflexivity].
- destruct s as [| y s].
  + split; [discriminate | intros [post H]; discriminate].
  + rewrite andb_true_iff, Z.eqb_eq, IH. split.
    * intros [-> [post ->]]. exists post. reflexivity.
    * intros [post H]. inversion H; subst. split; [reflexivity |].
      exists post. reflexivity.
Qed.

Lemma contains_spec needle : forall hay,
  contains needle hay = true <-> exists pre post, hay = pre ++ needle ++ post.
Proof.
induction hay as [| c hay IH].
- simpl. rewrite orb_false_r, starts_with_spec. split.
  + intros [post H]. exists [], post. exact H.
  + intros [pre [post H]]. destruct pre as [| a pre]; [| discriminate].
    exists post. exact H.
- simpl contains. rewrite orb_true_iff, starts_with_spec, IH. split.
  + intros [[post H] | [pre [post H]]].
    * exists [], post. exact H.
    * exists (c :: pre), post. rewrite H. reflexivity.
  + intros [pre [post H]]. destruct pre as [| a pre].
    * left. exists post. exact H.
    * right. exists pre, post. inversion H. reflexivity.
Qed.

(** ** The localized pattern behind any text *)

Section JpAnywhere.

Variable U : UnicodeData.

(** A match of the localized pattern has 年 as its fifth character. *)
Lemma jp_match_needs_year s g :
  match_here U false jp_pattern s = Some g -> nth_error s 4 = Some 24180.
Proof.
intros H. apply match_here_sound in H. destruct H as [x [s' [-> M]]].
unfold jp_pattern, rcat in M. simpl fold_right in M.
apply Matches_seq_inv in M. destruct M as [x1 [x2 [g1 [-> [M1 M2]]]]].
apply Matches_seq_inv in M2. destruct M2 as [x3 [x4 [g2 [-> [M3 _]]]]].
apply Matches_group_inv in M1. destruct M1 as [g3 [M1 _]].
apply Matches_digits_inv in M1. destruct M1 as [_ [_ L]].
apply Matches_lit_inv in M3. destruct M3 as [_ [c [-> Hc]]].
unfold lit_match in Hc. cbn [andb] in Hc. apply Z.eqb_eq in Hc. subst c.
destruct x1 as [| a [| b [| c [| d [| e x1]]]]]; simpl in L; try lia.
reflexivity.
Qed.

Lemma nth_error_free (l t : pystr) k :
  existsb (Z.eqb 24180) l = false -> (k < length l)%nat ->
  nth_error (l ++ t) k <> Some 24180.
Proof.
revert k. induction l as [| c l IH]; intros k Hf Hk; simpl in *; [lia |].
apply orb_false_iff in Hf. destruct Hf as [Hc Hl].
destruct k as [| k]; simpl.
- intros E. inversion E; subst. discriminate.
- apply IH; [exact Hl | lia].
Qed.

(** [re.search] walks over a prefix that holds no 年, when the text
    behind it begins with four characters other than 年. *)
Lemma jp_search_passes pre a b c d s g :
  existsb (Z.eqb 24180) (pre ++ [a; b; c; d]) = false ->
  match_here U false jp_pattern (a :: b :: c :: d :: s) = Some g ->
  search U false jp_pattern (pre ++ a :: b :: c :: d :: s) = Some g.
Proof.
intros Hf Hs. induction pre as [| x pre IH]; simpl app.
- cbn [search]. rewrite Hs. reflexivity.
- cbn [search].
  destruct (match_here U false jp_pattern (x :: pre ++ a :: b :: c :: d :: s))
    as [g' |] eqn:E.
  + exfalso. apply jp_match_needs_year in E.
    change (x :: pre ++ a :: b :: c :: d :: s)
      with ((x :: pre) ++ [a; b; c; d] ++ s) in E.
    rewrite app_assoc in E. revert E. apply nth_error_free.
    * exact Hf.
    * rewrite length_app. simpl. lia.
  + apply IH. simpl in Hf. apply orb_false_iff in Hf. apply Hf.
Qed.

End JpAnywhere.

(** ** The English pattern on a rendered date, one item at a time *)

Section EnglishForm.

Variable U : UnicodeData.
Hypothesis HU : ucd_ok U.

#[local] Arguments in_cset : simpl never.
#[local] Arguments consumed : simpl never.
#[local] Arguments lit_match : simpl never.

(** A group of one or two digits takes the whole field when the next
    character is no digit. *)
Lemma field_step ic n fs rest g k res :
  short_field fs = true ->
  (forall c s', rest = c :: s' -> in_cset U CDigit c = false) ->
  k rest (set_group n fs g) = Some res ->
  matchk U ic (RGroup n (digits 1 2)) (fs ++ rest) g k = Some res.
Proof.
intros Hf Hr Hk.
destruct fs as [| a [| b [| ? ?]]]; try discriminate; simpl in Hf.
- unfold digits. simpl. rewrite (digit_in HU a Hf).
  destruct rest as [| c s']; simpl.
  + rewrite consumed_1. exact Hk.
  + rewrite (Hr c s' eq_refl), consumed_1. exact Hk.
- apply andb_true_iff in Hf. destruct Hf as [Ha Hb].
  unfold digits. simpl. rewrite (digit_in HU a Ha), (digit_in HU b Hb).
  rewrite rep_greedy_zero, consumed_2, Hk. reflexivity.
Qed.

Lemma four_step ic n a b c d rest g k :
  ascii_digit a = true -> ascii_digit b = true ->
  ascii_digit c = true -> ascii_digit d = true ->
  matchk U ic (RGroup n (digits 4 4)) (a :: b :: c :: d :: rest) g k
  = k rest (set_group n [a; b; c; d] g).
Proof.
intros Ha Hb Hc Hd. unfold digits. simpl.
rewrite (digit_in HU a Ha), (digit_in HU b Hb), (digit_in HU c Hc),
  (digit_in HU d Hd).
rewrite rep_greedy_zero, consumed_4. reflexivity.
Qed.

Lemma two_step ic n a b rest g k :
  ascii_digit a = true -> ascii_digit b = true ->
  matchk U ic (RGroup n (digits 2 2)) (a :: b :: rest) g k
  = k rest (set_group n [a; b] g).
Proof.
intros Ha Hb. unfold digits. simpl.
rewrite (digit_in HU a Ha), (digit_in HU b Hb).
rewrite rep_greedy_zero, consumed_2. reflexivity.
Qed.

(** Greedy whitespace takes a single blank when no whitespace follows. *)
Lemma blank_step ic lo rest g k res :
  (lo <= 1)%nat ->
  (forall c s', rest = c :: s' -> in_cset U CSpace c = false) ->
  k rest g = Some res ->
  matchk U ic (RRepeat CSpace lo None true) (32 :: rest) g k = Some res.
Proof.
intros Hlo Hr Hk. pose proof (blank_is_space HU) as Hb.
assert (G : rep_greedy U CSpace None rest (fun s2 => k s2 g) = Some res).
{ destruct rest as [| c s']; simpl; [exact Hk |].
  rewrite (Hr c s' eq_refl). exact Hk. }
destruct lo as [| [| lo]]; [| | lia]; simpl.
- rewrite Hb, G. reflexivity.
- rewrite Hb. exact G.
Qed.

(** The lazy [.*?] walks over text without digits and line breaks when
    what follows it in the pattern begins with a digit. *)
Lemma lazy_skip mid rest K res :
  forallb (fun c => negb (is_digit U c) && negb (c =? 10)) mid = true ->
  (forall c s, is_digit U c = false -> K (c :: s) = None) ->
  K rest = Some res ->
  rep_lazy U CDot None (mid ++ rest) K = Some res.
Proof.
intros Hm HK Hr. induction mid as [| c mid IH]; simpl app.
- destruct rest; simpl; rewrite Hr; reflexivity.
- simpl in Hm. apply andb_true_iff in Hm. destruct Hm as [Hc Hm].
  apply andb_true_iff in Hc. destruct Hc as [Hd Hn].
  apply negb_true_iff in Hd. simpl. rewrite (HK c _ Hd).
  unfold in_cset at 1. rewrite Hn. apply IH. exact Hm.
Qed.

Lemma letter_match p c :
  is_ascii_letter p = true -> basic c = true ->
  lit_match U true p c = ascii_ignorecase_eq p c.
Proof.
intros Hp Hc. unfold lit_match. rewrite Hp. simpl.
apply (ok_ignorecase HU _ _ Hp Hc).
Qed.

Ltac letters :=
  repeat (rewrite letter_match by reflexivity;
          match goal with
          | |- context [ascii_ignorecase_eq ?p ?c] =>
              let b := eval vm_compute in (ascii_ignorecase_eq p c) in
              change (ascii_ignorecase_eq p c) with b
          end; cbv iota).

(** The month group takes the month name as rendered. *)
Lemma month_step m rest g k res :
  1 <= m <= 12 ->
  k rest (set_group 2 (month_name m) g) = Some res ->
  matchk U true (RGroup 2 (ralt (map rstr month_names)))
         (month_name m ++ rest) g k = Some res.
Proof.
intros Hm Hk.
assert (C : m = 1 \/ m = 2 \/ m = 3 \/ m = 4 \/ m = 5 \/ m = 6 \/ m = 7
            \/ m = 8 \/ m = 9 \/ m = 10 \/ m = 11 \/ m = 12) by lia.
cbn [matchk].
repeat (destruct C as [C | C]; [subst m |]); [.. | subst m];
  match type of Hk with
  | context [month_name ?z] =>
      let v := eval vm_compute in (month_name z) in
      change (month_name z) with v in *
  end;
  match goal with
  | |- context [map rstr month_names] =>
      let v := eval vm_compute in (map rstr month_names) in
      change (map rstr month_names) with v
  end;
  cbn [ralt matchk app]; letters;
  match goal with
  | |- context [consumed ?s rest] =>
      match type of Hk with
      | context [set_group 2 ?v g] =>
          change (consumed s rest) with (consumed (v ++ rest) rest);
          rewrite (consumed_app v rest)
      end
  end;
  rewrite Hk; reflexivity.
Qed.

(** The marker group takes the marker in any of its spellings. *)
Lemma marker_step marker rest g k res :
  is_pm_marker marker = true \/ is_am_marker marker = true ->
  k rest (set_group 6 marker g) = Some res ->
  matchk U true (RGroup 6 (RAlt (rstr (py "AM")) (rstr (py "PM"))))
         (marker ++ rest) g k = Some res.
Proof.
intros Hm Hk.
assert (C : In marker (map py ["PM"; "Pm"; "pM"; "pm";
                               "AM"; "Am"; "aM"; "am"]%string)).
{ unfold is_pm_marker, is_am_marker in Hm. rewrite !existsb_exists in Hm.
  assert (E : forall a b, str_eqb a b = true -> a = b).
  { induction a as [| x a IH]; intros [| y b]; simpl; try discriminate;
      [reflexivity |]. intros H. apply andb_true_iff in H.
    destruct H as [H1 H2]. apply Z.eqb_eq in H1. subst.
    rewrite (IH b H2). reflexivity. }
  destruct Hm as [[x [Hi He]] | [x [Hi He]]]; apply E in He; subst x;
    simpl in Hi; simpl; tauto. }
let v := eval vm_compute in (rstr (py "AM")) in
  change (rstr (py "AM")) with v.
let v := eval vm_compute in (rstr (py "PM")) in
  change (rstr (py "PM")) with v.
let v := eval vm_compute in (map py ["PM"; "Pm"; "pM"; "pm";
                                     "AM"; "Am"; "aM"; "am"]%string) in
  change (map py ["PM"; "Pm"; "pM"; "pm"; "AM"; "Am"; "aM"; "am"]%string)
    with v in C.
simpl in C.
repeat (destruct C as [C | C]; [subst marker |]); [.. | destruct C];
  cbn [matchk app]; letters;
  match goal with
  | |- context [consumed ?s rest] =>
      match type of Hk with
      | context [set_group 6 ?v g] =>
          change (consumed s rest) with (consumed (v ++ rest) rest);
          rewrite (consumed_app v rest)
      end
  end;
  rewrite Hk; reflexivity.
Qed.

Lemma matchk_seq ic r1 r2 s g k :
  matchk U ic (RSeq r1 r2) s g k
  = matchk U ic r1 s g (fun s' g' => matchk U ic r2 s' g' k).
Proof. reflexivity. Qed.

Lemma matchk_lazy_dot ic s g k :
  matchk U ic (RRepeat CDot 0 None false) s g k
  = rep_lazy U CDot None s (fun s2 => k s2 g).
Proof. reflexivity. Qed.

Lemma matchk_lit ic p c s g k :
  matchk U ic (RLit p) (c :: s) g k
  = if lit_match U ic p c then k s g else None.
Proof. reflexivity. Qed.

Lemma letter_not_space c :
  is_ascii_letter c = true -> in_cset U CSpace c = false.
Proof.
intros H. unfold in_cset.
assert (R : 65 <= c <= 122).
{ unfold is_ascii_letter in H. apply orb_true_iff in H.
  destruct H as [H | H]; apply andb_true_iff in H; destruct H as [H1 H2];
    apply Z.leb_le in H1; apply Z.leb_le in H2; lia. }
assert (Hb : basic c = true).
{ unfold basic, is_ascii. apply orb_true_iff. left. apply orb_true_iff.
  left. apply andb_true_iff. split; [apply Z.leb_le | apply Z.ltb_lt]; lia. }
rewrite (ok_space HU _ Hb). unfold ascii_isspace.
apply orb_false_iff. split; apply andb_false_iff; right; apply Z.leb_gt; lia.
Qed.

Lemma month_name_letters m :
  1 <= m <= 12 ->
  month_name m <> [] /\ forallb is_ascii_letter (month_name m) = true.
Proof.
intros Hm.
assert (C : m = 1 \/ m = 2 \/ m = 3 \/ m = 4 \/ m = 5 \/ m = 6 \/ m = 7
            \/ m = 8 \/ m = 9 \/ m = 10 \/ m = 11 \/ m = 12) by lia.
repeat (destruct C as [C | C]; [subst m; split; [discriminate | reflexivity] |]).
subst m. split; [discriminate | reflexivity].
Qed.

Lemma marker_letters marker :
  is_pm_marker marker = true \/ is_am_marker marker = true ->
  marker <> [] /\ forallb is_ascii_letter marker = true.
Proof.
intros Hm.
assert (E : forall a b, str_eqb a b = true -> a = b).
{ induction a as [| x a IH]; intros [| y b]; simpl; try discriminate;
    [reflexivity |]. intros H. apply andb_true_iff in H.
  destruct H as [H1 H2]. apply Z.eqb_eq in H1. subst.
  rewrite (IH b H2). reflexivity. }
unfold is_pm_marker, is_am_marker in Hm. rewrite !existsb_exists in Hm.
destruct Hm as [[x [Hi He]] | [x [Hi He]]]; apply E in He; subst x;
  simpl in Hi;
  repeat (destruct Hi as [Hi | Hi];
          [subst marker; split; [discriminate | reflexivity] |]);
  destruct Hi.
Qed.

Lemma first_not_space w rest c s' :
  w <> [] -> forallb is_ascii_letter w = true ->
  w ++ rest = c :: s' -> in_cset U CSpace c = false.
Proof.
intros Hn Hl E. destruct w as [| a w]; [congruence |].
simpl in E. inversion E; subst. simpl in Hl.
apply andb_true_iff in Hl. apply letter_not_space. apply Hl.
Qed.

Lemma colon_match : lit_match U true 58 58 = true.
Proof. reflexivity. Qed.

(** The English pattern on a rendered date. *)
Lemma en_match_here_fields pad_d pad_h y m d h mm mid marker suf :
  0 <= y <= 9999 -> 1 <= m <= 12 -> 0 <= d <= 99 -> 0 <= h <= 99 ->
  0 <= mm <= 99 ->
  forallb (fun c => negb (is_digit U c) && negb (c =? 10)) mid = true ->
  is_pm_marker marker = true \/ is_am_marker marker = true ->
  match_here U true en_pattern
    (render_en pad_d pad_h y m d h mm mid marker ++ suf)
  = Some (set_group 6 marker (set_group 5 (two_digits mm)
            (set_group 4 (field pad_h h) (set_group 3 (four_digits y)
               (set_group 2 (month_name m)
                  (set_group 1 (field pad_d d) no_groups)))))).
Proof.
intros By Bm Bd Bh Bn Hmid Hmk.
destruct (four_digits_bounds By) as [Y1 [Y2 [Y3 Y4]]].
destruct (tens_units Bn) as [N1 N2].
destruct (month_name_letters Bm) as [Mn Ml].
destruct (@marker_letters marker Hmk) as [Kn Kl].
unfold match_here, en_pattern, rcat, render_en. cbn [fold_right].
rewrite <- !app_assoc.
rewrite matchk_seq. apply field_step; [apply field_short; exact Bd | |].
{ intros c s' E. inversion E. apply (separator_not_digit HU). simpl. tauto. }
cbv beta. rewrite matchk_seq.
change ([32] ++ month_name m ++ [32] ++ four_digits y ++ mid
        ++ field pad_h h ++ [58] ++ two_digits mm ++ [32] ++ marker ++ suf)
  with (32 :: month_name m ++ [32] ++ four_digits y ++ mid
        ++ field pad_h h ++ [58] ++ two_digits mm ++ [32] ++ marker ++ suf).
apply blank_step; [lia | |].
{ intros c s' E. exact (first_not_space _ Mn Ml E). }
cbv beta. rewrite matchk_seq. apply month_step; [exact Bm |].
cbv beta. rewrite matchk_seq.
change ([32] ++ four_digits y ++ mid
        ++ field pad_h h ++ [58] ++ two_digits mm ++ [32] ++ marker ++ suf)
  with (32 :: digit_char (y / 1000) :: digit_char (y / 100 mod 10)
        :: digit_char (y / 10 mod 10) :: digit_char (y mod 10)
        :: mid ++ field pad_h h ++ [58] ++ two_digits mm ++ [32]
           ++ marker ++ suf).
apply blank_step; [lia | |].
{ intros c s' E. inversion E. apply (digit_not_space HU).
  apply digit_char_ascii. exact Y1. }
cbv beta. rewrite matchk_seq.
rewrite four_step by (apply digit_char_ascii; assumption).
cbv beta. rewrite matchk_seq, matchk_lazy_dot.
apply lazy_skip; [exact Hmid | |].
{ intros c s Hc. cbv beta. rewrite matchk_seq. unfold digits.
  cbn [matchk rep_min].
  unfold is_digit in Hc. rewrite Hc. reflexivity. }
cbv beta. rewrite matchk_seq. apply field_step; [apply field_short; exact Bh | |].
{ intros c s' E. inversion E. apply (separator_not_digit HU). simpl. tauto. }
cbv beta. rewrite matchk_seq. cbn [app]. rewrite matchk_lit, colon_match.
cbv beta. rewrite matchk_seq. unfold two_digits at 1. cbn [app].
rewrite two_step by (apply digit_char_ascii; assumption).
cbv beta. rewrite matchk_seq. apply blank_step; [lia | |].
{ intros c s' E. exact (first_not_space _ Kn Kl E). }
cbv beta. rewrite matchk_seq. apply marker_step; [exact Hmk |].
reflexivity.
Qed.

Lemma en_no_match_at_non_digit c s :
  is_digit U c = false -> match_here U true en_pattern (c :: s) = None.
Proof.
intros H. unfold match_here, en_pattern, rcat, digits. cbn [fold_right].
rewrite matchk_seq. cbn [matchk rep_min]. unfold is_digit in H.
rewrite H. reflexivity.
Qed.

Lemma en_search_skips pre s g :
  forallb (fun c => negb (is_digit U c)) pre = true ->
  match_here U true en_pattern s = Some g ->
  search U true en_pattern (pre ++ s) = Some g.
Proof.
intros Hp Hs. induction pre as [| c pre IH]; simpl app.
- destruct s; cbn [search]; rewrite Hs; reflexivity.
- simpl in Hp. apply andb_true_iff in Hp. destruct Hp as [Hc Hp].
  apply negb_true_iff in Hc.
  cbn [search]. rewrite en_no_match_at_non_digit by exact Hc.
  apply IH. exact Hp.
Qed.

(** Without a 年 the localized pattern matches nowhere. *)
Lemma jp_search_none : forall s,
  existsb (Z.eqb 24180) s = false -> search U false jp_pattern s = None.
Proof.
assert (N : forall s, existsb (Z.eqb 24180) s = false ->
                      match_here U false jp_pattern s = None).
{ intros s Hs. destruct (match_here U false jp_pattern s) as [g |] eqn:E;
    [| reflexivity].
  apply jp_match_needs_year in E. apply nth_error_In in E.
  assert (X : existsb (Z.eqb 24180) s = true)
    by (apply existsb_exists; exists 24180; split; [exact E | reflexivity]).
  congruence. }
induction s as [| c s IH]; intros Hs; cbn [search]; rewrite (N _ Hs).
- reflexivity.
- apply IH. simpl in Hs. apply orb_false_iff in Hs. apply Hs.
Qed.

Lemma strptime_month_name m :
  1 <= m <= 12 -> strptime_b_month U (firstn 3 (month_name m)) = Ok m.
Proof.
intros Hm.
assert (C : m = 1 \/ m = 2 \/ m = 3 \/ m = 4 \/ m = 5 \/ m = 6 \/ m = 7
            \/ m = 8 \/ m = 9 \/ m = 10 \/ m = 11 \/ m = 12) by lia.
unfold strptime_b_month.
repeat (destruct C as [C | C];
        [subst m; rewrite (ok_lower HU) by reflexivity; reflexivity |]).
subst m. rewrite (ok_lower HU) by reflexivity. reflexivity.
Qed.

Lemma marker_lower marker :
  is_pm_marker marker = true \/ is_am_marker marker = true ->
  str_eqb (lower U marker) (py "pm") = is_pm_marker marker.
Proof.
intros Hm.
assert (E : forall a b, str_eqb a b = true -> a = b).
{ induction a as [| x a IH]; intros [| y b]; simpl; try discriminate;
    [reflexivity |]. intros H. apply andb_true_iff in H.
  destruct H as [H1 H2]. apply Z.eqb_eq in H1. subst.
  rewrite (IH b H2). reflexivity. }
unfold is_pm_marker, is_am_marker in Hm. rewrite !existsb_exists in Hm.
destruct Hm as [[x [Hi He]] | [x [Hi He]]]; apply E in He; subst x;
  simpl in Hi;
  repeat (destruct Hi as [Hi | Hi];
          [subst marker; rewrite (ok_lower HU) by reflexivity;
           reflexivity |]);
  destruct Hi.
Qed.

Lemma ascii_no_year w :
  forallb is_ascii w = true -> existsb (Z.eqb 24180) w = false.
Proof.
induction w as [| c w IH]; cbn [forallb existsb]; [reflexivity |].
intros H.
apply andb_true_iff in H. destruct H as [Hc Hw]. rewrite (IH Hw).
unfold is_ascii in Hc. apply andb_true_iff in Hc. destruct Hc as [_ Hc].
apply Z.ltb_lt in Hc. replace (24180 =? c) with false; [reflexivity |].
symmetry. apply Z.eqb_neq. lia.
Qed.

Lemma ascii_digit_is_ascii c : ascii_digit c = true -> is_ascii c = true.
Proof.
unfold ascii_digit, is_ascii. intros H. apply andb_true_iff in H.
destruct H as [H1 H2]. apply Z.leb_le in H1. apply Z.leb_le in H2.
apply andb_true_iff. split; [apply Z.leb_le | apply Z.ltb_lt]; lia.
Qed.

Lemma short_field_ascii fs :
  short_field fs = true -> forallb is_ascii fs = true.
Proof.
destruct fs as [| a [| b [| ? ?]]]; try discriminate; simpl; intros H.
- rewrite (ascii_digit_is_ascii _ H). reflexivity.
- apply andb_true_iff in H. destruct H as [Ha Hb].
  rewrite (ascii_digit_is_ascii _ Ha), (ascii_digit_is_ascii _ Hb).
  reflexivity.
Qed.

Lemma letters_ascii w :
  forallb is_ascii_letter w = true -> forallb is_ascii w = true.
Proof.
apply forallb_weaken. intros c H. unfold is_ascii_letter in H.
unfold is_ascii. apply orb_true_iff in H.
destruct H as [H | H]; apply andb_true_iff in H; destruct H as [H1 H2];
  apply Z.leb_le in H1; apply Z.leb_le in H2;
  apply andb_true_iff; (split; [apply Z.leb_le | apply Z.ltb_lt]); lia.
Qed.

Lemma render_en_no_year pad_d pad_h y m d h mm mid marker :
  0 <= y <= 9999 -> 1 <= m <= 12 -> 0 <= d <= 99 -> 0 <= h <= 99 ->
  0 <= mm <= 99 ->
  is_pm_marker marker = true \/ is_am_marker marker = true ->
  existsb (Z.eqb 24180) mid = false ->
  existsb (Z.eqb 24180) (render_en pad_d pad_h y m d h mm mid marker) = false.
Proof.
intros By Bm Bd Bh Bn Hmk Hmid.
destruct (four_digits_bounds By) as [Y1 [Y2 [Y3 Y4]]].
destruct (month_name_letters Bm) as [_ Ml].
destruct (@marker_letters marker Hmk) as [_ Kl].
unfold render_en. rewrite !existsb_app, Hmid.
rewrite !ascii_no_year; try reflexivity.
- apply letters_ascii. exact Kl.
- apply short_field_ascii. apply two_digits_short. exact Bn.
- apply short_field_ascii. apply field_short. exact Bh.
- unfold four_digits. simpl.
  rewrite !ascii_digit_is_ascii by (apply digit_char_ascii; assumption).
  reflexivity.
- apply letters_ascii. exact Ml.
- apply short_field_ascii. apply field_short. exact Bd.
Qed.

End EnglishForm.


(* ================================================================== *)
(** * Further properties: the submission check *)
(* ================================================================== *)

(** X15.  When the page of an entry loads, [is_submitted] answers from the
    text of the page alone: it says yes exactly when the text holds
    "提出済" or "Submitted for grading" somewhere, in that exact spelling,
    whatever stands around it.  It navigates once, to the link it was
    given. *)
Theorem submission_marker_anywhere :
  forall B (BR : Browser B) p u (w : World B) b1 b2 b3 html,
    br_goto p u (browser w) = (Done tt, b1) ->
    br_wait_for_load_state p DomContentLoaded b1 = (Done tt, b2) ->
    br_content p b2 = (Done html, b3) ->
    (exists verdict, fst (is_submitted p (Some u) w) = Ok verdict
       /\ (verdict = true <->
           exists pre post,
             html = pre ++ py "提出済" ++ post
             \/ html = pre ++ py "Submitted for grading" ++ post))
    /\ log (snd (is_submitted p (Some u) w))
       = log w ++ [EvGoto p (Some u) true].
Proof.
intros B BR p u w b1 b2 b3 html H1 H2 H3.
assert (E : is_submitted p (Some u) w
            = (Ok (contains (py "提出済") html
                   || contains (py "Submitted for grading") html),
               set_browser b3 (add_event (EvGoto p (Some u) true)
                                 (set_browser b1 w)))).
{ unfold is_submitted. generalize (py "提出済"). intros m1.
  generalize (py "Submitted for grading"). intros m2.
  unfold bind, call, emit, ret. simpl. unfold call. rewrite H1. simpl.
  rewrite H2. simpl. rewrite H3. reflexivity. }
rewrite E. cbn [fst snd]. split; [| reflexivity].
eexists. split; [reflexivity |].
rewrite orb_true_iff, !contains_spec. split.
- intros [[pre [post H]] | [pre [post H]]]; exists pre, post; auto.
- intros [pre [post [H | H]]]; [left | right]; exists pre, post; exact H.
Qed.

Lemma submission_marker_anywhere_witness :
  fst (is_submitted 0%nat (Some (py "a5")) Cases.w_not_yet) = Ok true
  /\ (exists pre post,
         py "<p>Not Submitted for grading</p>"
         = pre ++ py "提出済" ++ post
         \/ py "<p>Not Submitted for grading</p>"
            = pre ++ py "Submitted for grading" ++ post)
  /\ fst (run ascii_ucd 48 Cases.w_not_yet) = Ok 0.
Proof.
destruct (@submission_marker_anywhere _ Sim.sim_browser 0%nat (py "a5")
            Cases.w_not_yet _ _ _ _ eq_refl eq_refl eq_refl)
  as [[v [Hv Hiff]] _].
assert (X : exists pre post,
          py "<p>Not Submitted for grading</p>"
          = pre ++ py "提出済" ++ post
          \/ py "<p>Not Submitted for grading</p>"
             = pre ++ py "Submitted for grading" ++ post).
{ exists (py "<p>Not "), (py "</p>"). right. vm_compute. reflexivity. }
split; [| split; [exact X | vm_compute; reflexivity]].
rewrite Hv. f_equal. apply Hiff. exact X.
Defined.

(* ================================================================== *)
(** * Further properties: the localized form behind other text *)
(* ================================================================== *)

(** X16.  The localized form is found behind any text that holds no 年,
    digits and a complete English date included, and whatever follows it:
    a label that carries both forms is read by its localized date, the
    English one is never looked at, and of two localized dates the first
    one counts. *)
Theorem japanese_form_takes_precedence :
  forall U, ucd_ok U ->
  forall pad_m pad_d pad_h y m d hh mm pre suf,
    valid_fields y m d hh mm 0 0 = true ->
    existsb (Z.eqb 24180) pre = false ->
    parse_due_date U (pre ++ render_jp pad_m pad_d pad_h y m d hh mm ++ suf)
    = Ok (Some (at_minute y m d hh mm)).
Proof.
intros U HU pad_m pad_d pad_h y m d hh mm pre suf Hv Hpre.
destruct (valid_fields_ranges _ _ _ _ _ Hv) as [By [Bm [Bd [Bh Bn]]]].
destruct (@four_digits_bounds y ltac:(lia)) as [Y1 [Y2 [Y3 Y4]]].
destruct (@tens_units mm ltac:(lia)) as [N1 N2].
assert (M : match_here U false jp_pattern
              (render_jp pad_m pad_d pad_h y m d hh mm ++ suf)
            = Some (set_group 5 (two_digits mm)
                      (set_group 4 (field pad_h hh)
                         (set_group 3 (field pad_d d)
                            (set_group 2 (field pad_m m)
                               (set_group 1 (four_digits y) no_groups)))))).
{ unfold render_jp. rewrite <- !app_assoc.
  apply (jp_match_here_fields HU);
    try (apply digit_char_ascii; assumption);
    apply field_short; lia. }
assert (S : search U false jp_pattern
              (pre ++ render_jp pad_m pad_d pad_h y m d hh mm ++ suf)
            = Some (set_group 5 (two_digits mm)
                      (set_group 4 (field pad_h hh)
                         (set_group 3 (field pad_d d)
                            (set_group 2 (field pad_m m)
                               (set_group 1 (four_digits y) no_groups)))))).
{ revert M. unfold render_jp, four_digits. rewrite <- !app_assoc.
  cbn [app]. apply jp_search_passes.
  rewrite existsb_app, Hpre. unfold digit_char. cbn [existsb orb].
  repeat match goal with
         | |- context [24180 =? ?z] =>
             replace (24180 =? z) with false
               by (symmetry; apply Z.eqb_neq; lia)
         end.
  reflexivity. }
unfold parse_due_date. rewrite S.
change (group _ 1) with (four_digits y).
change (group _ 2) with (field pad_m m).
change (group _ 3) with (field pad_d d).
change (group _ 4) with (field pad_h hh).
change (group _ 5) with (two_digits mm).
rewrite (int_of_four_digits HU) by lia.
rewrite !(int_of_field HU) by lia.
rewrite (int_of_two_digits HU) by lia.
simpl. unfold new_datetime. rewrite Hv. reflexivity.
Qed.

Lemma japanese_form_takes_precedence_witness :
  ucd_ok ascii_ucd
  /\ valid_fields 2025 8 6 10 0 0 0 = true
  /\ existsb (Z.eqb 24180) (py "Quiz 5 August 2025 at 9:15 PM / ") = false
  /\ parse_due_date ascii_ucd (py "Quiz 5 August 2025 at 9:15 PM")
     = Ok (Some (at_minute 2025 8 5 21 15))
  /\ parse_due_date ascii_ucd
       (py "Quiz 5 August 2025 at 9:15 PM / 2025年8月6日 10:00 (2025年9月1日 9:00)")
     = Ok (Some (at_minute 2025 8 6 10 0)).
Proof.
split; [exact ascii_ucd_ok |].
split; [reflexivity |].
split; [reflexivity |].
split; [vm_compute; reflexivity |].
exact (@japanese_form_takes_precedence ascii_ucd ascii_ucd_ok
         false false false 2025 8 6 10 0
         (py "Quiz 5 August 2025 at 9:15 PM / ")
         (py " (2025年9月1日 9:00)") eq_refl eq_refl).
Defined.

(* ================================================================== *)
(** * Further properties: the English long form *)
(* ================================================================== *)

(** X17.  Round trip of the English long form.  A text that holds no 年
    and, after text without digits, a date written
    [D Month YYYY<mid>H:MM <marker>] (day and hour on one or two digits,
    [mid] without digits and line breaks, the marker AM or PM in any
    letter case) is read as that date in JST.  Any hour number from 0 to
    99 is accepted: it is reduced modulo 12 and 12 is added for PM, so
    that "12:00 AM" is midnight and "13:05 PM" is 13:05. *)
Theorem english_render_roundtrip :
  forall U, ucd_ok U ->
  forall pad_d pad_h y m d h mm pre mid marker suf,
    valid_fields y m d 0 mm 0 0 = true ->
    0 <= h <= 99 ->
    is_pm_marker marker = true \/ is_am_marker marker = true ->
    forallb (fun c => negb (is_digit U c)) pre = true ->
    forallb (fun c => negb (is_digit U c) && negb (c =? 10)) mid = true ->
    existsb (Z.eqb 24180) (pre ++ mid ++ suf) = false ->
    parse_due_date U
      (pre ++ render_en pad_d pad_h y m d h mm mid marker ++ suf)
    = Ok (Some (at_minute y m d
                  (h mod 12 + (if is_pm_marker marker then 12 else 0)) mm)).
Proof.
intros U HU pad_d pad_h y m d h mm pre mid marker suf Hv Bh Hmk Hpre Hmid Hy.
destruct (valid_fields_ranges _ _ _ _ _ Hv) as [By [Bm [Bd [_ Bn]]]].
rewrite !existsb_app in Hy. apply orb_false_iff in Hy.
destruct Hy as [Y1 Y2]. apply orb_false_iff in Y2. destruct Y2 as [Y2 Y3].
assert (J : search U false jp_pattern
              (pre ++ render_en pad_d pad_h y m d h mm mid marker ++ suf)
            = None).
{ assert (R : existsb (Z.eqb 24180)
                 (render_en pad_d pad_h y m d h mm mid marker) = false)
    by (apply render_en_no_year; try lia; assumption).
  apply jp_search_none. rewrite !existsb_app, Y1, Y3, R. reflexivity. }
assert (E : search U true en_pattern
              (pre ++ render_en pad_d pad_h y m d h mm mid marker ++ suf)
            = Some (set_group 6 marker (set_group 5 (two_digits mm)
                      (set_group 4 (field pad_h h)
                         (set_group 3 (four_digits y)
                            (set_group 2 (month_name m)
                               (set_group 1 (field pad_d d) no_groups))))))).
{ apply en_search_skips; [exact Hpre |].
  apply (en_match_here_fields HU); try lia; assumption. }
unfold parse_due_date. rewrite J, E. cbv zeta.
change (group _ 1) with (field pad_d d).
change (group _ 2) with (month_name m).
change (group _ 3) with (four_digits y).
change (group _ 4) with (field pad_h h).
change (group _ 5) with (two_digits mm).
change (group _ 6) with marker.
rewrite (strptime_month_name HU) by lia.
rewrite (int_of_four_digits HU) by lia.
rewrite !(int_of_field HU) by lia.
rewrite (int_of_two_digits HU) by lia.
rewrite (marker_lower HU) by exact Hmk.
cbn [rbind]. unfold new_datetime.
assert (V : valid_fields y m d
              (h mod 12 + (if is_pm_marker marker then 12 else 0)) mm 0 0
            = true).
{ unfold valid_fields in *.
  repeat match goal with
         | H : _ && _ = true |- _ => apply andb_true_iff in H; destruct H
         end.
  repeat match goal with
         | H : between _ _ _ = true |- _ => rewrite H; clear H
         end.
  cbn [andb]. rewrite !andb_true_r.
  pose proof (Z.mod_pos_bound h 12 ltac:(lia)).
  unfold between. apply andb_true_iff.
  split; apply Z.leb_le; destruct (is_pm_marker marker); lia. }
rewrite V. reflexivity.
Qed.

Lemma english_render_roundtrip_witness :
  ucd_ok ascii_ucd
  /\ render_en false false 2025 8 5 13 5 (py " at ") (py "pm")
     = py "5 August 2025 at 13:05 pm"
  /\ parse_due_date ascii_ucd
       (py "Quiz: " ++ render_en false false 2025 8 5 13 5 (py " at ")
                         (py "pm") ++ py " (JST)")
     = Ok (Some (at_minute 2025 8 5 13 5))
  /\ parse_due_date ascii_ucd
       (py "Quiz: " ++ render_en true true 2025 8 5 12 0 (py ", ") (py "AM")
        ++ [])
     = Ok (Some (at_minute 2025 8 5 0 0)).
Proof.
split; [exact ascii_ucd_ok |]. split; [reflexivity |]. split.
- apply (@english_render_roundtrip ascii_ucd ascii_ucd_ok false false
           2025 8 5 13 5 (py "Quiz: ") (py " at ") (py "pm") (py " (JST)"));
    [reflexivity | lia | left; reflexivity | reflexivity ..].
- apply (@english_render_roundtrip ascii_ucd ascii_ucd_ok true true
           2025 8 5 12 0 (py "Quiz: ") (py ", ") (py "AM") []);
    [reflexivity | lia | right; reflexivity | reflexivity ..].
Defined.

(* ================================================================== *)
(** * Further properties: the at-risk list *)
(* ================================================================== *)

(** X18.  The at-risk list of a scan is cut out of the timeline.  When a
    scan with a window of [h] hours returns [n], the list that the
    contract's at-risk evaluation builds from the timeline, the clock
    reading and [h] is a subsequence of the entries inside the window,
    hence of the timeline that [fetch_upcoming] returned: timeline order
    is kept and no entry occurs more often than the timeline holds it.  It
    is that list the notifier was called with, and [n] is its length, so
    [n] lies between 0 and the number of timeline entries. *)
Theorem alerts_follow_timeline :
  forall B (BR : Browser B) U h (w : World B) n w',
    run U h w = (Ok n, w') ->
    exists p w1 ups w2 alerts w4 d,
      login w = (Ok p, w1)
      /\ fetch_upcoming U p w1 = (Ok ups, w2)
      /\ at_risk_by_contract p (clock w2 (ticks w2)) h ups (tick w2)
         = (Ok alerts, w4)
      /\ subseq alerts (filter (within_window (clock w2 (ticks w2)) h) ups)
      /\ subseq alerts ups
      /\ log w' = log w2 ++ d
      /\ notify_calls d = (if nonempty alerts then [alerts] else [])
      /\ n = Z.of_nat (length alerts)
      /\ 0 <= n <= Z.of_nat (length ups).
Proof.
intros B BR U h w n w' H.
destruct (run_stages _ _ _ H)
  as [[e [X _]] | [p [w1 [ups [w2 [delta [thr [al [w4
        [Hl [Hf [Hd [Ha _]]]]]]]]]]]]]; [discriminate |].
destruct (run_at_risk U h w Hl Hf Hd Ha H) as [d [L [_ [Hn Hc]]]].
destruct (Hc n eq_refl) as [alerts [w5 [Hk En]]].
destruct (Hn _ _ Hk) as [_ N].
pose proof (at_risk_subseq _ _ _ _ _ Hk) as S.
pose proof (subseq_trans S (subseq_filter _ ups)) as S'.
pose proof (subseq_length S').
exists p, w1, ups, w2, alerts, w5, d.
repeat split; try assumption; lia.
Qed.

Lemma alerts_follow_timeline_witness :
  fst (run ascii_ucd 48 Scenario.w_mixed) = Ok 2
  /\ exists ups alerts d,
       fst (fetch_upcoming ascii_ucd 0%nat (snd (login Scenario.w_mixed)))
       = Ok ups
       /\ length ups = 5%nat /\ subseq alerts ups /\ length alerts = 2%nat
       /\ log (snd (run ascii_ucd 48 Scenario.w_mixed))
          = log (Cases.fetched Scenario.w_mixed) ++ d
       /\ notify_calls d = [alerts].
Proof.
assert (E : run ascii_ucd 48 Scenario.w_mixed
            = (Ok 2, snd (run ascii_ucd 48 Scenario.w_mixed)))
  by (vm_compute; reflexivity).
split; [rewrite E; reflexivity |].
destruct (@alerts_follow_timeline _ Sim.sim_browser ascii_ucd 48
            Scenario.w_mixed 2 _ E)
  as [p [w1 [ups [w2 [alerts [w4 [d
        [Hl [Hf [_ [_ [S [L [N [Hn _]]]]]]]]]]]]]]].
assert (Lg : login Scenario.w_mixed
             = (Ok 0%nat, snd (login Scenario.w_mixed)))
  by (vm_compute; reflexivity).
assert (Hw : w1 = snd (login Scenario.w_mixed))
  by (rewrite Hl; reflexivity).
assert (Hp : Ok p = fst (login Scenario.w_mixed))
  by (rewrite Hl; reflexivity).
rewrite Lg in Hp. cbn [fst] in Hp. injection Hp as ->. subst w1.
assert (Hw2 : w2 = Cases.fetched Scenario.w_mixed)
  by (unfold Cases.fetched; rewrite Hf; reflexivity).
subst w2.
exists ups, alerts, d. rewrite Hf. split; [reflexivity |].
assert (X : length (match fst (fetch_upcoming ascii_ucd 0%nat
                                 (snd (login Scenario.w_mixed))) with
                    | Ok l => l
                    | Raise _ => []
                    end) = 5%nat) by (vm_compute; reflexivity).
rewrite Hf in X.
assert (A : length alerts = 2%nat) by lia.
split; [exact X |]. split; [exact S |]. split; [exact A |].
split; [exact L |]. rewrite N.
destruct alerts; [discriminate | reflexivity].
Defined.
